(** * Configuration gate, settings migration and working-directory resolution
      of the Patched editor client ([client/src/extension.ts]).

    The development embeds the client-side logic of the extension:
    - the validation gate [computeValidate] and the probe-failed memory,
    - the [Migration] class ([record], [needsUpdate], [update]),
    - the working-directory resolution of the configuration middleware.

    Data follows the TypeScript declarations.  An optional property
    ([autoFix?: boolean]) or a value typed [T | undefined] is an [option];
    an object used as a dictionary ([CodeActionsOnSave]) is a [gmap]; a [Set]
    of strings is a [gset]; a JavaScript [Map], whose iteration order is the
    insertion order, is an association list. *)

From stdpp Require Import gmap strings list fin_maps sorting.

Set Implicit Arguments.

(* ===================================================================== *)
(** ** Settings model *)
(* ===================================================================== *)

(** [enum Validate] *)
Inductive Validate : Type :=
  | Validate_on
  | Validate_off
  | Validate_probe.

#[global] Instance Validate_eq_dec : EqDecision Validate.
Proof. solve_decision. Defined.

(** [interface ValidateItem { language: string; autoFix?: boolean }].
    The code tests [typeof item.language === 'string'] at run time, so an
    object without a usable [language] is representable ([None]). *)
Record ValidateItem : Type := mkValidateItem {
  language : option string;
  autoFix : option bool
}.

(** An element of the [validate] list: [ValidateItem | string]. *)
Inductive ValidateEntry : Type :=
  | VString (s : string)
  | VObject (item : ValidateItem).

(** Objects found in the [workingDirectories] list.  The four interfaces
    [LegacyDirectoryItem], [DirectoryItem], [PatternItem] and [ModeItem]
    overlap structurally and are told apart by their type guards, so one
    record carries every property the guards look at. *)
Record DirectoryObject : Type := mkDirectoryObject {
  directory : option string;
  changeProcessCWD : option bool;
  notCwd : option bool;          (* the ['!cwd'] property *)
  pattern : option string;
  mode : option string
}.

(** An element of the [workingDirectories] list. *)
Inductive WorkingDirectoryEntry : Type :=
  | WString (s : string)
  | WObject (o : DirectoryObject).

(** [namespace Is] *)
Definition Is_boolean (v : option bool) : bool :=
  match v with Some _ => true | None => false end.

Definition Is_string (v : option string) : bool :=
  match v with Some _ => true | None => false end.

Definition Is_objectLiteral {T : Type} (v : option T) : bool :=
  match v with Some _ => true | None => false end.

(** [ValidateItem.is] *)
Definition ValidateItem_is (candidate : ValidateItem) : bool :=
  Is_string (language candidate)
  && (Is_boolean (autoFix candidate) || bool_decide (autoFix candidate = None)).

(** [LegacyDirectoryItem.is] *)
Definition LegacyDirectoryItem_is (candidate : DirectoryObject) : bool :=
  Is_string (directory candidate) && Is_boolean (changeProcessCWD candidate).

(** [ModeEnum.is] *)
Definition ModeEnum_is (v : option string) : bool :=
  match v with
  | Some s => bool_decide (s = "auto") || bool_decide (s = "location")
  | None => false
  end.

(** [ModeItem.is] *)
Definition ModeItem_is (candidate : DirectoryObject) : bool :=
  ModeEnum_is (mode candidate).

(** [DirectoryItem.is] *)
Definition DirectoryItem_is (candidate : DirectoryObject) : bool :=
  Is_string (directory candidate)
  && (Is_boolean (notCwd candidate) || bool_decide (notCwd candidate = None)).

(** [PatternItem.is] *)
Definition PatternItem_is (candidate : DirectoryObject) : bool :=
  Is_string (pattern candidate)
  && (Is_boolean (notCwd candidate) || bool_decide (notCwd candidate = None)).

(** The part of a [Uri] the client reads. *)
Record Uri : Type := mkUri {
  scheme : string;
  fsPath : string;
  uri_toString : string
}.

Record TextDocument : Type := mkTextDocument {
  uri : Uri;
  languageId : string
}.

(** The view [Workspace.getConfiguration('patched', resource)] gives on the
    keys read by the gate and by the working-directory resolution.  A key
    that is not configured, or that does not hold an array where the code
    asks [Array.isArray], is [None]. *)
Record PatchedConfig : Type := mkPatchedConfig {
  cfg_enable : option bool;
  cfg_validate : option (list ValidateEntry);
  cfg_probe : option (list string);
  cfg_workingDirectories : option (list WorkingDirectoryEntry)
}.

(** [config.get(key, defaultValue)] *)
Definition config_get {T : Type} (v : option T) (defaultValue : T) : T :=
  match v with Some x => x | None => defaultValue end.

(* ===================================================================== *)
(** ** Validation gate *)
(* ===================================================================== *)

Section Gate.

(** [Workspace.getConfiguration('patched', uri)] *)
Variable getConfiguration : Uri -> PatchedConfig.

(** The loop over the [validate] list: [true] when it returns
    [Validate.on], [false] when it runs to its end. *)
Fixpoint validate_loop (languageId : string) (validate : list ValidateEntry) : bool :=
  match validate with
  | [] => false
  | item :: rest =>
      match item with
      | VString s =>
          if bool_decide (s = languageId) then true
          else validate_loop languageId rest
      | VObject o =>
          if ValidateItem_is o && bool_decide (language o = Some languageId) then true
          else validate_loop languageId rest
      end
  end.

(** The loop over the [probe] list. *)
Fixpoint probe_loop (languageId : string) (probe : list string) : bool :=
  match probe with
  | [] => false
  | item :: rest =>
      if bool_decide (item = languageId) then true
      else probe_loop languageId rest
  end.

Definition computeValidate (probeFailed : gset string) (textDocument : TextDocument) : Validate :=
  let config := getConfiguration (uri textDocument) in
  if negb (config_get (cfg_enable config) true) then Validate_off
  else
    let languageId := languageId textDocument in
    if match cfg_validate config with
       | Some validate => validate_loop languageId validate
       | None => false
       end
    then Validate_on
    else
      let uri := uri_toString (uri textDocument) in
      if bool_decide (uri ∈ probeFailed) then Validate_off
      else
        if match cfg_probe config with
           | Some probe => probe_loop languageId probe
           | None => false
           end
        then Validate_probe
        else Validate_off.

End Gate.

(** *** Client state touched by the server requests and editor events *)

Record ClientState : Type := mkClientState {
  probeFailed : gset string;
  syncedDocuments : gmap string TextDocument
}.

(** The editor workspace as the handlers see it when they run. *)
Record Workspace : Type := mkWorkspace {
  ws_getConfiguration : Uri -> PatchedConfig;
  ws_textDocuments : list TextDocument
}.

(** Handler of [ProbeFailedRequest]: the document identifier's uri is added
    to the set; the close notification it then sends goes to the language
    client and is not part of this state. *)
Definition onProbeFailed (textDocument_uri : string) (st : ClientState) : ClientState :=
  {| probeFailed := {[ textDocument_uri ]} ∪ probeFailed st;
     syncedDocuments := syncedDocuments st |}.

(** First loop of the [onDidChangeConfiguration] handler: synced documents
    the gate now turns off are dropped.  A document is kept in the map
    under its own [uri.toString()], the key the loop deletes. *)
Definition drop_disabled (w : Workspace) (pf : gset string)
    (synced : gmap string TextDocument) : gmap string TextDocument :=
  filter (fun kv => computeValidate (ws_getConfiguration w) pf kv.2 ≠ Validate_off) synced.

(** Second loop: open documents the gate lets through are synced. *)
Fixpoint add_enabled (w : Workspace) (pf : gset string) (docs : list TextDocument)
    (synced : gmap string TextDocument) : gmap string TextDocument :=
  match docs with
  | [] => synced
  | textDocument :: rest =>
      let key := uri_toString (uri textDocument) in
      if negb (bool_decide (is_Some (synced !! key)))
         && negb (bool_decide (computeValidate (ws_getConfiguration w) pf textDocument = Validate_off))
      then add_enabled w pf rest (<[ key := textDocument ]> synced)
      else add_enabled w pf rest synced
  end.

(** Handler registered with [Workspace.onDidChangeConfiguration] in
    [realActivate]; [w] is the workspace after the change. *)
Definition onDidChangeConfiguration (w : Workspace) (st : ClientState) : ClientState :=
  let pf : gset string := ∅ in
  let synced := drop_disabled w pf (syncedDocuments st) in
  {| probeFailed := pf;
     syncedDocuments := add_enabled w pf (ws_textDocuments w) synced |}.

(** Middleware [workspace.didChangeWatchedFile]. *)
Definition didChangeWatchedFile (st : ClientState) : ClientState :=
  {| probeFailed := ∅;
     syncedDocuments := syncedDocuments st |}.

(* ===================================================================== *)
(** ** Migration engine: data *)
(* ===================================================================== *)

(** [enum ConfigurationTarget] *)
Inductive ConfigurationTarget : Type :=
  | Target_Global
  | Target_Workspace
  | Target_WorkspaceFolder.

#[global] Instance ConfigurationTarget_eq_dec : EqDecision ConfigurationTarget.
Proof. solve_decision. Defined.

(** [interface InspectData<T>] *)
Record InspectData (T : Type) : Type := mkInspectData {
  globalValue : option T;
  workspaceValue : option T;
  workspaceFolderValue : option T
}.

(** [interface MigrationElement<T>] *)
Record MigrationElement (T : Type) : Type := mkMigrationElement {
  changed : bool;
  value : option T
}.

(** [interface MigrationData<T>] *)
Record MigrationData (T : Type) : Type := mkMigrationData {
  global : MigrationElement T;
  workspace : MigrationElement T;
  workspaceFolder : MigrationElement T
}.

(** [interface CodeActionsOnSave]: a dictionary from action identifiers to
    booleans; an absent key reads [undefined]. *)
Abbreviation CodeActionsOnSave := (gmap string bool).

Definition source_fixAll : string := "source.fixAll".
Definition source_fixAll_patched : string := "source.fixAll.patched".

(** [interface LanguageSettings] *)
Record LanguageSettings : Type := mkLanguageSettings {
  editor_codeActionsOnSave : option CodeActionsOnSave
}.

(** [settings['editor.codeActionsOnSave'] = v] *)
Definition set_editor_codeActionsOnSave (v : option CodeActionsOnSave)
    (settings : LanguageSettings) : LanguageSettings :=
  {| editor_codeActionsOnSave := v |}.

(** [MigrationData.create] *)
Definition MigrationData_create {T : Type} (inspect : option (InspectData T)) : MigrationData T :=
  match inspect with
  | None =>
      {| global := {| value := None; changed := false |};
         workspace := {| value := None; changed := false |};
         workspaceFolder := {| value := None; changed := false |} |}
  | Some inspect =>
      {| global := {| value := globalValue inspect; changed := false |};
         workspace := {| value := workspaceValue inspect; changed := false |};
         workspaceFolder := {| value := workspaceFolderValue inspect; changed := false |} |}
  end.

(** [MigrationData.needsUpdate] *)
Definition MigrationData_needsUpdate {T : Type} (data : MigrationData T) : bool :=
  changed (global data) || changed (workspace data) || changed (workspaceFolder data).

(** Selecting and replacing the element of one tier; the accessor closures
    of [recordValidate] pick [.global], [.workspace] or [.workspaceFolder]. *)
Definition tier {T : Type} (t : ConfigurationTarget) (data : MigrationData T) : MigrationElement T :=
  match t with
  | Target_Global => global data
  | Target_Workspace => workspace data
  | Target_WorkspaceFolder => workspaceFolder data
  end.

Definition set_tier {T : Type} (t : ConfigurationTarget) (e : MigrationElement T)
    (data : MigrationData T) : MigrationData T :=
  match t with
  | Target_Global =>
      {| global := e; workspace := workspace data; workspaceFolder := workspaceFolder data |}
  | Target_Workspace =>
      {| global := global data; workspace := e; workspaceFolder := workspaceFolder data |}
  | Target_WorkspaceFolder =>
      {| global := global data; workspace := workspace data; workspaceFolder := e |}
  end.

(** JavaScript truthiness [!!v] of a [boolean | undefined]. *)
Definition truthy (v : option bool) : bool :=
  match v with Some b => b | None => false end.

(** [obj[key] = v] for a [v] of type [boolean | undefined]: a property that
    holds [undefined] reads like an absent one. *)
Definition js_assign (key : string) (v : option bool) (obj : CodeActionsOnSave) : CodeActionsOnSave :=
  match v with
  | Some b => <[ key := b ]> obj
  | None => delete key obj
  end.

(** What the [Migration] constructor reads: the four [inspect] results and
    the [inspect] function of the unscoped workspace configuration, which
    [recordValidate] and [update] call on the ['[languageId]'] sections. *)
Record Configuration : Type := mkConfiguration {
  editor_inspect_codeActionsOnSave : option (InspectData CodeActionsOnSave);
  patched_inspect_autoFixOnSave : option (InspectData bool);
  patched_inspect_validate : option (InspectData (list ValidateEntry));
  patched_inspect_workingDirectories : option (InspectData (list WorkingDirectoryEntry));
  workspace_inspect : string -> option (InspectData LanguageSettings)
}.

(** The per-language [MigrationData] objects live in the object store; the
    [languageSpecificSettings] map and the accessor closures hold
    references to them. *)
Abbreviation Ref := nat (only parsing).
Abbreviation Store := (list (MigrationData CodeActionsOnSave)) (only parsing).

(** The continuation registered by [captureDidChangeSetting] is a closure
    of the language client; it is identified by a tag and its call is
    recorded in the trace of [update]. *)
Abbreviation Continuation := nat (only parsing).

(** [class Migration] *)
Record Migration : Type := mkMigration {
  workspaceConfig : string -> option (InspectData LanguageSettings);
  codeActionOnSave : MigrationData CodeActionsOnSave;
  languageSpecificSettings : list (string * Ref);
  autoFixOnSave : MigrationData bool;
  validate : MigrationData (list ValidateEntry);
  workingDirectories : MigrationData (list WorkingDirectoryEntry);
  didChangeConfiguration : option Continuation
}.

(** [constructor(resource)] *)
Definition Migration_new (c : Configuration) : Migration :=
  {| workspaceConfig := workspace_inspect c;
     codeActionOnSave := MigrationData_create (editor_inspect_codeActionsOnSave c);
     autoFixOnSave := MigrationData_create (patched_inspect_autoFixOnSave c);
     validate := MigrationData_create (patched_inspect_validate c);
     workingDirectories := MigrationData_create (patched_inspect_workingDirectories c);
     languageSpecificSettings := [];
     didChangeConfiguration := None |}.

(** [captureDidChangeSetting] *)
Definition captureDidChangeSetting (func : Continuation) (m : Migration) : Migration :=
  {| workspaceConfig := workspaceConfig m;
     codeActionOnSave := codeActionOnSave m;
     languageSpecificSettings := languageSpecificSettings m;
     autoFixOnSave := autoFixOnSave m;
     validate := validate m;
     workingDirectories := workingDirectories m;
     didChangeConfiguration := Some func |}.

(* ===================================================================== *)
(** ** Migration engine: [record] *)
(* ===================================================================== *)

(** The inner [record] of [recordAutoFixOnSave].  [elem] is only read; the
    function returns its boolean result and the new [setting]. *)
Definition recordAutoFixOnSave_record (elem : MigrationElement bool)
    (setting : MigrationElement CodeActionsOnSave) : bool * MigrationElement CodeActionsOnSave :=
  if bool_decide ((value setting ≫= (.!! source_fixAll_patched)) = Some false) then
    (false, setting)
  else
    let obj : CodeActionsOnSave :=
      match value setting with Some o => o | None => ∅ end in
    let autoFix := truthy (value elem) in
    let sourceFixAll := truthy (obj !! source_fixAll) in
    if negb (eqb autoFix sourceFixAll) && autoFix
       && bool_decide (obj !! source_fixAll_patched = None)
    then
      let obj' := js_assign source_fixAll_patched (value elem) obj in
      (truthy (obj' !! source_fixAll_patched), {| value := Some obj'; changed := true |})
    else
      (truthy (obj !! source_fixAll), {| value := Some obj; changed := changed setting |}).

Definition set_codeActionOnSave (d : MigrationData CodeActionsOnSave) (m : Migration) : Migration :=
  {| workspaceConfig := workspaceConfig m;
     codeActionOnSave := d;
     languageSpecificSettings := languageSpecificSettings m;
     autoFixOnSave := autoFixOnSave m;
     validate := validate m;
     workingDirectories := workingDirectories m;
     didChangeConfiguration := didChangeConfiguration m |}.

Definition set_languageSpecificSettings (l : list (string * Ref)) (m : Migration) : Migration :=
  {| workspaceConfig := workspaceConfig m;
     codeActionOnSave := codeActionOnSave m;
     languageSpecificSettings := l;
     autoFixOnSave := autoFixOnSave m;
     validate := validate m;
     workingDirectories := workingDirectories m;
     didChangeConfiguration := didChangeConfiguration m |}.

Definition set_workingDirectories (d : MigrationData (list WorkingDirectoryEntry))
    (m : Migration) : Migration :=
  {| workspaceConfig := workspaceConfig m;
     codeActionOnSave := codeActionOnSave m;
     languageSpecificSettings := languageSpecificSettings m;
     autoFixOnSave := autoFixOnSave m;
     validate := validate m;
     workingDirectories := d;
     didChangeConfiguration := didChangeConfiguration m |}.

Definition set_didChangeConfiguration (k : option Continuation) (m : Migration) : Migration :=
  {| workspaceConfig := workspaceConfig m;
     codeActionOnSave := codeActionOnSave m;
     languageSpecificSettings := languageSpecificSettings m;
     autoFixOnSave := autoFixOnSave m;
     validate := validate m;
     workingDirectories := workingDirectories m;
     didChangeConfiguration := k |}.

(** [recordAutoFixOnSave]: the three calls in source order; the result is
    the triple [fixAll]. *)
Definition recordAutoFixOnSave (m : Migration) : (bool * bool * bool) * Migration :=
  let '(r0, g) := recordAutoFixOnSave_record (global (autoFixOnSave m)) (global (codeActionOnSave m)) in
  let '(r1, w) := recordAutoFixOnSave_record (workspace (autoFixOnSave m)) (workspace (codeActionOnSave m)) in
  let '(r2, f) := recordAutoFixOnSave_record (workspaceFolder (autoFixOnSave m)) (workspaceFolder (codeActionOnSave m)) in
  ((r0, r1, r2),
   set_codeActionOnSave {| global := g; workspace := w; workspaceFolder := f |} m).

(** [Map.prototype.get] on the insertion-ordered map. *)
Fixpoint map_get (key : string) (l : list (string * Ref)) : option Ref :=
  match l with
  | [] => None
  | (k, r) :: rest => if bool_decide (k = key) then Some r else map_get key rest
  end.

(** [getCodeActionsOnSave]: the reference of the language's data, the map
    and the store after the call.  A new object is allocated at the end of
    the store; only the branch that inspected a value enters it in the
    map. *)
Definition getCodeActionsOnSave (workspaceConfig : string -> option (InspectData LanguageSettings))
    (language : string) (languageSpecificSettings : list (string * Ref)) (store : Store)
    : Ref * list (string * Ref) * Store :=
  match map_get language languageSpecificSettings with
  | Some result => (result, languageSpecificSettings, store)
  | None =>
      match workspaceConfig ("[" +:+ language +:+ "]") with
      | None =>
          (length store, languageSpecificSettings, store ++ [MigrationData_create None])
      | Some value =>
          let globalValue' := globalValue value ≫= editor_codeActionsOnSave in
          let workspaceFolderValue' := workspaceFolderValue value ≫= editor_codeActionsOnSave in
          let workspaceValue' := workspaceValue value ≫= editor_codeActionsOnSave in
          let result :=
            MigrationData_create
              (Some {| globalValue := globalValue';
                       workspaceFolderValue := workspaceFolderValue';
                       workspaceValue := workspaceValue' |}) in
          (length store, languageSpecificSettings ++ [(language, length store)], store ++ [result])
      end
  end.

(** The update [recordValidate] makes on the element its accessor
    returned. *)
Definition demote_language (setting : MigrationElement CodeActionsOnSave)
    : MigrationElement CodeActionsOnSave :=
  let obj : CodeActionsOnSave :=
    match value setting with Some o => o | None => ∅ end in
  if negb (bool_decide (obj !! source_fixAll_patched = Some false)) then
    {| value := Some (<[ source_fixAll_patched := false ]> obj); changed := true |}
  else
    {| value := Some obj; changed := changed setting |}.

(** Writing through a reference into the store. *)
Definition store_modify (r : Ref) (f : MigrationData CodeActionsOnSave -> MigrationData CodeActionsOnSave)
    (store : Store) : Store :=
  match store !! r with
  | Some d => <[ r := f d ]> store
  | None => store
  end.

(** One iteration of the loop of the inner [record] of [recordValidate],
    for the tier [t] its accessor selects. *)
Definition recordValidate_item (workspaceConfig : string -> option (InspectData LanguageSettings))
    (t : ConfigurationTarget) (fixAll : bool) (item : ValidateEntry)
    (st : list (string * Ref) * Store) : list (string * Ref) * Store :=
  match item with
  | VString _ => st
  | VObject item =>
      match language item with
      | Some lang =>
          if fixAll && bool_decide (autoFix item = Some false) then
            let '(r, lss, store) := getCodeActionsOnSave workspaceConfig lang st.1 st.2 in
            (lss, store_modify r (fun d => set_tier t (demote_language (tier t d)) d) store)
          else st
      | None => st
      end
  end.

(** The inner [record] of [recordValidate]. *)
Definition recordValidate_record (workspaceConfig : string -> option (InspectData LanguageSettings))
    (t : ConfigurationTarget) (elem : MigrationElement (list ValidateEntry)) (fixAll : bool)
    (st : list (string * Ref) * Store) : list (string * Ref) * Store :=
  match value elem with
  | None => st
  | Some items => foldl (fun st item => recordValidate_item workspaceConfig t fixAll item st) st items
  end.

(** The cascade of the three [fixAll] results into the three calls. *)
Definition cascade (fixAll : bool * bool * bool) (t : ConfigurationTarget) : bool :=
  let '(f0, f1, f2) := fixAll in
  match t with
  | Target_Global => f0
  | Target_Workspace => if f1 then f1 else f0
  | Target_WorkspaceFolder => if f2 then f2 else (if f1 then f1 else f0)
  end.

(** [recordValidate] *)
Definition recordValidate (fixAll : bool * bool * bool) (m : Migration) (store : Store)
    : Migration * Store :=
  let wc := workspaceConfig m in
  let st0 := (languageSpecificSettings m, store) in
  let st1 := recordValidate_record wc Target_Global (global (validate m))
               (cascade fixAll Target_Global) st0 in
  let st2 := recordValidate_record wc Target_Workspace (workspace (validate m))
               (cascade fixAll Target_Workspace) st1 in
  let st3 := recordValidate_record wc Target_WorkspaceFolder (workspaceFolder (validate m))
               (cascade fixAll Target_WorkspaceFolder) st2 in
  (set_languageSpecificSettings st3.1 m, st3.2).

(** One iteration of the loop of the inner [record] of
    [recordWorkingDirectories]: every path through the body leaves the
    element as it is, the rewrite being commented out in the source. *)
Definition recordWorkingDirectories_item (item : WorkingDirectoryEntry)
    (elem : MigrationElement (list WorkingDirectoryEntry))
    : MigrationElement (list WorkingDirectoryEntry) :=
  match item with
  | WString _ => elem
  | WObject o =>
      if ModeItem_is o || PatternItem_is o then elem
      else if DirectoryItem_is o && negb (bool_decide (notCwd o = None)) then elem
      else elem
  end.

Definition recordWorkingDirectories_record (elem : MigrationElement (list WorkingDirectoryEntry))
    : MigrationElement (list WorkingDirectoryEntry) :=
  match value elem with
  | None => elem
  | Some items => foldl (fun e item => recordWorkingDirectories_item item e) elem items
  end.

(** [recordWorkingDirectories] *)
Definition recordWorkingDirectories (m : Migration) : Migration :=
  let d := workingDirectories m in
  set_workingDirectories
    {| global := recordWorkingDirectories_record (global d);
       workspace := recordWorkingDirectories_record (workspace d);
       workspaceFolder := recordWorkingDirectories_record (workspaceFolder d) |} m.

(** [record] *)
Definition record (m : Migration) (store : Store) : Migration * Store :=
  let '(fixAll, m1) := recordAutoFixOnSave m in
  let '(m2, store2) := recordValidate fixAll m1 store in
  (recordWorkingDirectories m2, store2).

(** [needsUpdate]: the loop over [languageSpecificSettings.values()] reads
    each object through its reference. *)
Fixpoint needsUpdate_languages (l : list (string * Ref)) (store : Store) : bool :=
  match l with
  | [] => false
  | (_, r) :: rest =>
      match store !! r with
      | Some value =>
          if MigrationData_needsUpdate value then true
          else needsUpdate_languages rest store
      | None => needsUpdate_languages rest store
      end
  end.

Definition needsUpdate (m : Migration) (store : Store) : bool :=
  if MigrationData_needsUpdate (autoFixOnSave m)
     || MigrationData_needsUpdate (validate m)
     || MigrationData_needsUpdate (codeActionOnSave m)
     || MigrationData_needsUpdate (workingDirectories m)
  then true
  else needsUpdate_languages (languageSpecificSettings m) store.

(* ===================================================================== *)
(** ** Migration engine: [update] *)
(* ===================================================================== *)

(** The three [WorkspaceConfiguration] objects a [Migration] holds. *)
Inductive ConfigurationObject : Type :=
  | editorConfig        (* [Workspace.getConfiguration('editor', resource)] *)
  | eslintConfig        (* [Workspace.getConfiguration('patched', resource)] *)
  | unscopedConfig.     (* [Workspace.getConfiguration(undefined, resource)] *)

(** The value handed to [config.update]. *)
Inductive SettingValue : Type :=
  | SV_codeActionsOnSave (v : option CodeActionsOnSave)
  | SV_boolean (v : option bool)
  | SV_validate (v : option (list ValidateEntry))
  | SV_workingDirectories (v : option (list WorkingDirectoryEntry))
  | SV_languageSettings (v : LanguageSettings).

(** One call [config.update(section, value, target)]. *)
Record Write : Type := mkWrite {
  w_config : ConfigurationObject;
  w_section : string;
  w_value : SettingValue;
  w_target : ConfigurationTarget
}.

(** What [update] does to the outside, in the order it happens. *)
Inductive Event : Type :=
  | Ev_update (w : Write)
  | Ev_didChangeConfiguration (func : Continuation).

Section Update.

(** The configuration stores of the editor and the effect of one
    [config.update] on them; [None] is a rejected write. *)
Variable World : Type.
Variable config_update : Write -> World -> option World.

(** The state of a running [update]: the stores, the events so far and
    whether an awaited write has raised, after which the rest of the
    [try] block is skipped. *)
Record Run : Type := mkRun {
  world : World;
  trace : list Event;
  raised : bool
}.

(** [await config.update(section, value, target)] *)
Definition await_update (w : Write) (r : Run) : Run :=
  if raised r then r
  else
    match config_update w (world r) with
    | Some world' => {| world := world'; trace := trace r ++ [Ev_update w]; raised := false |}
    | None => {| world := world r; trace := trace r ++ [Ev_update w]; raised := true |}
    end.

(** [_update] *)
Definition _update {T : Type} (config : ConfigurationObject) (section : string)
    (wrap : option T -> SettingValue) (newValue : MigrationElement T)
    (target : ConfigurationTarget) (r : Run) : Run :=
  if negb (changed newValue) then r
  else
    await_update
      {| w_config := config; w_section := section;
         w_value := wrap (value newValue); w_target := target |} r.

(** [_updateLanguageSetting]: the current settings object, or a new one,
    gets its ['editor.codeActionsOnSave'] replaced and is written. *)
Definition _updateLanguageSetting (config : ConfigurationObject) (section : string)
    (settings : option LanguageSettings) (newValue : MigrationElement CodeActionsOnSave)
    (target : ConfigurationTarget) (r : Run) : Run :=
  if negb (changed newValue) then r
  else
    let settings :=
      match settings with
      | Some s => s
      | None => {| editor_codeActionsOnSave := None |}
      end in
    let settings :=
      match editor_codeActionsOnSave settings with
      | None => set_editor_codeActionsOnSave (Some ∅) settings
      | Some _ => settings
      end in
    let settings := set_editor_codeActionsOnSave (value newValue) settings in
    await_update
      {| w_config := config; w_section := section;
         w_value := SV_languageSettings settings; w_target := target |} r.

(** The body of the loop over [languageSpecificSettings.keys()]. *)
Definition update_language (workspaceConfig : string -> option (InspectData LanguageSettings))
    (store : Store) (entry : string * Ref) (r : Run) : Run :=
  if raised r then r
  else
    let '(language, ref) := entry in
    match store !! ref with
    | Some value =>
        if MigrationData_needsUpdate value then
          let section := "[" +:+ language +:+ "]" in
          let current := workspaceConfig section in
          let r1 := _updateLanguageSetting unscopedConfig section
                      (current ≫= @globalValue _) (global value) Target_Global r in
          let r2 := _updateLanguageSetting unscopedConfig section
                      (current ≫= @workspaceValue _) (workspace value) Target_Workspace r1 in
          _updateLanguageSetting unscopedConfig section
            (current ≫= @workspaceFolderValue _) (workspaceFolder value) Target_WorkspaceFolder r2
        else r
    | None => r
    end.

(** The [try] block of [update]. *)
Definition update_try (m : Migration) (store : Store) (r : Run) : Run :=
  let r := _update editorConfig "codeActionsOnSave" SV_codeActionsOnSave
             (global (codeActionOnSave m)) Target_Global r in
  let r := _update editorConfig "codeActionsOnSave" SV_codeActionsOnSave
             (workspace (codeActionOnSave m)) Target_Workspace r in
  let r := _update editorConfig "codeActionsOnSave" SV_codeActionsOnSave
             (workspaceFolder (codeActionOnSave m)) Target_WorkspaceFolder r in

  let r := _update eslintConfig "autoFixOnSave" SV_boolean
             (global (autoFixOnSave m)) Target_Global r in
  let r := _update eslintConfig "autoFixOnSave" SV_boolean
             (workspace (autoFixOnSave m)) Target_Workspace r in
  let r := _update eslintConfig "autoFixOnSave" SV_boolean
             (workspaceFolder (autoFixOnSave m)) Target_WorkspaceFolder r in

  let r := _update eslintConfig "validate" SV_validate
             (global (validate m)) Target_Global r in
  let r := _update eslintConfig "validate" SV_validate
             (workspace (validate m)) Target_Workspace r in
  let r := _update eslintConfig "validate" SV_validate
             (workspaceFolder (validate m)) Target_WorkspaceFolder r in

  let r := _update eslintConfig "workingDirectories" SV_workingDirectories
             (global (workingDirectories m)) Target_Global r in
  let r := _update eslintConfig "workingDirectories" SV_workingDirectories
             (workspace (workingDirectories m)) Target_Workspace r in
  let r := _update eslintConfig "workingDirectories" SV_workingDirectories
             (workspaceFolder (workingDirectories m)) Target_WorkspaceFolder r in

  foldl (fun r entry => update_language (workspaceConfig m) store entry r)
        r (languageSpecificSettings m).

(** The [finally] block of [update]. *)
Definition update_finally (m : Migration) (r : Run) : Migration * Run :=
  match didChangeConfiguration m with
  | Some func =>
      (set_didChangeConfiguration None m,
       {| world := world r;
          trace := trace r ++ [Ev_didChangeConfiguration func];
          raised := raised r |})
  | None => (m, r)
  end.

(** [update]: the result carries [raised], the rejection of the promise
    [update] returns. *)
Definition update (m : Migration) (store : Store) (w : World) : Migration * Run :=
  update_finally m (update_try m store {| world := w; trace := []; raised := false |}).

End Update.

(* ===================================================================== *)
(** ** Working-directory resolution of the configuration middleware *)
(* ===================================================================== *)

(** [interface WorkspaceFolder] of the editor. *)
Record VWorkspaceFolder : Type := mkVWorkspaceFolder {
  folder_name : string;
  folder_uri : Uri
}.

(** The value of [settings.workingDirectory]: the [ModeItem] entry itself,
    or the [{ directory, '!cwd' }] object the loop builds. *)
Inductive WorkingDirectory : Type :=
  | WD_ModeItem (entry : DirectoryObject)
  | WD_DirectoryItem (directory : string) (noCWD : bool).

(** The outcome of the chain of type guards at the head of the loop body:
    the local variables [directory], [pattern] and [noCWD], or the
    [continue] of the [ModeItem] branch. *)
Inductive Classified : Type :=
  | C_locals (directory pattern : option string) (noCWD : bool)
  | C_continue (entry : DirectoryObject).

Definition classify (entry : WorkingDirectoryEntry) : Classified :=
  match entry with
  | WString s => C_locals (Some s) None false
  | WObject o =>
      if LegacyDirectoryItem_is o then
        C_locals (directory o) None (negb (truthy (changeProcessCWD o)))
      else if DirectoryItem_is o then
        C_locals (directory o) None
          (match notCwd o with Some b => b | None => false end)
      else if PatternItem_is o then
        C_locals None (pattern o)
          (match notCwd o with Some b => b | None => false end)
      else if ModeItem_is o then C_continue o
      else C_locals None None false
  end.

(** [s.charAt(s.length - 1)]: the last character, or the empty string. *)
Fixpoint last_charAt (s : string) : string :=
  match s with
  | EmptyString => EmptyString
  | String c EmptyString => String c EmptyString
  | String _ rest => last_charAt rest
  end.

Section WorkingDirectories.

(** Helpers of [./utils] and of Node's [path] module, which are not part
    of this file; [RegExp] stands for the compiled pattern and
    [regExp_exec] for the matched text [match[0]] of
    [regExp.exec(filePath)]. *)
Variable RegExp : Type.
Variable toOSPath : string -> string.
Variable toPosixPath : string -> string.
Variable convert2RegExp : string -> option RegExp.
Variable regExp_exec : RegExp -> string -> option string.
Variable path_sep : string.
Variable path_isAbsolute : string -> bool.
Variable path_join : string -> string -> string.
Variable path_posix_isAbsolute : string -> bool.
Variable path_posix_join : string -> string -> string.

(** [path.posix.sep] *)
Definition path_posix_sep : string := "/".

(** The computation of [itemValue] from the locals of one iteration. *)
Definition itemValue (workspaceFolderPath : option string) (document : TextDocument)
    (directory pattern : option string) : option string :=
  if Is_string directory || Is_string pattern then
    let filePath :=
      if bool_decide (scheme (uri document) = "file")
      then Some (fsPath (uri document)) else None in
    match filePath with
    | Some filePath =>
        match directory with
        | Some directory =>
            let directory := toOSPath directory in
            let directory :=
              match workspaceFolderPath with
              | Some workspaceFolderPath =>
                  if negb (path_isAbsolute directory)
                  then path_join workspaceFolderPath directory
                  else directory
              | None => directory
              end in
            let directory :=
              if negb (bool_decide (last_charAt directory = path_sep))
              then directory +:+ path_sep
              else directory in
            if String.prefix directory filePath then Some directory else None
        | None =>
            match pattern with
            | Some pattern =>
                if bool_decide (0 < String.length pattern) then
                  let pattern :=
                    match workspaceFolderPath with
                    | Some workspaceFolderPath =>
                        if negb (path_posix_isAbsolute pattern)
                        then path_posix_join (toPosixPath workspaceFolderPath) pattern
                        else pattern
                    | None => pattern
                    end in
                  let pattern :=
                    if negb (bool_decide (last_charAt pattern = path_posix_sep))
                    then pattern +:+ path_posix_sep
                    else pattern in
                  match convert2RegExp pattern with
                  | Some regExp => regExp_exec regExp filePath
                  | None => None
                  end
                else None
            | None => None
            end
        end
    | None => None
    end
  else None.

(** The body of the loop over [workingDirectories]. *)
Definition resolve_entry (workspaceFolderPath : option string) (document : TextDocument)
    (workingDirectory : option WorkingDirectory) (entry : WorkingDirectoryEntry)
    : option WorkingDirectory :=
  match classify entry with
  | C_continue o => Some (WD_ModeItem o)
  | C_locals directory pattern noCWD =>
      match itemValue workspaceFolderPath document directory pattern with
      | Some itemValue =>
          match workingDirectory with
          | None
          | Some (WD_ModeItem _) => Some (WD_DirectoryItem itemValue noCWD)
          | Some (WD_DirectoryItem current _) =>
              if bool_decide (String.length current < String.length itemValue)
              then Some (WD_DirectoryItem itemValue noCWD)
              else workingDirectory
          end
      | None => workingDirectory
      end
  end.

(** [workspaceFolder && workspaceFolder.uri.scheme === 'file'
     ? workspaceFolder.uri.fsPath : undefined] *)
Definition workspaceFolderPath_of (workspaceFolder : option VWorkspaceFolder) : option string :=
  match workspaceFolder with
  | Some f => if bool_decide (scheme (folder_uri f) = "file") then Some (fsPath (folder_uri f)) else None
  | None => None
  end.

(** The loop, from [workingDirectory = undefined]. *)
Definition resolve_entries (workspaceFolder : option VWorkspaceFolder) (document : TextDocument)
    (workingDirectories : list WorkingDirectoryEntry) : option WorkingDirectory :=
  foldl (resolve_entry (workspaceFolderPath_of workspaceFolder) document) None workingDirectories.

(** [settings.workingDirectory] for a synced [document]. *)
Definition resolveWorkingDirectory (config : PatchedConfig)
    (workspaceFolder : option VWorkspaceFolder) (document : TextDocument)
    : option WorkingDirectory :=
  match cfg_workingDirectories config with
  | Some workingDirectories => resolve_entries workspaceFolder document workingDirectories
  | None => None
  end.

(** The matched text and the [noCWD] flag an entry contributes, when it
    is not a mode entry and matches the document's path. *)
Definition entry_match (workspaceFolderPath : option string) (document : TextDocument)
    (entry : WorkingDirectoryEntry) : option (string * bool) :=
  match classify entry with
  | C_continue _ => None
  | C_locals directory pattern noCWD =>
      match itemValue workspaceFolderPath document directory pattern with
      | Some v => Some (v, noCWD)
      | None => None
      end
  end.

(** The entry takes the [ModeItem] branch of the loop. *)
Definition is_mode_entry (entry : WorkingDirectoryEntry) : bool :=
  match classify entry with
  | C_continue _ => true
  | C_locals _ _ _ => false
  end.

End WorkingDirectories.

(** An instance of the helpers for the examples, which configure absolute
    directories only: Node's [path] on a POSIX platform ([sep] is ["/"], a
    path is absolute when it starts with ["/"]), and [toOSPath] and
    [toPosixPath] returning their argument, as they do off Windows.
    [join] is never reached for an absolute directory, and no example
    configures a pattern, so no pattern is compiled here. *)
Module Posix.
Definition sep : string := "/".
Definition isAbsolute (p : string) : bool :=
  match p with
  | String c _ => bool_decide (String c EmptyString = "/")
  | EmptyString => false
  end.
Definition join (a b : string) : string := a +:+ "/" +:+ b.
Definition toOSPath (p : string) : string := p.
Definition toPosixPath (p : string) : string := p.
Definition convert2RegExp (p : string) : option unit := None.
Definition regExp_exec (r : unit) (filePath : string) : option string := None.

Definition resolve (workspaceFolder : option VWorkspaceFolder) (document : TextDocument)
    (workingDirectories : list WorkingDirectoryEntry) : option WorkingDirectory :=
  resolve_entries toOSPath toPosixPath convert2RegExp regExp_exec sep
    isAbsolute join isAbsolute join workspaceFolder document workingDirectories.

Definition matches (workspaceFolder : option VWorkspaceFolder) (document : TextDocument)
    (entry : WorkingDirectoryEntry) : option (string * bool) :=
  entry_match toOSPath toPosixPath convert2RegExp regExp_exec sep
    isAbsolute join isAbsolute join (workspaceFolderPath_of workspaceFolder) document entry.
End Posix.

(* ===================================================================== *)
(** ** Specification-level notions *)
(* ===================================================================== *)

(** The language id appears in the [validate] list, as a bare string or as
    a [{language}] record. *)
Definition in_validate_list (languageId : string) (config : PatchedConfig) : Prop :=
  ∃ items e, cfg_validate config = Some items ∧ e ∈ items ∧
    (e = VString languageId ∨
     ∃ autoFix, e = VObject {| language := Some languageId; autoFix := autoFix |}).

(** The language id appears in the [probe] list. *)
Definition in_probe_list (languageId : string) (config : PatchedConfig) : Prop :=
  ∃ items, cfg_probe config = Some items ∧ languageId ∈ items.

(** The gate as the ordered cascade of the specification: each rule
    applies only when the rules before it do not. *)
Inductive gate_spec (getConfiguration : Uri -> PatchedConfig) (probeFailed : gset string)
    (document : TextDocument) : Validate -> Prop :=
  | gate_disabled :
      cfg_enable (getConfiguration (uri document)) = Some false ->
      gate_spec getConfiguration probeFailed document Validate_off
  | gate_validate :
      cfg_enable (getConfiguration (uri document)) ≠ Some false ->
      in_validate_list (languageId document) (getConfiguration (uri document)) ->
      gate_spec getConfiguration probeFailed document Validate_on
  | gate_probe_failed :
      cfg_enable (getConfiguration (uri document)) ≠ Some false ->
      ¬ in_validate_list (languageId document) (getConfiguration (uri document)) ->
      uri_toString (uri document) ∈ probeFailed ->
      gate_spec getConfiguration probeFailed document Validate_off
  | gate_probe :
      cfg_enable (getConfiguration (uri document)) ≠ Some false ->
      ¬ in_validate_list (languageId document) (getConfiguration (uri document)) ->
      uri_toString (uri document) ∉ probeFailed ->
      in_probe_list (languageId document) (getConfiguration (uri document)) ->
      gate_spec getConfiguration probeFailed document Validate_probe
  | gate_default :
      cfg_enable (getConfiguration (uri document)) ≠ Some false ->
      ¬ in_validate_list (languageId document) (getConfiguration (uri document)) ->
      uri_toString (uri document) ∉ probeFailed ->
      ¬ in_probe_list (languageId document) (getConfiguration (uri document)) ->
      gate_spec getConfiguration probeFailed document Validate_off.

(** The three tiers in the order [update] writes them. *)
Definition tiers : list ConfigurationTarget :=
  [Target_Global; Target_Workspace; Target_WorkspaceFolder].

(** The linter-specific flag of a code-actions-on-save value. *)
Definition linterSpecificFlag (v : option CodeActionsOnSave) : option bool :=
  v ≫= (.!! source_fixAll_patched).

(** The generic fix-all flag of a code-actions-on-save value. *)
Definition genericFixAll (v : option CodeActionsOnSave) : option bool :=
  v ≫= (.!! source_fixAll).

(** The specification's [linterSpecificFlag ?? genericFixAll], as a
    boolean. *)
Definition flag_or_generic (v : option CodeActionsOnSave) : bool :=
  match linterSpecificFlag v with
  | Some b => b
  | None => truthy (genericFixAll v)
  end.

(** Some element of the data has [changed = true]. *)
Definition some_tier_changed {T : Type} (d : MigrationData T) : Prop :=
  ∃ t, changed (tier t d) = true.

(** The per-language data [needsUpdate] can reach: the objects the
    [languageSpecificSettings] map refers to. *)
Definition tracked_language (m : Migration) (store : list (MigrationData CodeActionsOnSave))
    (d : MigrationData CodeActionsOnSave) : Prop :=
  ∃ lang r, (lang, r) ∈ languageSpecificSettings m ∧ store !! r = Some d.

(** The writes of one setting family, tier by tier, for the changed
    tiers. *)
Definition family_writes {T : Type} (config : ConfigurationObject) (section : string)
    (wrap : option T -> SettingValue) (d : MigrationData T) : list Write :=
  flat_map
    (fun t =>
       if changed (tier t d)
       then [ {| w_config := config; w_section := section;
                 w_value := wrap (value (tier t d)); w_target := t |} ]
       else [])
    tiers.

(** The writes of one per-language slot. *)
Definition language_writes (store : list (MigrationData CodeActionsOnSave))
    (entry : string * nat) : list Write :=
  match store !! entry.2 with
  | Some d =>
      family_writes unscopedConfig ("[" +:+ entry.1 +:+ "]")
        (fun v => SV_languageSettings {| editor_codeActionsOnSave := v |}) d
  | None => []
  end.

(** Every write [update] has to make, in its fixed order. *)
Definition planned_writes (m : Migration) (store : list (MigrationData CodeActionsOnSave))
    : list Write :=
  family_writes editorConfig "codeActionsOnSave" SV_codeActionsOnSave (codeActionOnSave m)
  ++ family_writes eslintConfig "autoFixOnSave" SV_boolean (autoFixOnSave m)
  ++ family_writes eslintConfig "validate" SV_validate (validate m)
  ++ family_writes eslintConfig "workingDirectories" SV_workingDirectories (workingDirectories m)
  ++ flat_map (language_writes store) (languageSpecificSettings m).


(** The write goes to ['editor.codeActionsOnSave'] or to a per-language
    ['[languageId]'] section. *)
Definition migrated_key (w : Write) : Prop :=
  (w_config w = editorConfig ∧ w_section w = "codeActionsOnSave")
  ∨ (w_config w = unscopedConfig ∧ ∃ language, w_section w = "[" +:+ language +:+ "]").

(** Awaiting a list of writes one after the other, up to the first one
    that is rejected. *)
Definition run_writes {World : Type} (config_update : Write -> World -> option World)
    (ws : list Write) (r : Run World) : Run World :=
  foldl (fun r w => await_update config_update w r) r ws.

(** A running [update] before its first write. *)
Definition start {World : Type} (w : World) : Run World :=
  {| world := w; trace := []; raised := false |}.

(** The working directory is not one chosen from a matching entry. *)
Definition not_directory (wd : option WorkingDirectory) : Prop :=
  match wd with
  | Some (WD_DirectoryItem _ _) => False
  | _ => True
  end.


(** Last-entry-wins on ties as the specification words it. *)
Definition last_wins_ties
    (resolve : option VWorkspaceFolder -> TextDocument -> list WorkingDirectoryEntry
               -> option WorkingDirectory)
    (matches : option VWorkspaceFolder -> TextDocument -> WorkingDirectoryEntry
               -> option (string * bool)) : Prop :=
  ∀ folder document e1 e2 v1 c1 v2 c2,
    matches folder document e1 = Some (v1, c1) ->
    matches folder document e2 = Some (v2, c2) ->
    String.length v1 = String.length v2 ->
    resolve folder document [e1; e2] = Some (WD_DirectoryItem v2 c2).

(* ===================================================================== *)
(** ** Concrete configurations *)
(* ===================================================================== *)

Module Examples.

Definition html_no_autoFix : ValidateEntry :=
  VObject {| language := Some "html"; autoFix := Some false |}.

Definition only_global {T : Type} (v : T) : option (InspectData T) :=
  Some {| globalValue := Some v; workspaceValue := None; workspaceFolderValue := None |}.

(** Generic fix-all is on globally, [html] opts out of auto-fix in the
    validate list, and [inspect] of a ['[languageId]'] section answers
    [undefined]. *)
Definition uninspectable_language : Configuration :=
  {| editor_inspect_codeActionsOnSave := only_global {[ source_fixAll := true ]};
     patched_inspect_autoFixOnSave := None;
     patched_inspect_validate := only_global [html_no_autoFix; html_no_autoFix];
     patched_inspect_workingDirectories := None;
     workspace_inspect := fun _ => None |}.

(** The same settings with every ['[languageId]'] section inspected as
    an empty result. *)
Definition inspectable_language : Configuration :=
  {| editor_inspect_codeActionsOnSave := only_global {[ source_fixAll := true ]};
     patched_inspect_autoFixOnSave := None;
     patched_inspect_validate := only_global [html_no_autoFix; html_no_autoFix];
     patched_inspect_workingDirectories := None;
     workspace_inspect := fun _ =>
       Some {| globalValue := None; workspaceValue := None; workspaceFolderValue := None |} |}.

(** The linter-specific flag is on globally and the generic one is not
    set; the legacy auto-fix flag is on. *)
Definition specific_flag_on : Configuration :=
  {| editor_inspect_codeActionsOnSave := only_global {[ source_fixAll_patched := true ]};
     patched_inspect_autoFixOnSave := only_global true;
     patched_inspect_validate := only_global [html_no_autoFix];
     patched_inspect_workingDirectories := None;
     workspace_inspect := fun _ =>
       Some {| globalValue := None; workspaceValue := None; workspaceFolderValue := None |} |}.

(** The linter-specific flag is explicitly off at workspace level while
    the legacy auto-fix flag is on there. *)
Definition opted_out : Configuration :=
  {| editor_inspect_codeActionsOnSave :=
       Some {| globalValue := None;
               workspaceValue := Some {[ source_fixAll_patched := false ]};
               workspaceFolderValue := None |};
     patched_inspect_autoFixOnSave :=
       Some {| globalValue := Some true; workspaceValue := Some true;
               workspaceFolderValue := None |};
     patched_inspect_validate := only_global [html_no_autoFix];
     patched_inspect_workingDirectories := None;
     workspace_inspect := fun _ => None |}.

Definition javascript_document : TextDocument :=
  {| uri := {| scheme := "file"; fsPath := "/a/b/c.js"; uri_toString := "file:///a/b/c.js" |};
     languageId := "javascript" |}.

(** [validate = []], [probe = ["javascript"]] for every resource. *)
Definition probing_workspace : Workspace :=
  {| ws_getConfiguration := fun _ =>
       {| cfg_enable := None; cfg_validate := Some [];
          cfg_probe := Some ["javascript"]; cfg_workingDirectories := None |};
     ws_textDocuments := [javascript_document] |}.

Definition no_state : ClientState :=
  {| probeFailed := ∅; syncedDocuments := ∅ |}.

Definition dir (d : string) (noCwd : option bool) : WorkingDirectoryEntry :=
  WObject {| directory := Some d; changeProcessCWD := None; notCwd := noCwd;
             pattern := None; mode := None |}.


End Examples.


(* ===================================================================== *)
(** ** Further notions for the migration engine *)
(* ===================================================================== *)

#[global] Instance ConfigurationObject_eq_dec : EqDecision ConfigurationObject.
Proof. solve_decision. Defined.

(** The writes among the events of a trace, in order. *)
Fixpoint writes_of (tr : list Event) : list Write :=
  match tr with
  | [] => []
  | Ev_update w :: rest => w :: writes_of rest
  | Ev_didChangeConfiguration _ :: rest => writes_of rest
  end.

(** The stores after a list of writes that are all accepted. *)
Fixpoint apply_writes {World : Type} (config_update : Write -> World -> option World)
    (ws : list Write) (w : World) : option World :=
  match ws with
  | [] => Some w
  | wr :: rest =>
      match config_update wr w with
      | Some w' => apply_writes config_update rest w'
      | None => None
      end
  end.

(** The place of a write in the fixed order of [update]: the setting
    family first, the tier second. *)
Definition family_rank (w : Write) : nat :=
  match w_config w with
  | editorConfig => 0
  | eslintConfig =>
      if bool_decide (w_section w = "autoFixOnSave") then 1
      else if bool_decide (w_section w = "validate") then 2
      else 3
  | unscopedConfig => 4
  end.

Definition tier_rank (t : ConfigurationTarget) : nat :=
  match t with
  | Target_Global => 0
  | Target_Workspace => 1
  | Target_WorkspaceFolder => 2
  end.

(** [w1] may come before [w2] in one [update]. *)
Definition write_before (w1 w2 : Write) : Prop :=
  family_rank w1 < family_rank w2
  ∨ (family_rank w1 = family_rank w2
     ∧ (family_rank w1 = 4 ∨ tier_rank (w_target w1) < tier_rank (w_target w2))).

(** The validate entry opts the language out of auto-fix. *)
Definition opts_out (lang : string) (item : ValidateEntry) : bool :=
  match item with
  | VString _ => false
  | VObject o =>
      bool_decide (language o = Some lang) && bool_decide (autoFix o = Some false)
  end.

(** The validate step reaches the language at the tier: fix-all is on
    for the tier after the cascade and an entry of the tier's validate list
    opts the language out. *)
Definition demotes (m : Migration) (fixAll : bool * bool * bool)
    (lang : string) (t : ConfigurationTarget) : bool :=
  cascade fixAll t
  && match value (tier t (validate m)) with
     | Some items => existsb (opts_out lang) items
     | None => false
     end.

(** The data [getCodeActionsOnSave] creates for a language from the
    inspected ['[languageId]'] section. *)
Definition inspected_language (v : InspectData LanguageSettings) : MigrationData CodeActionsOnSave :=
  MigrationData_create
    (Some {| globalValue := globalValue v ≫= editor_codeActionsOnSave;
             workspaceValue := workspaceValue v ≫= editor_codeActionsOnSave;
             workspaceFolderValue := workspaceFolderValue v ≫= editor_codeActionsOnSave |}).

(** The state of the validate step: the map and the store.  [P lang t]
    tells whether the element of tier [t] of the language has been demoted
    so far. *)
Definition validate_inv (wc : string -> option (InspectData LanguageSettings))
    (P : string -> ConfigurationTarget -> bool)
    (st : list (string * nat) * list (MigrationData CodeActionsOnSave)) : Prop :=
  (∀ lang, is_Some (map_get lang st.1) <-> ∃ t, P lang t = true)
  ∧ (∀ lang r, map_get lang st.1 = Some r ->
       ∃ v d, wc ("[" +:+ lang +:+ "]") = Some v ∧ st.2 !! r = Some d
         ∧ ∀ t, tier t d =
                if P lang t then demote_language (tier t (inspected_language v))
                else tier t (inspected_language v))
  ∧ (∀ l1 l2 r, map_get l1 st.1 = Some r -> map_get l2 st.1 = Some r -> l1 = l2).


(* ===================================================================== *)
(** ** Activation and document synchronisation *)
(* ===================================================================== *)

(** The state of [activate]: the [activated] flag and the number of calls
    of [realActivate] so far. *)
Record Activation : Type := mkActivation {
  activated : bool;
  realActivate_calls : nat
}.

(** The body both listeners run when the gate lets a document through:
    the listeners are disposed, the flag is set and [realActivate] runs. *)
Definition do_activate (a : Activation) : Activation :=
  {| activated := true; realActivate_calls := S (realActivate_calls a) |}.

(** [didOpenTextDocument] of [activate] *)
Definition didOpenTextDocument (w : Workspace) (pf : gset string)
    (textDocument : TextDocument) (a : Activation) : Activation :=
  if activated a then a
  else if negb (bool_decide (computeValidate (ws_getConfiguration w) pf textDocument = Validate_off))
       then do_activate a
       else a.

(** The loop of [configurationChanged] over [Workspace.textDocuments]. *)
Fixpoint configurationChanged_loop (w : Workspace) (pf : gset string)
    (docs : list TextDocument) (a : Activation) : Activation :=
  match docs with
  | [] => a
  | textDocument :: rest =>
      if negb (bool_decide (computeValidate (ws_getConfiguration w) pf textDocument = Validate_off))
      then do_activate a
      else configurationChanged_loop w pf rest a
  end.

(** [configurationChanged] of [activate] *)
Definition configurationChanged (w : Workspace) (pf : gset string) (a : Activation) : Activation :=
  if activated a then a
  else configurationChanged_loop w pf (ws_textDocuments w) a.

(** [activate]: the listeners are registered and [configurationChanged]
    runs once. *)
Definition activate (w : Workspace) (pf : gset string) : Activation :=
  configurationChanged w pf {| activated := false; realActivate_calls := 0 |}.

(** What the two listeners of [activate] receive, with the workspace as it
    is when the event is delivered. *)
Inductive ActivationEvent : Type :=
  | AE_didOpen (w : Workspace) (textDocument : TextDocument)
  | AE_configurationChanged (w : Workspace).

Definition activation_step (pf : gset string) (a : Activation) (ev : ActivationEvent) : Activation :=
  match ev with
  | AE_didOpen w textDocument => didOpenTextDocument w pf textDocument a
  | AE_configurationChanged w => configurationChanged w pf a
  end.

(** The event presents a document the gate lets through. *)
Definition lets_through (pf : gset string) (ev : ActivationEvent) : bool :=
  match ev with
  | AE_didOpen w textDocument =>
      negb (bool_decide (computeValidate (ws_getConfiguration w) pf textDocument = Validate_off))
  | AE_configurationChanged w =>
      existsb
        (fun textDocument =>
           negb (bool_decide (computeValidate (ws_getConfiguration w) pf textDocument = Validate_off)))
        (ws_textDocuments w)
  end.

Section Middleware.

(** [Languages.match(packageJsonFilter, document)] and
    [Languages.match(configFileFilter, document)] give a non-zero score. *)
Variable matches_packageJson : TextDocument -> bool.
Variable matches_configFile : TextDocument -> bool.

(** Middleware [didOpen]: the new state and whether [next] was called. *)
Definition mw_didOpen (w : Workspace) (document : TextDocument) (st : ClientState)
    : ClientState * bool :=
  if matches_packageJson document || matches_configFile document
     || negb (bool_decide (computeValidate (ws_getConfiguration w) (probeFailed st) document
                           = Validate_off))
  then ({| probeFailed := probeFailed st;
           syncedDocuments := <[ uri_toString (uri document) := document ]> (syncedDocuments st) |},
        true)
  else (st, false).

(** The test of the middlewares [didChange], [willSave],
    [willSaveWaitUntil] and [didSave]: [next] is called for a synced
    document only. *)
Definition mw_forwards (document : TextDocument) (st : ClientState) : bool :=
  bool_decide (is_Some (syncedDocuments st !! uri_toString (uri document))).

(** Middleware [didClose] *)
Definition mw_didClose (document : TextDocument) (st : ClientState) : ClientState * bool :=
  let uri := uri_toString (uri document) in
  if bool_decide (is_Some (syncedDocuments st !! uri))
  then ({| probeFailed := probeFailed st;
           syncedDocuments := delete uri (syncedDocuments st) |}, true)
  else (st, false).

(** The events that reach the client state. *)
Inductive ClientEvent : Type :=
  | CE_didOpen (w : Workspace) (document : TextDocument)
  | CE_didClose (document : TextDocument)
  | CE_probeFailed (textDocument_uri : string)
  | CE_didChangeConfiguration (w : Workspace)
  | CE_didChangeWatchedFile.

Definition client_step (st : ClientState) (ev : ClientEvent) : ClientState :=
  match ev with
  | CE_didOpen w document => (mw_didOpen w document st).1
  | CE_didClose document => (mw_didClose document st).1
  | CE_probeFailed u => onProbeFailed u st
  | CE_didChangeConfiguration w => onDidChangeConfiguration w st
  | CE_didChangeWatchedFile => didChangeWatchedFile st
  end.

End Middleware.

(** The client state when [realActivate] starts. *)
Definition initial_client_state : ClientState :=
  {| probeFailed := ∅; syncedDocuments := ∅ |}.

(** Every synced document is kept under its own uri. *)
Definition keys_consistent (st : ClientState) : Prop :=
  ∀ k d, syncedDocuments st !! k = Some d -> k = uri_toString (uri d).

(** *** Code actions *)

(** The part of a [Diagnostic] the middleware reads, and its message to
    tell diagnostics apart. *)
Record Diagnostic : Type := mkDiagnostic {
  source : option string;
  message : string
}.

(** [CodeActionContext]: [only] is the value of the requested kind. *)
Record CodeActionContext : Type := mkCodeActionContext {
  only : option string;
  diagnostics : list Diagnostic
}.

(** [supportedQuickFixKinds]: the values of [CodeActionKind.Source],
    [CodeActionKind.SourceFixAll], the linter's fix-all kind and
    [CodeActionKind.QuickFix]. *)
Definition supportedQuickFixKinds : gset string :=
  {[ "source"; "source.fixAll"; "source.fixAll.patched"; "quickfix" ]}.

(** The loop collecting the diagnostics whose source is ['patched']. *)
Fixpoint eslintDiagnostics (ds : list Diagnostic) : list Diagnostic :=
  match ds with
  | [] => []
  | diagnostic :: rest =>
      if bool_decide (source diagnostic = Some "patched")
      then diagnostic :: eslintDiagnostics rest
      else eslintDiagnostics rest
  end.

(** Middleware [provideCodeActions]: [None] when it answers [[]] itself,
    otherwise the context it hands to [next]. *)
Definition provideCodeActions (document : TextDocument) (context : CodeActionContext)
    (st : ClientState) : option CodeActionContext :=
  if negb (bool_decide (is_Some (syncedDocuments st !! uri_toString (uri document)))) then None
  else if match only context with
          | Some kind => negb (bool_decide (kind ∈ supportedQuickFixKinds))
          | None => false
          end then None
  else if match only context with
          | None => bool_decide (length (diagnostics context) = 0)
          | Some _ => false
          end then None
  else
    let eslintDiagnostics := eslintDiagnostics (diagnostics context) in
    if match only context with
       | None => bool_decide (length eslintDiagnostics = 0)
       | Some _ => false
       end then None
    else Some {| only := only context; diagnostics := eslintDiagnostics |}.

(** *** The request that no linter library was found *)

(** [interface NoESLintState] *)
Record NoESLintState : Type := mkNoESLintState {
  nes_global : option bool;
  nes_workspaces : option (gmap string bool)
}.

(** The handler of [NoESLintLibraryRequest] on the stored state:
    [workspaceFolder] is the uri of the folder of the document, if it has
    one; the result is the state stored afterwards and whether the
    information message was shown. *)
Definition onNoESLintLibrary (workspaceFolder : option string) (state : NoESLintState)
    : NoESLintState * bool :=
  match workspaceFolder with
  | Some folder =>
      let workspaces : gmap string bool :=
        match nes_workspaces state with Some ws => ws | None => ∅ end in
      if negb (truthy (workspaces !! folder)) then
        ({| nes_global := nes_global state;
            nes_workspaces := Some (<[ folder := true ]> workspaces) |}, true)
      else (state, false)
  | None =>
      if negb (truthy (nes_global state)) then
        ({| nes_global := Some true; nes_workspaces := nes_workspaces state |}, true)
      else (state, false)
  end.

(** The scopes for which a run of requests showed the message, in
    order. *)
Fixpoint shown_scopes (requests : list (option string)) (state : NoESLintState)
    : list (option string) :=
  match requests with
  | [] => []
  | workspaceFolder :: rest =>
      let '(state', shown) := onNoESLintLibrary workspaceFolder state in
      if shown then workspaceFolder :: shown_scopes rest state'
      else shown_scopes rest state'
  end.

(** The scope is recorded as shown in the stored state. *)
Definition recorded (scope : option string) (state : NoESLintState) : Prop :=
  match scope with
  | Some folder => (nes_workspaces state ≫= (.!! folder)) = Some true
  | None => nes_global state = Some true
  end.

(* ===================================================================== *)
(** ** Settings projection *)
(* ===================================================================== *)

(** [enum CodeActionsOnSaveMode] *)
Inductive CodeActionsOnSaveMode : Type :=
  | Mode_all
  | Mode_problems.

(** [enum ESLintSeverity] *)
Inductive ESLintSeverity : Type :=
  | Severity_off
  | Severity_warn
  | Severity_error.

(** [interface CodeActionSettings] *)
Record DisableRuleComment : Type := mkDisableRuleComment {
  drc_enable : bool;
  drc_location : string
}.

Record ShowDocumentation : Type := mkShowDocumentation {
  sd_enable : bool
}.

Record CodeActionSettings : Type := mkCodeActionSettings {
  disableRuleComment : DisableRuleComment;
  showDocumentation : ShowDocumentation
}.

(** [interface CodeActionsOnSaveSettings] *)
Record CodeActionsOnSaveSettings : Type := mkCodeActionsOnSaveSettings {
  caos_enable : bool;
  caos_mode : CodeActionsOnSaveMode
}.

(** [WorkspaceFolder] of the protocol. *)
Record ProtocolWorkspaceFolder : Type := mkProtocolWorkspaceFolder {
  pwf_name : string;
  pwf_uri : string
}.

(** The effective values the code reads for a document outside the
    linter's own section: the ['[languageId]'] section of the unscoped
    configuration and ['editor.codeActionsOnSave']. *)
Record EditorConfig : Type := mkEditorConfig {
  get_language_section : Uri -> string -> option LanguageSettings;
  get_editor_codeActionsOnSave : Uri -> option CodeActionsOnSave
}.

(** [caos['source.fixAll.patched'] ?? caos['source.fixAll']] *)
Definition fixAll_of (codeActionsOnSave : CodeActionsOnSave) : option bool :=
  match codeActionsOnSave !! source_fixAll_patched with
  | Some b => Some b
  | None => codeActionsOnSave !! source_fixAll
  end.

(** [readCodeActionsOnSaveSetting] *)
Definition readCodeActionsOnSaveSetting (ec : EditorConfig) (document : TextDocument) : bool :=
  let result : option bool :=
    match get_language_section ec (uri document) ("[" +:+ languageId document +:+ "]") with
    | Some languageConfig =>
        match editor_codeActionsOnSave languageConfig with
        | Some codeActionsOnSave => fixAll_of codeActionsOnSave
        | None => None
        end
    | None => None
    end in
  let result : option bool :=
    match result with
    | Some b => Some b
    | None =>
        match get_editor_codeActionsOnSave ec (uri document) with
        | Some codeActionsOnSave => fixAll_of codeActionsOnSave
        | None => None
        end
    end in
  match result with Some b => b | None => false end.

(** The first defined value of a list of optional values. *)
Fixpoint first_defined {T : Type} (l : list (option T)) : option T :=
  match l with
  | [] => None
  | Some x :: _ => Some x
  | None :: rest => first_defined rest
  end.

Section Settings.

(** The opaque value of the ['options'] key. *)
Variable Options : Type.
Variable empty_options : Options.

(** [String.prototype.toLowerCase] *)
Variable toLowerCase : string -> string.

(** [CodeActionsOnSaveMode.from] *)
Definition CodeActionsOnSaveMode_from (value : string) : CodeActionsOnSaveMode :=
  if bool_decide (toLowerCase value = "problems") then Mode_problems else Mode_all.

(** [ESLintSeverity.from] *)
Definition ESLintSeverity_from (value : string) : ESLintSeverity :=
  let v := toLowerCase value in
  if bool_decide (v = "off") then Severity_off
  else if bool_decide (v = "warn") then Severity_warn
  else if bool_decide (v = "error") then Severity_error
  else Severity_off.

(** The values of [Workspace.getConfiguration('patched', resource)] the
    configuration middleware reads. *)
Record SettingsConfig : Type := mkSettingsConfig {
  sc_patched : PatchedConfig;
  sc_enabled : option bool;
  sc_packageManager : option string;
  sc_quiet : option bool;
  sc_onIgnoredFiles : option string;
  sc_options : option Options;
  sc_run : option string;
  sc_nodePath : option string;
  sc_disableRuleComment : option DisableRuleComment;
  sc_showDocumentation : option ShowDocumentation;
  sc_format_enable : option bool;
  sc_codeActionsOnSave_mode : option string
}.

(** [interface ConfigurationSettings] *)
Record ConfigurationSettings : Type := mkConfigurationSettings {
  s_validate : Validate;
  s_packageManager : string;
  s_codeAction : CodeActionSettings;
  s_codeActionOnSave : CodeActionsOnSaveSettings;
  s_format : bool;
  s_quiet : bool;
  s_onIgnoredFiles : ESLintSeverity;
  s_options : Options;
  s_run : string;
  s_nodePath : option string;
  s_workspaceFolder : option ProtocolWorkspaceFolder;
  s_workingDirectory : option WorkingDirectory
}.

(** Helpers of [./utils], Node's [path] and the protocol converter. *)
Variable RegExp : Type.
Variable toOSPath : string -> string.
Variable toPosixPath : string -> string.
Variable convert2RegExp : string -> option RegExp.
Variable regExp_exec : RegExp -> string -> option string.
Variable path_sep : string.
Variable path_isAbsolute : string -> bool.
Variable path_join : string -> string -> string.
Variable path_posix_isAbsolute : string -> bool.
Variable path_posix_join : string -> string -> string.
Variable asUri : Uri -> string.

(** The part of the loop body of the [configuration] middleware after the
    migration: the settings record of one item.  [config] is the
    configuration read before the migration, [gc] and [ec] are the
    configuration as [computeValidate] and [readCodeActionsOnSaveSetting]
    read it afterwards. *)
Definition build_settings (config : SettingsConfig) (gc : Uri -> PatchedConfig)
    (ec : EditorConfig) (st : ClientState) (workspaceFolder : option VWorkspaceFolder)
    (scopeUri : string) : ConfigurationSettings :=
  let codeAction :=
    {| disableRuleComment :=
         config_get (sc_disableRuleComment config)
           {| drc_enable := true; drc_location := "separateLine" |};
       showDocumentation :=
         config_get (sc_showDocumentation config) {| sd_enable := true |} |} in
  match syncedDocuments st !! scopeUri with
  | None =>
      {| s_validate := Validate_off;
         s_packageManager := config_get (sc_packageManager config) "npm";
         s_codeActionOnSave := {| caos_enable := false; caos_mode := Mode_all |};
         s_format := false;
         s_quiet := config_get (sc_quiet config) false;
         s_onIgnoredFiles := ESLintSeverity_from (config_get (sc_onIgnoredFiles config) "off");
         s_options := config_get (sc_options config) empty_options;
         s_run := config_get (sc_run config) "onType";
         s_nodePath := sc_nodePath config;
         s_workingDirectory := None;
         s_workspaceFolder := None;
         s_codeAction := codeAction |}
  | Some document =>
      let validate :=
        if config_get (sc_enabled config) true
        then computeValidate gc (probeFailed st) document
        else Validate_off in
      let on := negb (bool_decide (validate = Validate_off)) in
      {| s_validate := validate;
         s_packageManager := config_get (sc_packageManager config) "npm";
         s_codeActionOnSave :=
           {| caos_enable := if on then readCodeActionsOnSaveSetting ec document else false;
              caos_mode :=
                if on
                then CodeActionsOnSaveMode_from
                       (config_get (sc_codeActionsOnSave_mode config) "all")
                else Mode_all |};
         s_format := if on then config_get (sc_format_enable config) false else false;
         s_quiet := config_get (sc_quiet config) false;
         s_onIgnoredFiles := ESLintSeverity_from (config_get (sc_onIgnoredFiles config) "off");
         s_options := config_get (sc_options config) empty_options;
         s_run := config_get (sc_run config) "onType";
         s_nodePath := sc_nodePath config;
         s_workingDirectory :=
           resolveWorkingDirectory toOSPath toPosixPath convert2RegExp regExp_exec path_sep
             path_isAbsolute path_join path_posix_isAbsolute path_posix_join
             (sc_patched config) workspaceFolder document;
         s_workspaceFolder :=
           match workspaceFolder with
           | Some f => Some {| pwf_name := folder_name f; pwf_uri := asUri (folder_uri f) |}
           | None => None
           end;
         s_codeAction := codeAction |}
  end.

(** *** The migration prompt *)

(** The buttons of the prompt. *)
Inductive Choice : Type :=
  | Choice_yes
  | Choice_global
  | Choice_readme
  | Choice_no.

#[global] Instance Choice_eq_dec : EqDecision Choice.
Proof. solve_decision. Defined.

(** What one run of the prompt flow does to the outside. *)
Inductive FlowEvent : Type :=
  | FE_prompt
  | FE_forwarded (func : nat)
  | FE_update (tr : list Event)
  | FE_migrationFailed
  | FE_disableMigration
  | FE_openExternal.

(** The configuration stores and the ways the middleware uses them. *)
Variable World : Type.
Variable config_update : Write -> World -> option World.
(** [config.update('migration.2_x', 'off', ConfigurationTarget.Global)] *)
Variable disable_migration : World -> option World.
(** [Workspace.getConfiguration('patched').get('migration.2_x', 'on')] *)
Variable migration_2_x : World -> string.
(** What the constructor of [Migration] inspects for a resource. *)
Variable inspect_configuration : World -> string -> Configuration.
Variable patched_settings : World -> string -> SettingsConfig.
Variable patched_gate : World -> Uri -> PatchedConfig.
Variable editor_settings : World -> EditorConfig.
(** [Workspace.getWorkspaceFolder(resource)] *)
Variable getWorkspaceFolder : string -> option VWorkspaceFolder.

(** Middleware [workspace.didChangeConfiguration] while [migration] is
    defined: a notification without sections is captured, any other is
    passed on at once.  [func] stands for [() => next(sections)]. *)
Definition mw_didChangeConfiguration (sections : option (list string)) (func : nat)
    (acc : Migration * list FlowEvent) : Migration * list FlowEvent :=
  let '(migration, events) := acc in
  if match sections with
     | None => true
     | Some l => bool_decide (length l = 0)
     end
  then (captureDidChangeSetting func migration, events)
  else (migration, events ++ [FE_forwarded func]).

Record FlowResult : Type := mkFlowResult {
  fr_notNow : bool;
  fr_world : World;
  fr_events : list FlowEvent;
  fr_raised : bool
}.

(** The function run under the semaphore for one item.  [selected] is the
    answer to the prompt, if it is shown; [arrivals] are the
    configuration-change notifications delivered while the prompt is
    open. *)
Definition migration_flow (resource : string) (selected : option Choice)
    (arrivals : list (option (list string) * nat)) (notNow : bool) (w : World) : FlowResult :=
  if negb notNow && bool_decide (migration_2_x w = "on") then
    let '(migration, store) := record (Migration_new (inspect_configuration w resource)) [] in
    if needsUpdate migration store then
      let '(migration, events) :=
        foldl (fun acc a => mw_didChangeConfiguration a.1 a.2 acc) (migration, [FE_prompt])
          arrivals in
      match selected with
      | Some Choice_yes =>
          let r := (update config_update migration store w).2 in
          {| fr_notNow := notNow; fr_world := world r;
             fr_events :=
               events ++ [FE_update (trace r)]
               ++ (if raised r then [FE_migrationFailed] else []);
             fr_raised := false |}
      | Some Choice_no =>
          {| fr_notNow := true; fr_world := w; fr_events := events; fr_raised := false |}
      | Some Choice_global =>
          match disable_migration w with
          | Some w' =>
              {| fr_notNow := notNow; fr_world := w';
                 fr_events := events ++ [FE_disableMigration]; fr_raised := false |}
          | None =>
              {| fr_notNow := notNow; fr_world := w;
                 fr_events := events ++ [FE_disableMigration]; fr_raised := true |}
          end
      | Some Choice_readme =>
          {| fr_notNow := true; fr_world := w;
             fr_events := events ++ [FE_openExternal]; fr_raised := false |}
      | None =>
          {| fr_notNow := notNow; fr_world := w; fr_events := events; fr_raised := false |}
      end
    else {| fr_notNow := notNow; fr_world := w; fr_events := []; fr_raised := false |}
  else {| fr_notNow := notNow; fr_world := w; fr_events := []; fr_raised := false |}.

(** [ConfigurationItem] of the protocol. *)
Record ConfigurationItem : Type := mkConfigurationItem {
  scopeUri : option string;
  section : option string
}.

(** JavaScript truthiness of a [string | undefined]. *)
Definition truthy_string (s : option string) : bool :=
  match s with
  | Some s => negb (bool_decide (s = ""))
  | None => false
  end.

(** One item of a configuration request with what happens while it is
    served: the answer to the prompt, the notifications arriving while the
    prompt is open, and the client state found when the settings are
    built. *)
Record ItemRun : Type := mkItemRun {
  item : ConfigurationItem;
  selected : option Choice;
  arrivals : list (option (list string) * nat);
  client : ClientState
}.

(** The state of the [configuration] middleware along its loop: the
    module variable [notNow], the stores, what was done so far, the
    [result] array, and whether the handler has raised. *)
Record HandlerState : Type := mkHandlerState {
  hs_notNow : bool;
  hs_world : World;
  hs_events : list FlowEvent;
  hs_result : list (option ConfigurationSettings);
  hs_raised : bool
}.

(** The body of the loop over [params.items].  A rejection inside the
    function run under the semaphore of [./utils] rejects the handler. *)
Definition handle_item (h : HandlerState) (run : ItemRun) : HandlerState :=
  if hs_raised h then h
  else
    match scopeUri (item run) with
    | Some resource =>
        if truthy_string (section (item run)) || negb (truthy_string (scopeUri (item run)))
        then
          {| hs_notNow := hs_notNow h; hs_world := hs_world h; hs_events := hs_events h;
             hs_result := hs_result h ++ [None]; hs_raised := false |}
        else
          let config := patched_settings (hs_world h) resource in
          let workspaceFolder := getWorkspaceFolder resource in
          let f := migration_flow resource (selected run) (arrivals run)
                     (hs_notNow h) (hs_world h) in
          if fr_raised f then
            {| hs_notNow := fr_notNow f; hs_world := fr_world f;
               hs_events := hs_events h ++ fr_events f;
               hs_result := hs_result h; hs_raised := true |}
          else
            let settings :=
              build_settings config (patched_gate (fr_world f)) (editor_settings (fr_world f))
                (client run) workspaceFolder resource in
            {| hs_notNow := fr_notNow f; hs_world := fr_world f;
               hs_events := hs_events h ++ fr_events f;
               hs_result := hs_result h ++ [Some settings]; hs_raised := false |}
    | None =>
        {| hs_notNow := hs_notNow h; hs_world := hs_world h; hs_events := hs_events h;
           hs_result := hs_result h ++ [None]; hs_raised := false |}
    end.

(** The [configuration] middleware. *)
Definition configuration_middleware (notNow : bool) (w : World)
    (items : option (list ItemRun)) : HandlerState :=
  let h0 := {| hs_notNow := notNow; hs_world := w; hs_events := [];
               hs_result := []; hs_raised := false |} in
  match items with
  | None => h0
  | Some items => foldl handle_item h0 items
  end.

(** The item is one the middleware answers with [null]. *)
Definition unsupported (i : ConfigurationItem) : bool :=
  truthy_string (section i) || negb (truthy_string (scopeUri i)).

End Settings.

(** The continuations the updates of a flow called, in order. *)
Fixpoint continuations_called (events : list FlowEvent) : list nat :=
  match events with
  | [] => []
  | FE_update tr :: rest =>
      omap (fun ev => match ev with
                      | Ev_didChangeConfiguration func => Some func
                      | Ev_update _ => None
                      end) tr
      ++ continuations_called rest
  | _ :: rest => continuations_called rest
  end.

(** The notification has no sections, so the middleware captures it while
    a migration is defined. *)
Definition sectionless (a : option (list string) * nat) : bool :=
  match a.1 with
  | None => true
  | Some l => bool_decide (length l = 0)
  end.

(** The flow event is an action on the configuration or a prompt. *)
Definition is_prompt (e : FlowEvent) : bool :=
  match e with FE_prompt => true | _ => false end.

Definition is_update (e : FlowEvent) : bool :=
  match e with FE_update _ => true | _ => false end.

(** The continuation of the last sectionless notification, if any. *)
Definition last_captured (arrivals : list (option (list string) * nat)) : option nat :=
  last (map snd (List.filter sectionless arrivals)).

(** The answer sets the session flag [notNow]. *)
Definition defers (selected : option Choice) : bool :=
  match selected with
  | Some Choice_no | Some Choice_readme => true
  | _ => false
  end.

(** The prompt is shown: prompts are neither deferred nor switched off,
    and the recorded migration needs an update. *)
Definition prompted {World : Type} (migration_2_x : World -> string)
    (inspect_configuration : World -> string -> Configuration)
    (resource : string) (notNow : bool) (w : World) : bool :=
  negb notNow && bool_decide (migration_2_x w = "on")
  && needsUpdate (record (Migration_new (inspect_configuration w resource)) []).1
       (record (Migration_new (inspect_configuration w resource)) []).2.

(* ===================================================================== *)
(** ** Commands and status bar ([enable], [disable], [updateStatus]) *)
(* ===================================================================== *)

(** [pickFolder]: a single folder is returned without asking; otherwise
    the quick pick is shown, and [selected] is the index of the item the
    user picked among the items shown, or [None] when the pick was
    dismissed. *)
Definition pickFolder (folders : list VWorkspaceFolder) (selected : option nat)
    : option VWorkspaceFolder :=
  match folders with
  | [folder] => Some folder
  | _ =>
      match selected with
      | Some i => folders !! i
      | None => None
      end
  end.

(** What the [enable] and [disable] commands do. *)
Inductive CommandOutcome : Type :=
  | CO_warning (message : string)
  | CO_error (message : string)
  | CO_information (message : string)
  | CO_update (folder : VWorkspaceFolder) (key : string) (value : bool)
  | CO_nothing.

(** [Workspace.getConfiguration('patched', folder.uri).get('enable', true)] *)
Definition folder_enabled (w : Workspace) (folder : VWorkspaceFolder) : bool :=
  config_get (cfg_enable (ws_getConfiguration w (folder_uri folder))) true.

(** [enable] *)
Definition enable (w : Workspace) (workspaceFolders : option (list VWorkspaceFolder))
    (selected : option nat) : CommandOutcome :=
  match workspaceFolders with
  | None =>
      CO_warning "Patched can only be enabled if VS Code is opened on a workspace folder."
  | Some folders =>
      let disabledFolders := filter (fun folder => folder_enabled w folder = false) folders in
      if bool_decide (length disabledFolders = 0) then
        if bool_decide (length folders = 1)
        then CO_information "Patched is already enabled in the workspace."
        else CO_information "Patched is already enabled on all workspace folders."
      else
        match pickFolder disabledFolders selected with
        | None => CO_nothing
        | Some folder => CO_update folder "enable" true
        end
  end.

(** [disable] *)
Definition disable (w : Workspace) (workspaceFolders : option (list VWorkspaceFolder))
    (selected : option nat) : CommandOutcome :=
  match workspaceFolders with
  | None =>
      CO_error "Patched can only be disabled if VS Code is opened on a workspace folder."
  | Some folders =>
      let enabledFolders := filter (fun folder => folder_enabled w folder = true) folders in
      if bool_decide (length enabledFolders = 0) then
        if bool_decide (length folders = 1)
        then CO_information "Patched is already disabled in the workspace."
        else CO_information "Patched is already disabled on all workspace folders."
      else
        match pickFolder enabledFolders selected with
        | None => CO_nothing
        | Some folder => CO_update folder "enable" false
        end
  end.

(** [enum Status]; the state of a notification is a number. *)
Definition Status_ok : nat := 1.
Definition Status_warn : nat := 2.
Definition Status_error : nat := 3.

(** The status bar item with the two variables of [realActivate] that
    decide whether it is shown. *)
Record StatusBar : Type := mkStatusBar {
  sb_text : string;
  sb_tooltip : option string;
  sb_shown : bool;
  eslintStatus : nat;
  serverRunning : bool
}.

(** [updateStatusBarVisibility]; [alwaysShowStatus] is the value of
    [Workspace.getConfiguration('patched').get('alwaysShowStatus', false)]
    at the time of the call. *)
Definition updateStatusBarVisibility (alwaysShowStatus : bool) (sb : StatusBar) : StatusBar :=
  {| sb_text := sb_text sb; sb_tooltip := sb_tooltip sb;
     sb_shown :=
       (serverRunning sb && negb (bool_decide (eslintStatus sb = Status_ok)))
       || alwaysShowStatus;
     eslintStatus := eslintStatus sb; serverRunning := serverRunning sb |}.

(** [updateStatus] *)
Definition updateStatus (alwaysShowStatus : bool) (status : nat) (sb : StatusBar) : StatusBar :=
  let text :=
    if bool_decide (status = Status_ok) then "Patched"
    else if bool_decide (status = Status_warn) then "$(alert) Patched"
    else if bool_decide (status = Status_error) then "$(issue-opened) Patched"
    else "Patched" in
  updateStatusBarVisibility alwaysShowStatus
    {| sb_text := text; sb_tooltip := sb_tooltip sb; sb_shown := sb_shown sb;
       eslintStatus := status; serverRunning := serverRunning sb |}.

(** The events that reach the status bar once the client is created. *)
Inductive StatusEvent : Type :=
  | SE_didChangeState (running : bool)
  | SE_status (state : nat)
  | SE_noConfig.

(** The handlers of [client.onDidChangeState], of [StatusNotification] and
    of [NoConfigRequest], as far as the status bar goes. *)
Definition status_step (sb : StatusBar) (ev : bool * StatusEvent) : StatusBar :=
  let '(alwaysShowStatus, ev) := ev in
  match ev with
  | SE_didChangeState running =>
      updateStatusBarVisibility alwaysShowStatus
        {| sb_text := sb_text sb;
           sb_tooltip :=
             Some (if running then "Patched server is running."
                   else "Patched server stopped.");
           sb_shown := sb_shown sb; eslintStatus := eslintStatus sb;
           serverRunning := running |}
  | SE_status state => updateStatus alwaysShowStatus state sb
  | SE_noConfig =>
      updateStatusBarVisibility alwaysShowStatus
        {| sb_text := sb_text sb; sb_tooltip := sb_tooltip sb; sb_shown := sb_shown sb;
           eslintStatus := Status_warn; serverRunning := serverRunning sb |}
  end.

(** The status bar as [realActivate] leaves it. *)
Definition realActivate_status (alwaysShowStatus : bool) : StatusBar :=
  updateStatusBarVisibility alwaysShowStatus
    {| sb_text := "Patched"; sb_tooltip := None; sb_shown := false;
       eslintStatus := Status_ok; serverRunning := false |}.

Definition is_status_notification (ev : bool * StatusEvent) : bool :=
  match ev.2 with SE_status _ => true | _ => false end.

(** The entry configures a pattern. *)
Definition is_pattern_entry (entry : WorkingDirectoryEntry) : bool :=
  match classify entry with
  | C_locals _ (Some _) _ => true
  | _ => false
  end.

Module MoreExamples.

Definition folder_a : VWorkspaceFolder :=
  {| folder_name := "a";
     folder_uri := {| scheme := "file"; fsPath := "/a"; uri_toString := "file:///a" |} |}.

Definition folder_b : VWorkspaceFolder :=
  {| folder_name := "b";
     folder_uri := {| scheme := "file"; fsPath := "/b"; uri_toString := "file:///b" |} |}.

(** Patched is switched off in folder [/b] only. *)
Definition b_disabled : Workspace :=
  {| ws_getConfiguration := fun resource =>
       {| cfg_enable := if bool_decide (fsPath resource = "/b") then Some false else None;
          cfg_validate := None; cfg_probe := None; cfg_workingDirectories := None |};
     ws_textDocuments := [] |}.

Definition untitled_document : TextDocument :=
  {| uri := {| scheme := "untitled"; fsPath := "Untitled-1";
               uri_toString := "untitled:Untitled-1" |};
     languageId := "javascript" |}.

End MoreExamples.
(* ===================================================================== *)
(** ** The validation gate: theorems *)
(* ===================================================================== *)

Lemma ValidateItem_is_language (o : ValidateItem) (s : string) :
  language o = Some s -> ValidateItem_is o = true.
Proof.
  intros H. unfold ValidateItem_is. rewrite H. simpl.
  destruct (autoFix o); reflexivity.
Qed.

Lemma validate_loop_true (languageId : string) (items : list ValidateEntry) :
  validate_loop languageId items = true <->
  ∃ e, e ∈ items ∧
    (e = VString languageId ∨
     ∃ autoFix, e = VObject {| language := Some languageId; autoFix := autoFix |}).
Proof.
  induction items as [| item rest IH]; simpl.
  - split; [discriminate |]. intros (e & He & _). by apply elem_of_nil in He.
  - destruct item as [s | o].
    + case_bool_decide as Hs.
      * split; [| done]. intros _. exists (VString s). split; [left |]. subst; by left.
      * rewrite IH. split.
        -- intros (e & He & Hm). exists e. split; [by right | done].
        -- intros (e & He & Hm). apply elem_of_cons in He as [-> | He].
           ++ destruct Hm as [Hm | (af & Hm)]; [congruence | discriminate].
           ++ exists e; done.
    + destruct (ValidateItem_is o && bool_decide (language o = Some languageId)) eqn:Hc.
      * split; [| done]. intros _. exists (VObject o). split; [left |].
        apply andb_true_iff in Hc as [_ Hl]. apply bool_decide_eq_true in Hl.
        right. exists (autoFix o). destruct o as [l a]; simpl in *. by subst.
      * rewrite IH. split.
        -- intros (e & He & Hm). exists e. split; [by right | done].
        -- intros (e & He & Hm). apply elem_of_cons in He as [-> | He].
           ++ exfalso. destruct Hm as [Hm | (af & Hm)]; [discriminate |].
              injection Hm as ->. simpl in Hc.
              rewrite bool_decide_eq_true_2 in Hc by done.
              destruct af; discriminate.
           ++ exists e; done.
Qed.

Lemma probe_loop_true (languageId : string) (items : list string) :
  probe_loop languageId items = true <-> languageId ∈ items.
Proof.
  induction items as [| item rest IH]; simpl.
  - split; [discriminate |]. intros H. by apply elem_of_nil in H.
  - case_bool_decide as Hs.
    + split; [| done]. intros _. subst. by left.
    + rewrite IH. split; [by right |].
      intros H. apply elem_of_cons in H as [-> | H]; [done | done].
Qed.

Lemma validate_match_true (languageId : string) (config : PatchedConfig) :
  match cfg_validate config with
  | Some items => validate_loop languageId items
  | None => false
  end = true <-> in_validate_list languageId config.
Proof.
  unfold in_validate_list. destruct (cfg_validate config) as [items |].
  - rewrite validate_loop_true. split.
    + intros (e & He & Hm). by exists items, e.
    + intros (items' & e & [= <-] & He & Hm). by exists e.
  - split; [discriminate |]. intros (items' & e & H & _). discriminate.
Qed.

Lemma probe_match_true (languageId : string) (config : PatchedConfig) :
  match cfg_probe config with
  | Some items => probe_loop languageId items
  | None => false
  end = true <-> in_probe_list languageId config.
Proof.
  unfold in_probe_list. destruct (cfg_probe config) as [items |].
  - rewrite probe_loop_true. split.
    + intros H. by exists items.
    + by intros (items' & [= <-] & H).
  - split; [discriminate |]. intros (items' & H & _). discriminate.
Qed.

Lemma enable_off (config : PatchedConfig) :
  negb (config_get (cfg_enable config) true) = true <-> cfg_enable config = Some false.
Proof.
  destruct (cfg_enable config) as [[|] |]; simpl; split; congruence.
Qed.

(** The cascade of [gate_spec] has one outcome for each input. *)
Lemma gate_spec_functional getConfiguration probeFailed document (v1 v2 : Validate) :
  gate_spec getConfiguration probeFailed document v1 ->
  gate_spec getConfiguration probeFailed document v2 -> v1 = v2.
Proof.
  intros H1 H2; inversion H1; inversion H2; subst; try reflexivity; contradiction.
Qed.

(** The outcome of [computeValidate] is an outcome of the cascade. *)
Lemma computeValidate_meets_gate_spec
  (getConfiguration : Uri -> PatchedConfig) (probeFailed : gset string)
  (document : TextDocument) :
  gate_spec getConfiguration probeFailed document
    (computeValidate getConfiguration probeFailed document).
Proof.
  unfold computeValidate.
  destruct (negb (config_get (cfg_enable (getConfiguration (uri document))) true)) eqn:He.
  { apply gate_disabled. by apply enable_off. }
  assert (cfg_enable (getConfiguration (uri document)) ≠ Some false) as Hen.
  { intros H. apply enable_off in H. congruence. }
  destruct (match cfg_validate (getConfiguration (uri document)) with
            | Some v => validate_loop (languageId document) v
            | None => false end) eqn:Hv.
  { apply gate_validate; [done |]. by apply validate_match_true. }
  assert (¬ in_validate_list (languageId document) (getConfiguration (uri document))) as Hnv.
  { intros H. apply validate_match_true in H. congruence. }
  case_bool_decide as Hpf.
  { by apply gate_probe_failed. }
  destruct (match cfg_probe (getConfiguration (uri document)) with
            | Some p => probe_loop (languageId document) p
            | None => false end) eqn:Hp.
  { apply gate_probe; [done .. |]. by apply probe_match_true. }
  apply gate_default; [done .. |].
  intros H. apply probe_match_true in H. congruence.
Qed.

(** C5.  For every text document, the outcomes of the ordered cascade are
    exactly the result of [computeValidate]: off when ['enable'] is false
    for the document's resource; otherwise on when the language id is in
    the ['validate'] list as a bare string or a [{language}] record;
    otherwise off when the document's uri is in the probe-failed set;
    otherwise probe when the language id is in the ['probe'] list;
    otherwise off.  The function only reads the configuration and the set:
    the outcome is all it produces. *)
Theorem computeValidate_cascade
  (getConfiguration : Uri -> PatchedConfig) (probeFailed : gset string)
  (document : TextDocument) (outcome : Validate) :
  gate_spec getConfiguration probeFailed document outcome
  <-> computeValidate getConfiguration probeFailed document = outcome.
Proof.
  split.
  - intros H. eapply gate_spec_functional; [apply computeValidate_meets_gate_spec | done].
  - intros <-. apply computeValidate_meets_gate_spec.
Qed.

(** A validate-list match yields on even for a probe-failed uri. *)
Lemma computeValidate_validate_wins getConfiguration (probeFailed : gset string) document :
  cfg_enable (getConfiguration (uri document)) ≠ Some false ->
  in_validate_list (languageId document) (getConfiguration (uri document)) ->
  computeValidate getConfiguration probeFailed document = Validate_on.
Proof.
  intros He Hv.
  eapply gate_spec_functional; [apply computeValidate_meets_gate_spec | by apply gate_validate].
Qed.

Lemma computeValidate_probe_failed getConfiguration (probeFailed : gset string) document :
  ¬ in_validate_list (languageId document) (getConfiguration (uri document)) ->
  uri_toString (uri document) ∈ probeFailed ->
  computeValidate getConfiguration probeFailed document = Validate_off.
Proof.
  intros Hv Hpf.
  destruct (decide (cfg_enable (getConfiguration (uri document)) = Some false)) as [He | He];
    (eapply gate_spec_functional; [apply computeValidate_meets_gate_spec |]).
  - by apply gate_disabled.
  - by apply gate_probe_failed.
Qed.

Lemma computeValidate_fresh_probe getConfiguration document :
  cfg_enable (getConfiguration (uri document)) ≠ Some false ->
  ¬ in_validate_list (languageId document) (getConfiguration (uri document)) ->
  in_probe_list (languageId document) (getConfiguration (uri document)) ->
  computeValidate getConfiguration ∅ document = Validate_probe.
Proof.
  intros He Hv Hp.
  eapply gate_spec_functional; [apply computeValidate_meets_gate_spec |].
  apply gate_probe; [done | done | set_solver | done].
Qed.

(** C6.  After a probe-failed request for the uri of [document], the gate
    returns off for that document whenever the validate list does not match
    it (whatever the probe list says).  A configuration-change event and a
    watched-file event both empty the set, so the gate then answers as it
    does on the empty set, and answers probe when the linter is enabled, the
    validate list does not match and the language id is in the probe
    list. *)
Theorem probe_failure_memory (w w' : Workspace) (st : ClientState) (document : TextDocument) :
  ¬ in_validate_list (languageId document) (ws_getConfiguration w (uri document)) ->
  let st1 := onProbeFailed (uri_toString (uri document)) st in
  let after_config := onDidChangeConfiguration w' st1 in
  let after_file := didChangeWatchedFile st1 in
  computeValidate (ws_getConfiguration w) (probeFailed st1) document = Validate_off
  ∧ probeFailed after_config = ∅
  ∧ probeFailed after_file = ∅
  ∧ computeValidate (ws_getConfiguration w') (probeFailed after_config) document
    = computeValidate (ws_getConfiguration w') ∅ document
  ∧ computeValidate (ws_getConfiguration w') (probeFailed after_file) document
    = computeValidate (ws_getConfiguration w') ∅ document
  ∧ (cfg_enable (ws_getConfiguration w' (uri document)) ≠ Some false ->
     ¬ in_validate_list (languageId document) (ws_getConfiguration w' (uri document)) ->
     in_probe_list (languageId document) (ws_getConfiguration w' (uri document)) ->
     computeValidate (ws_getConfiguration w') (probeFailed after_config) document = Validate_probe
     ∧ computeValidate (ws_getConfiguration w') (probeFailed after_file) document = Validate_probe).
Proof.
  intros Hv st1 after_config after_file.
  split.
  { apply computeValidate_probe_failed; [done |]. simpl. set_solver. }
  repeat split; try reflexivity;
    by apply computeValidate_fresh_probe.
Qed.

Lemma probe_failure_memory_witness :
  let w := Examples.probing_workspace in
  let document := Examples.javascript_document in
  let st1 := onProbeFailed "file:///a/b/c.js" Examples.no_state in
  computeValidate (ws_getConfiguration w) (probeFailed st1) document = Validate_off
  ∧ computeValidate (ws_getConfiguration w)
      (probeFailed (onDidChangeConfiguration w st1)) document = Validate_probe
  ∧ computeValidate (ws_getConfiguration w)
      (probeFailed (didChangeWatchedFile st1)) document = Validate_probe.
Proof.
  assert (¬ in_validate_list (languageId Examples.javascript_document)
            (ws_getConfiguration Examples.probing_workspace
               (uri Examples.javascript_document))) as Hnv.
  { intros (items & e & Hitems & He & _). simpl in Hitems.
    injection Hitems as <-. by apply elem_of_nil in He. }
  destruct (probe_failure_memory Examples.probing_workspace Examples.probing_workspace
              Examples.no_state Examples.javascript_document Hnv)
    as (Hoff & _ & _ & _ & _ & Hprobe).
  split; [exact Hoff |].
  apply Hprobe.
  - simpl. discriminate.
  - exact Hnv.
  - exists ["javascript"]. split; [reflexivity | by left].
Defined.

(* ===================================================================== *)
(** ** The migration engine: [record] *)
(* ===================================================================== *)

Lemma MigrationData_needsUpdate_true {T : Type} (d : MigrationData T) :
  MigrationData_needsUpdate d = true <-> some_tier_changed d.
Proof.
  unfold MigrationData_needsUpdate, some_tier_changed. split.
  - intros H. apply orb_true_iff in H as [H | H]; [apply orb_true_iff in H as [H | H] |].
    + by exists Target_Global.
    + by exists Target_Workspace.
    + by exists Target_WorkspaceFolder.
  - intros [[] H]; simpl in H; rewrite H; by rewrite ?orb_true_r.
Qed.

Lemma MigrationData_needsUpdate_false {T : Type} (d : MigrationData T) :
  MigrationData_needsUpdate d = false <-> ∀ t, changed (tier t d) = false.
Proof.
  split.
  - intros H t. destruct (changed (tier t d)) eqn:Hc; [| done].
    assert (MigrationData_needsUpdate d = true) by (apply MigrationData_needsUpdate_true; by exists t).
    congruence.
  - intros H. unfold MigrationData_needsUpdate.
    pose proof (H Target_Global) as H0. pose proof (H Target_Workspace) as H1.
    pose proof (H Target_WorkspaceFolder) as H2. simpl in H0, H1, H2.
    by rewrite H0, H1, H2.
Qed.

Lemma MigrationData_create_unchanged {T : Type} (i : option (InspectData T)) t :
  changed (tier t (MigrationData_create i)) = false.
Proof. destruct i, t; reflexivity. Qed.

Lemma tier_set_tier {T : Type} (t t' : ConfigurationTarget) (e : MigrationElement T) d :
  tier t' (set_tier t e d) = if decide (t = t') then e else tier t' d.
Proof. destruct t, t'; reflexivity. Qed.

(** *** What [record] leaves alone *)

Lemma recordWorkingDirectories_record_id (elem : MigrationElement (list WorkingDirectoryEntry)) :
  recordWorkingDirectories_record elem = elem.
Proof.
  unfold recordWorkingDirectories_record.
  destruct (value elem) as [items |]; [| done].
  induction items as [| item rest IH]; simpl; [done |].
  assert (recordWorkingDirectories_item item elem = elem) as ->; [| done].
  unfold recordWorkingDirectories_item.
  destruct item as [s | o]; [done |].
  destruct (ModeItem_is o || PatternItem_is o); [done |].
  by destruct (DirectoryItem_is o && negb (bool_decide (notCwd o = None))).
Qed.

Lemma recordWorkingDirectories_id (m : Migration) :
  recordWorkingDirectories m = m.
Proof.
  unfold recordWorkingDirectories, set_workingDirectories.
  rewrite !recordWorkingDirectories_record_id.
  by destruct m as [? ? ? ? ? [? ? ?] ?].
Qed.

Lemma record_unfold (m : Migration) (store : list (MigrationData CodeActionsOnSave)) :
  record m store =
  recordValidate (recordAutoFixOnSave m).1 (recordAutoFixOnSave m).2 store.
Proof.
  unfold record. destruct (recordAutoFixOnSave m) as [fixAll m1]. cbn [fst snd].
  destruct (recordValidate fixAll m1 store) as [m2 store2].
  by rewrite recordWorkingDirectories_id.
Qed.

Lemma recordAutoFixOnSave_snd (m : Migration) :
  (recordAutoFixOnSave m).2 =
  set_codeActionOnSave
    {| global := (recordAutoFixOnSave_record (global (autoFixOnSave m)) (global (codeActionOnSave m))).2;
       workspace := (recordAutoFixOnSave_record (workspace (autoFixOnSave m)) (workspace (codeActionOnSave m))).2;
       workspaceFolder := (recordAutoFixOnSave_record (workspaceFolder (autoFixOnSave m)) (workspaceFolder (codeActionOnSave m))).2 |}
    m.
Proof.
  unfold recordAutoFixOnSave.
  destruct (recordAutoFixOnSave_record (global _) _), (recordAutoFixOnSave_record (workspace _) _),
    (recordAutoFixOnSave_record (workspaceFolder _) _); reflexivity.
Qed.

Lemma recordAutoFixOnSave_fst (m : Migration) :
  (recordAutoFixOnSave m).1 =
  ((recordAutoFixOnSave_record (global (autoFixOnSave m)) (global (codeActionOnSave m))).1,
   (recordAutoFixOnSave_record (workspace (autoFixOnSave m)) (workspace (codeActionOnSave m))).1,
   (recordAutoFixOnSave_record (workspaceFolder (autoFixOnSave m)) (workspaceFolder (codeActionOnSave m))).1).
Proof.
  unfold recordAutoFixOnSave.
  destruct (recordAutoFixOnSave_record (global _) _), (recordAutoFixOnSave_record (workspace _) _),
    (recordAutoFixOnSave_record (workspaceFolder _) _); reflexivity.
Qed.

Lemma record_codeActionOnSave (m : Migration) store t :
  tier t (codeActionOnSave (record m store).1) =
  (recordAutoFixOnSave_record (tier t (autoFixOnSave m)) (tier t (codeActionOnSave m))).2.
Proof.
  rewrite record_unfold. unfold recordValidate. simpl.
  rewrite recordAutoFixOnSave_snd. by destruct t.
Qed.

Lemma record_autoFixOnSave (m : Migration) store :
  autoFixOnSave (record m store).1 = autoFixOnSave m.
Proof.
  rewrite record_unfold. unfold recordValidate. simpl.
  by rewrite recordAutoFixOnSave_snd.
Qed.

Lemma record_validate (m : Migration) store :
  validate (record m store).1 = validate m.
Proof.
  rewrite record_unfold. unfold recordValidate. simpl.
  by rewrite recordAutoFixOnSave_snd.
Qed.

Lemma record_workingDirectories (m : Migration) store :
  workingDirectories (record m store).1 = workingDirectories m.
Proof.
  rewrite record_unfold. unfold recordValidate. simpl.
  by rewrite recordAutoFixOnSave_snd.
Qed.


(** C2.  If the code-actions-on-save value of a tier has
    ['source.fixAll.patched'] explicitly [false] before [record], then
    after [record] the flag is still [false], the value of the tier is the
    value it had, and the tier's [changed] flag is the one it had (false on
    a new [Migration]). *)
Theorem explicit_opt_out_wins (m : Migration) (store : list (MigrationData CodeActionsOnSave))
    (t : ConfigurationTarget) :
  linterSpecificFlag (value (tier t (codeActionOnSave m))) = Some false ->
  let m' := (record m store).1 in
  linterSpecificFlag (value (tier t (codeActionOnSave m'))) = Some false
  ∧ value (tier t (codeActionOnSave m')) = value (tier t (codeActionOnSave m))
  ∧ changed (tier t (codeActionOnSave m')) = changed (tier t (codeActionOnSave m)).
Proof.
  intros Hflag m'. subst m'. rewrite record_codeActionOnSave.
  unfold recordAutoFixOnSave_record. unfold linterSpecificFlag in Hflag.
  rewrite bool_decide_eq_true_2 by done. simpl. done.
Qed.

Lemma explicit_opt_out_wins_witness :
  let m := Migration_new Examples.opted_out in
  let m' := (record m []).1 in
  linterSpecificFlag (value (workspace (codeActionOnSave m'))) = Some false
  ∧ value (workspace (codeActionOnSave m')) = value (workspace (codeActionOnSave m))
  ∧ changed (workspace (codeActionOnSave m')) = false.
Proof.
  apply (explicit_opt_out_wins (Migration_new Examples.opted_out) [] Target_Workspace).
  vm_compute. reflexivity.
Defined.

(** *** The result of the auto-fix-on-save step *)

(** What the inner [record] of [recordAutoFixOnSave] returns. *)
Lemma recordAutoFixOnSave_record_result (elem : MigrationElement bool)
    (setting : MigrationElement CodeActionsOnSave) :
  (recordAutoFixOnSave_record elem setting).1 =
  match linterSpecificFlag (value setting) with
  | Some false => false
  | Some true => truthy (genericFixAll (value setting))
  | None => truthy (value elem) || truthy (genericFixAll (value setting))
  end.
Proof.
  unfold recordAutoFixOnSave_record, linterSpecificFlag, genericFixAll.
  destruct (value setting) as [obj |]; cbn [mbind option_bind].
  - destruct (obj !! source_fixAll_patched) as [[|] |] eqn:Hf;
      repeat case_bool_decide; simplify_eq; rewrite ?andb_false_r, ?andb_true_r; try done.
    destruct (value elem) as [[|] |], (obj !! source_fixAll) as [[|] |] eqn:Hg;
      cbn -[source_fixAll source_fixAll_patched]; rewrite ?Hg; try reflexivity;
      by rewrite lookup_insert_eq.
  - repeat case_bool_decide; simplify_map_eq.
    destruct (value elem) as [[|] |]; cbn -[source_fixAll source_fixAll_patched];
      reflexivity.
Qed.

(** The inputs of the three calls of the validate step are the cascade of
    the three results: the workspace result if it is true, else the global
    one; the workspace-folder result if it is true, else the workspace
    input. *)
Lemma cascade_inherits (f0 f1 f2 : bool) :
  cascade (f0, f1, f2) Target_Global = f0
  ∧ cascade (f0, f1, f2) Target_Workspace = (if f1 then f1 else f0)
  ∧ cascade (f0, f1, f2) Target_WorkspaceFolder
    = (if f2 then f2 else cascade (f0, f1, f2) Target_Workspace).
Proof. done. Qed.

Lemma cascade_or (f0 f1 f2 : bool) :
  cascade (f0, f1, f2) Target_Workspace = f1 || f0
  ∧ cascade (f0, f1, f2) Target_WorkspaceFolder = f2 || (f1 || f0).
Proof. by destruct f0, f1, f2. Qed.

(** C3, at the input where the code departs from it.  With
    ['source.fixAll.patched': true] and no generic flag at the global tier,
    [linterSpecificFlag ?? genericFixAll] is [true] before and after
    [record], but the global result of the auto-fix-on-save step is
    [false]; the cascade passes [false] on to all three tiers and the
    validate step leaves the [html] opt-out unmigrated. *)
Theorem fixAll_result_ignores_specific_flag :
  let m := Migration_new Examples.specific_flag_on in
  let fixAll := (recordAutoFixOnSave m).1 in
  flag_or_generic (value (global (codeActionOnSave m))) = true
  ∧ flag_or_generic (value (global (codeActionOnSave (record m []).1))) = true
  ∧ fixAll = (false, false, false)
  ∧ (∀ t, cascade fixAll t = false)
  ∧ (record m []).2 = []
  ∧ needsUpdate (record m []).1 (record m []).2 = false.
Proof.
  vm_compute. repeat split; try reflexivity. by intros [].
Qed.

(** *** [needsUpdate] and the per-language data *)

Lemma needsUpdate_languages_true (l : list (string * nat))
    (store : list (MigrationData CodeActionsOnSave)) :
  needsUpdate_languages l store = true <->
  ∃ lang r d, (lang, r) ∈ l ∧ store !! r = Some d ∧ some_tier_changed d.
Proof.
  induction l as [| [lang r] rest IH]; simpl.
  - split; [discriminate |]. intros (? & ? & ? & H & _). by apply elem_of_nil in H.
  - destruct (store !! r) as [d |] eqn:Hr.
    + destruct (MigrationData_needsUpdate d) eqn:Hd.
      * split; [| done]. intros _. exists lang, r, d.
        split; [by left |]. split; [done |]. by apply MigrationData_needsUpdate_true.
      * rewrite IH. split.
        -- intros (lang' & r' & d' & Hin & Hs & Hc). exists lang', r', d'.
           split; [by right | done].
        -- intros (lang' & r' & d' & Hin & Hs & Hc).
           apply elem_of_cons in Hin as [[= -> ->] | Hin].
           ++ rewrite Hr in Hs. injection Hs as <-.
              apply MigrationData_needsUpdate_true in Hc. congruence.
           ++ by exists lang', r', d'.
    + rewrite IH. split.
      * intros (lang' & r' & d' & Hin & Hs & Hc). exists lang', r', d'.
        split; [by right | done].
      * intros (lang' & r' & d' & Hin & Hs & Hc).
        apply elem_of_cons in Hin as [[= -> ->] | Hin]; [congruence |].
        by exists lang', r', d'.
Qed.

(** [needsUpdate] is true exactly when an element of the four families, or
    of a per-language data the map refers to, has [changed = true]. *)
Lemma needsUpdate_tracked (m : Migration) (store : list (MigrationData CodeActionsOnSave)) :
  needsUpdate m store = true <->
  some_tier_changed (autoFixOnSave m) ∨ some_tier_changed (validate m)
  ∨ some_tier_changed (codeActionOnSave m) ∨ some_tier_changed (workingDirectories m)
  ∨ ∃ d, tracked_language m store d ∧ some_tier_changed d.
Proof.
  unfold needsUpdate, tracked_language.
  destruct (MigrationData_needsUpdate (autoFixOnSave m)) eqn:H1.
  { apply MigrationData_needsUpdate_true in H1. naive_solver. }
  destruct (MigrationData_needsUpdate (validate m)) eqn:H2.
  { apply MigrationData_needsUpdate_true in H2. naive_solver. }
  destruct (MigrationData_needsUpdate (codeActionOnSave m)) eqn:H3.
  { apply MigrationData_needsUpdate_true in H3. naive_solver. }
  destruct (MigrationData_needsUpdate (workingDirectories m)) eqn:H4.
  { apply MigrationData_needsUpdate_true in H4. naive_solver. }
  simpl. rewrite needsUpdate_languages_true. split.
  - intros (lang & r & d & Hin & Hs & Hc). do 4 right. exists d.
    split; [by exists lang, r | done].
  - intros [H | [H | [H | [H | (d & (lang & r & Hin & Hs) & Hc)]]]];
      try (apply MigrationData_needsUpdate_true in H; congruence).
    by exists lang, r, d.
Qed.

(** The update of the validate step on the element it was handed. *)
Lemma demote_language_flag (setting : MigrationElement CodeActionsOnSave) :
  linterSpecificFlag (value (demote_language setting)) = Some false.
Proof.
  unfold demote_language, linterSpecificFlag.
  case_bool_decide as H; simpl.
  - by rewrite H.
  - by rewrite lookup_insert_eq.
Qed.

Lemma demote_language_changed (setting : MigrationElement CodeActionsOnSave) :
  changed (demote_language setting) =
  if bool_decide (linterSpecificFlag (value setting) = Some false)
  then changed setting else true.
Proof.
  unfold demote_language, linterSpecificFlag.
  destruct (value setting) as [obj |]; simpl.
  - destruct (bool_decide (obj !! source_fixAll_patched = Some false)); done.
  - rewrite lookup_empty. by rewrite !bool_decide_eq_false_2.
Qed.

(** A validate entry that is a bare string, names no language, does not
    set [autoFix] to [false], or is met while fix-all is off for the tier
    changes nothing. *)
Lemma recordValidate_item_skip workspaceConfig t (fixAll : bool) (item : ValidateEntry)
    (st : list (string * nat) * list (MigrationData CodeActionsOnSave)) :
  ¬ (fixAll = true ∧
     ∃ lang, item = VObject {| language := Some lang; autoFix := Some false |}) ->
  recordValidate_item workspaceConfig t fixAll item st = st.
Proof.
  intros Hn. unfold recordValidate_item.
  destruct item as [s | [[lang |] af]]; simpl; try done.
  destruct fixAll; simpl; [| done].
  case_bool_decide as Haf; [| done].
  exfalso. apply Hn. split; [done |]. exists lang. by subst.
Qed.

(** A matching entry demotes the element of its tier in the object
    [getCodeActionsOnSave] returns. *)
Lemma recordValidate_item_demotes workspaceConfig t (lang : string)
    (lss : list (string * nat)) (store : list (MigrationData CodeActionsOnSave)) :
  let got := getCodeActionsOnSave workspaceConfig lang lss store in
  ∀ d0, got.2 !! got.1.1 = Some d0 ->
  recordValidate_item workspaceConfig t true
    (VObject {| language := Some lang; autoFix := Some false |}) (lss, store)
  = (got.1.2, <[ got.1.1 := set_tier t (demote_language (tier t d0)) d0 ]> got.2).
Proof.
  intros got d0 Hd0. unfold recordValidate_item. simpl.
  subst got. destruct (getCodeActionsOnSave workspaceConfig lang lss store) as [[r lss'] store'].
  simpl in *. unfold store_modify. by rewrite Hd0.
Qed.

(** With an inspected section, the data of a language that is not yet in
    the map is created and entered in the map. *)
Lemma getCodeActionsOnSave_caches workspaceConfig (lang : string)
    (lss : list (string * nat)) (store : list (MigrationData CodeActionsOnSave)) :
  map_get lang lss = None ->
  is_Some (workspaceConfig ("[" +:+ lang +:+ "]")) ->
  let got := getCodeActionsOnSave workspaceConfig lang lss store in
  got.1.2 = lss ++ [(lang, got.1.1)] ∧ is_Some (got.2 !! got.1.1).
Proof.
  intros Hget [v Hv]. unfold getCodeActionsOnSave. rewrite Hget, Hv. simpl.
  split; [done |]. rewrite lookup_app_r by done. rewrite Nat.sub_diag. by eexists.
Qed.

(** With a section whose [inspect] is [undefined], the data is created
    but the map stays as it was. *)
Lemma getCodeActionsOnSave_does_not_cache workspaceConfig (lang : string)
    (lss : list (string * nat)) (store : list (MigrationData CodeActionsOnSave)) :
  map_get lang lss = None ->
  workspaceConfig ("[" +:+ lang +:+ "]") = None ->
  let got := getCodeActionsOnSave workspaceConfig lang lss store in
  got.1.2 = lss ∧ got.2 = store ++ [MigrationData_create None] ∧ got.1.1 = length store.
Proof.
  intros Hget Hv. unfold getCodeActionsOnSave. by rewrite Hget, Hv.
Qed.

(** C1, at the input where the code departs from it.  When [inspect] of
    the ['[html]'] section is [undefined], [record] sets
    ['source.fixAll.patched'] to [false] and [changed] to [true] on a
    per-language element, but the data was never entered in
    [languageSpecificSettings], and [needsUpdate] answers [false]. *)
Theorem needsUpdate_misses_uncached_language :
  let m := (record (Migration_new Examples.uninspectable_language) []).1 in
  let store := (record (Migration_new Examples.uninspectable_language) []).2 in
  needsUpdate m store = false
  ∧ languageSpecificSettings m = []
  ∧ ∃ r d, store !! r = Some d
      ∧ changed (global d) = true
      ∧ linterSpecificFlag (value (global d)) = Some false.
Proof.
  split; [by vm_compute |]. split; [by vm_compute |].
  exists 0.
  exists {| global := {| changed := true; value := Some {[ source_fixAll_patched := false ]} |};
            workspace := {| changed := false; value := None |};
            workspaceFolder := {| changed := false; value := None |} |}.
  split; [by vm_compute |]. split; [done |]. by vm_compute.
Qed.

(** The same settings with an inspected section: the element is reached
    and [needsUpdate] answers [true]. *)
Lemma needsUpdate_sees_cached_language :
  let m := (record (Migration_new Examples.inspectable_language) []).1 in
  let store := (record (Migration_new Examples.inspectable_language) []).2 in
  needsUpdate m store = true ∧ languageSpecificSettings m = [("html", 0)]
  ∧ length store = 1.
Proof. by vm_compute. Qed.

(** C4, at the input where the code departs from it.  When [inspect] of
    the ['[html]'] section is [undefined], the two [html] entries of the
    global validate list each obtain a new per-language data: nothing is
    cached in [languageSpecificSettings], and the store ends with two
    objects for the one language, both demoted and marked changed. *)
Theorem validate_demotion_not_cached :
  let m := (record (Migration_new Examples.uninspectable_language) []).1 in
  let store := (record (Migration_new Examples.uninspectable_language) []).2 in
  cascade (recordAutoFixOnSave (Migration_new Examples.uninspectable_language)).1 Target_Global = true
  ∧ map_get "html" (languageSpecificSettings m) = None
  ∧ length store = 2
  ∧ ∀ r d, store !! r = Some d ->
      changed (global d) = true ∧ linterSpecificFlag (value (global d)) = Some false.
Proof.
  split; [by vm_compute |]. split; [by vm_compute |]. split; [by vm_compute |].
  intros [| [| r]] d; vm_compute; intros [= <-]; done.
Qed.

(** With an inspected section the two entries share one cached data. *)
Lemma validate_demotion_cached :
  let m := (record (Migration_new Examples.inspectable_language) []).1 in
  let store := (record (Migration_new Examples.inspectable_language) []).2 in
  map_get "html" (languageSpecificSettings m) = Some 0
  ∧ length store = 1
  ∧ ∃ d, store !! 0 = Some d ∧ changed (global d) = true
      ∧ linterSpecificFlag (value (global d)) = Some false.
Proof.
  split; [by vm_compute |]. split; [by vm_compute |].
  eexists. split; [by vm_compute |]. by vm_compute.
Qed.

(* ===================================================================== *)
(** ** The migration engine: [update] *)
(* ===================================================================== *)

Section UpdateFacts.

Context {World : Type}.
Variable config_update : Write -> World -> option World.

Abbreviation run_writes := (run_writes config_update).

Lemma run_writes_cons (w : Write) (ws : list Write) (r : Run World) :
  run_writes (w :: ws) r = run_writes ws (await_update config_update w r).
Proof. reflexivity. Qed.

Lemma await_update_raised (w : Write) (r : Run World) :
  raised r = true -> await_update config_update w r = r.
Proof. intros H. unfold await_update. by rewrite H. Qed.

Lemma run_writes_raised (ws : list Write) (r : Run World) :
  raised r = true -> run_writes ws r = r.
Proof.
  intros H. induction ws as [| w ws IH]; [done |].
  by rewrite run_writes_cons, await_update_raised.
Qed.

Lemma run_writes_app (ws1 ws2 : list Write) (r : Run World) :
  run_writes (ws1 ++ ws2) r = run_writes ws2 (run_writes ws1 r).
Proof. apply foldl_app. Qed.

Lemma _update_run {T : Type} config section (wrap : option T -> SettingValue)
    (newValue : MigrationElement T) target (r : Run World) :
  _update config_update config section wrap newValue target r =
  run_writes
    (if changed newValue
     then [ {| w_config := config; w_section := section;
               w_value := wrap (value newValue); w_target := target |} ]
     else []) r.
Proof. unfold _update. by destruct (changed newValue). Qed.

Lemma _updateLanguageSetting_run config section settings
    (newValue : MigrationElement CodeActionsOnSave) target (r : Run World) :
  _updateLanguageSetting config_update config section settings newValue target r =
  run_writes
    (if changed newValue
     then [ {| w_config := config; w_section := section;
               w_value := SV_languageSettings {| editor_codeActionsOnSave := value newValue |};
               w_target := target |} ]
     else []) r.
Proof. unfold _updateLanguageSetting. by destruct (changed newValue). Qed.

Lemma family_writes_unfold {T : Type} config section (wrap : option T -> SettingValue)
    (d : MigrationData T) :
  family_writes config section wrap d =
  (if changed (global d)
   then [ {| w_config := config; w_section := section;
             w_value := wrap (value (global d)); w_target := Target_Global |} ] else [])
  ++ (if changed (workspace d)
      then [ {| w_config := config; w_section := section;
                w_value := wrap (value (workspace d)); w_target := Target_Workspace |} ] else [])
  ++ (if changed (workspaceFolder d)
      then [ {| w_config := config; w_section := section;
                w_value := wrap (value (workspaceFolder d));
                w_target := Target_WorkspaceFolder |} ] else []).
Proof. unfold family_writes. simpl. by rewrite app_nil_r. Qed.

Lemma family_writes_nil {T : Type} config section (wrap : option T -> SettingValue)
    (d : MigrationData T) :
  MigrationData_needsUpdate d = false -> family_writes config section wrap d = [].
Proof.
  intros H. rewrite family_writes_unfold.
  unfold MigrationData_needsUpdate in H.
  by destruct (changed (global d)), (changed (workspace d)), (changed (workspaceFolder d)).
Qed.

Lemma family_writes_key {T : Type} config section (wrap : option T -> SettingValue)
    (d : MigrationData T) (w : Write) :
  w ∈ family_writes config section wrap d -> w_config w = config ∧ w_section w = section.
Proof.
  rewrite family_writes_unfold. rewrite !elem_of_app.
  destruct (changed (global d)), (changed (workspace d)), (changed (workspaceFolder d));
    rewrite ?list_elem_of_singleton, ?elem_of_nil; intuition; by subst.
Qed.

Lemma update_family_run {T : Type} config section (wrap : option T -> SettingValue)
    (d : MigrationData T) (r : Run World) :
  _update config_update config section wrap (workspaceFolder d) Target_WorkspaceFolder
    (_update config_update config section wrap (workspace d) Target_Workspace
       (_update config_update config section wrap (global d) Target_Global r))
  = run_writes (family_writes config section wrap d) r.
Proof.
  rewrite !_update_run, family_writes_unfold. by rewrite !run_writes_app.
Qed.

Lemma update_language_run workspaceConfig (store : list (MigrationData CodeActionsOnSave))
    (entry : string * nat) (r : Run World) :
  update_language config_update workspaceConfig store entry r =
  run_writes (language_writes store entry) r.
Proof.
  unfold update_language, language_writes.
  destruct (raised r) eqn:Hr; [by rewrite run_writes_raised |].
  destruct entry as [lang ref]. simpl.
  destruct (store !! ref) as [d |]; [| done].
  destruct (MigrationData_needsUpdate d) eqn:Hd.
  - rewrite !_updateLanguageSetting_run, family_writes_unfold.
    by rewrite !run_writes_app.
  - by rewrite family_writes_nil.
Qed.

Lemma update_languages_run workspaceConfig (store : list (MigrationData CodeActionsOnSave))
    (l : list (string * nat)) (r : Run World) :
  foldl (fun r entry => update_language config_update workspaceConfig store entry r) r l =
  run_writes (flat_map (language_writes store) l) r.
Proof.
  revert r. induction l as [| entry l IH]; intros r; simpl; [done |].
  by rewrite IH, update_language_run, run_writes_app.
Qed.

(** The [try] block awaits the planned writes in order, up to the first
    rejected one. *)
Lemma update_try_run (m : Migration) (store : list (MigrationData CodeActionsOnSave))
    (r : Run World) :
  update_try config_update m store r = run_writes (planned_writes m store) r.
Proof.
  unfold update_try, planned_writes.
  rewrite update_languages_run, !update_family_run.
  by rewrite !run_writes_app.
Qed.

(** How far a sequence of writes gets. *)
Lemma run_writes_trace (ws : list Write) (r : Run World) :
  raised r = false ->
  ∃ attempted rest, ws = attempted ++ rest
    ∧ trace (run_writes ws r) = trace r ++ map Ev_update attempted
    ∧ (raised (run_writes ws r) = false -> rest = [])
    ∧ (raised (run_writes ws r) = true ->
       ∃ before w, attempted = before ++ [w]
         ∧ raised (run_writes before r) = false
         ∧ config_update w (world (run_writes before r)) = None).
Proof.
  revert r. induction ws as [| w ws IH]; intros r Hr.
  - exists [], []. simpl. rewrite app_nil_r. repeat split; try done. congruence.
  - rewrite run_writes_cons.
    assert (await_update config_update w r =
            match config_update w (world r) with
            | Some world' =>
                {| world := world'; trace := trace r ++ [Ev_update w]; raised := false |}
            | None =>
                {| world := world r; trace := trace r ++ [Ev_update w]; raised := true |}
            end) as Hstep.
    { unfold await_update. by rewrite Hr. }
    destruct (config_update w (world r)) as [world' |] eqn:Hw.
    + destruct (IH (await_update config_update w r))
        as (attempted & rest & -> & Htr & Hok & Hko); [by rewrite Hstep |].
      exists (w :: attempted), rest. split; [done |]. split.
      { rewrite Htr, Hstep. simpl. by rewrite <- app_assoc. }
      split; [done |]. intros Hraised.
      destruct (Hko Hraised) as (before & w0 & -> & Hnr & Hnone).
      exists (w :: before), w0. split; [done |]. by rewrite run_writes_cons.
    + rewrite run_writes_raised by (by rewrite Hstep). rewrite Hstep. simpl.
      exists [w], ws. split; [done |]. split; [done |].
      split; [discriminate |]. intros _.
      exists [], w. by simpl.
Qed.


Lemma update_finally_spec (m : Migration) (r : Run World) :
  let res := update_finally m r in
  world res.2 = world r ∧ raised res.2 = raised r
  ∧ didChangeConfiguration res.1 = None
  ∧ trace res.2 =
      trace r ++ match didChangeConfiguration m with
                 | Some func => [Ev_didChangeConfiguration func]
                 | None => []
                 end.
Proof.
  unfold update_finally.
  destruct (didChangeConfiguration m) eqn:Hk; simpl; [done |].
  by rewrite app_nil_r.
Qed.

(** The events of one [update]: the writes that were attempted, then
    the call of the continuation if one is registered. *)
Lemma update_trace (m : Migration) (store : list (MigrationData CodeActionsOnSave))
    (w : World) :
  let res := update config_update m store w in
  ∃ attempted rest, planned_writes m store = attempted ++ rest
    ∧ trace res.2 =
        map Ev_update attempted ++ match didChangeConfiguration m with
                              | Some func => [Ev_didChangeConfiguration func]
                              | None => []
                              end
    ∧ (raised res.2 = false -> rest = [])
    ∧ (raised res.2 = true ->
       ∃ before wr, attempted = before ++ [wr]
         ∧ raised (run_writes before (start w)) = false
         ∧ config_update wr (world (run_writes before (start w))) = None)
    ∧ didChangeConfiguration res.1 = None.
Proof.
  intros res. subst res. unfold update.
  destruct (update_finally_spec m (update_try config_update m store
    {| world := w; trace := []; raised := false |})) as (_ & Hraised & Hnone & Htrace).
  rewrite Hraised, Htrace, Hnone, update_try_run.
  destruct (run_writes_trace (planned_writes m store)
              {| world := w; trace := []; raised := false |})
    as (attempted & rest & Hsplit & Htr & Hok & Hko); [done |].
  exists attempted, rest. split; [done |]. split; [by rewrite Htr |]. done.
Qed.



(** C10.  On a [Migration] built from any configuration snapshot,
    [record] leaves every tier of the auto-fix-on-save, validate and
    working-directories data with [changed = false] and with the value it
    had, and every write [update] then attempts, with or without a
    registered continuation, goes to ['editor.codeActionsOnSave'] or to a
    per-language ['[languageId]'] section. *)
Theorem legacy_settings_left_in_place (c : Configuration)
    (store0 : list (MigrationData CodeActionsOnSave)) (w : World) (k : option nat) :
  let m := (record (Migration_new c) store0).1 in
  let store := (record (Migration_new c) store0).2 in
  (∀ t, changed (tier t (autoFixOnSave m)) = false
        ∧ changed (tier t (validate m)) = false
        ∧ changed (tier t (workingDirectories m)) = false)
  ∧ autoFixOnSave m = autoFixOnSave (Migration_new c)
  ∧ validate m = validate (Migration_new c)
  ∧ workingDirectories m = workingDirectories (Migration_new c)
  ∧ ∀ wr,
      Ev_update wr ∈ trace (update config_update (set_didChangeConfiguration k m) store w).2 ->
      migrated_key wr.
Proof.
  intros m store.
  assert (autoFixOnSave m = autoFixOnSave (Migration_new c)) as Ha
    by apply record_autoFixOnSave.
  assert (validate m = validate (Migration_new c)) as Hv by apply record_validate.
  assert (workingDirectories m = workingDirectories (Migration_new c)) as Hw
    by apply record_workingDirectories.
  assert (∀ t, changed (tier t (autoFixOnSave m)) = false
               ∧ changed (tier t (validate m)) = false
               ∧ changed (tier t (workingDirectories m)) = false) as Hch.
  { intros t. rewrite Ha, Hv, Hw. simpl. by rewrite !MigrationData_create_unchanged. }
  split; [done |]. split; [done |]. split; [done |]. split; [done |].
  intros wr Hin.
  destruct (update_trace (set_didChangeConfiguration k m) store w)
    as (attempted & rest & Hsplit & Htr & _).
  rewrite Htr in Hin. apply elem_of_app in Hin as [Hin | Hin].
  2: { destruct (didChangeConfiguration (set_didChangeConfiguration k m));
       [apply list_elem_of_singleton in Hin; discriminate | by apply elem_of_nil in Hin]. }
  apply list_elem_of_fmap in Hin as (wr' & [= <-] & Hin).
  assert (wr ∈ planned_writes m store) as Hpl.
  { change (planned_writes m store) with (planned_writes (set_didChangeConfiguration k m) store).
    rewrite Hsplit. apply elem_of_app. by left. }
  unfold planned_writes in Hpl.
  rewrite (family_writes_nil eslintConfig "autoFixOnSave" SV_boolean (autoFixOnSave m)) in Hpl
    by (apply MigrationData_needsUpdate_false; intros t; apply Hch).
  rewrite (family_writes_nil eslintConfig "validate" SV_validate (validate m)) in Hpl
    by (apply MigrationData_needsUpdate_false; intros t; apply Hch).
  rewrite (family_writes_nil eslintConfig "workingDirectories" SV_workingDirectories
             (workingDirectories m)) in Hpl
    by (apply MigrationData_needsUpdate_false; intros t; apply Hch).
  simpl in Hpl. apply elem_of_app in Hpl as [Hpl | Hpl].
  - left. by apply family_writes_key in Hpl.
  - right. apply list_elem_of_In, in_flat_map in Hpl as ([lang ref] & _ & Hpl).
    apply list_elem_of_In in Hpl. unfold language_writes in Hpl. simpl in Hpl.
    destruct (store !! ref) as [d |]; [| by apply elem_of_nil in Hpl].
    apply family_writes_key in Hpl as [Hc Hs]. split; [done |]. by exists lang.
Qed.

End UpdateFacts.

(* ===================================================================== *)
(** ** Working-directory resolution *)
(* ===================================================================== *)

Section WorkingDirectoryFacts.

Context {RegExp : Type}.
Variables (toOSPath toPosixPath : string -> string).
Variable convert2RegExp : string -> option RegExp.
Variable regExp_exec : RegExp -> string -> option string.
Variable path_sep : string.
Variables (path_isAbsolute : string -> bool) (path_join : string -> string -> string).
Variables (path_posix_isAbsolute : string -> bool)
          (path_posix_join : string -> string -> string).
Variable workspaceFolder : option VWorkspaceFolder.
Variable document : TextDocument.

Abbreviation step :=
  (resolve_entry toOSPath toPosixPath convert2RegExp regExp_exec path_sep
     path_isAbsolute path_join path_posix_isAbsolute path_posix_join
     (workspaceFolderPath_of workspaceFolder) document).
Abbreviation matched :=
  (entry_match toOSPath toPosixPath convert2RegExp regExp_exec path_sep
     path_isAbsolute path_join path_posix_isAbsolute path_posix_join
     (workspaceFolderPath_of workspaceFolder) document).
Abbreviation resolve :=
  (resolve_entries toOSPath toPosixPath convert2RegExp regExp_exec path_sep
     path_isAbsolute path_join path_posix_isAbsolute path_posix_join
     workspaceFolder document).

Lemma step_mode (wd : option WorkingDirectory) (e : WorkingDirectoryEntry) :
  is_mode_entry e = true -> not_directory (step wd e) ∧ is_Some (step wd e).
Proof.
  unfold is_mode_entry, resolve_entry.
  destruct (classify e); [discriminate |]. intros _. simpl. split; [done | by eexists].
Qed.

Lemma step_mode_any (wd wd' : option WorkingDirectory) (e : WorkingDirectoryEntry) :
  is_mode_entry e = true -> step wd e = step wd' e.
Proof.
  unfold is_mode_entry, resolve_entry. by destruct (classify e).
Qed.

Lemma step_match (wd : option WorkingDirectory) (e : WorkingDirectoryEntry)
    (v : string) (c : bool) :
  matched e = Some (v, c) ->
  step wd e =
  match wd with
  | None | Some (WD_ModeItem _) => Some (WD_DirectoryItem v c)
  | Some (WD_DirectoryItem current _) =>
      if bool_decide (String.length current < String.length v)
      then Some (WD_DirectoryItem v c) else wd
  end.
Proof.
  unfold entry_match, resolve_entry.
  destruct (classify e) as [d p n | o]; [| discriminate].
  destruct (itemValue _ _ _ _ _ _ _ _ _ _ _ d p) as [iv |]; [| discriminate].
  by intros [= -> ->].
Qed.

Lemma step_no_match (wd : option WorkingDirectory) (e : WorkingDirectoryEntry) :
  is_mode_entry e = false -> matched e = None -> step wd e = wd.
Proof.
  unfold is_mode_entry, entry_match, resolve_entry.
  destruct (classify e) as [d p n | o]; [| discriminate].
  by destruct (itemValue _ _ _ _ _ _ _ _ _ _ _ d p).
Qed.

(** An entry whose match is as long as the current directory does not
    replace it. *)
Lemma step_tie_keeps_current (current v : string) (c0 c : bool) (e : WorkingDirectoryEntry) :
  matched e = Some (v, c) ->
  String.length v = String.length current ->
  step (Some (WD_DirectoryItem current c0)) e = Some (WD_DirectoryItem current c0).
Proof.
  intros Hm Hlen. rewrite (step_match _ _ Hm).
  rewrite bool_decide_eq_false_2; [done | lia].
Qed.

(** The scan of a list without mode entries, started from no directory:
    nothing matches and the start is the result, or the result is the
    first entry whose match has the greatest length. *)
Lemma scan_selects (wd0 : option WorkingDirectory) (l : list WorkingDirectoryEntry) :
  not_directory wd0 ->
  (∀ e, e ∈ l -> is_mode_entry e = false) ->
  (foldl step wd0 l = wd0 ∧ ∀ e, e ∈ l -> matched e = None)
  ∨ ∃ l1 e l2 v c,
      l = l1 ++ e :: l2
      ∧ matched e = Some (v, c)
      ∧ foldl step wd0 l = Some (WD_DirectoryItem v c)
      ∧ (∀ e' v' c', e' ∈ l1 -> matched e' = Some (v', c') ->
           String.length v' < String.length v)
      ∧ (∀ e' v' c', e' ∈ l2 -> matched e' = Some (v', c') ->
           String.length v' <= String.length v).
Proof.
  intros Hwd0. induction l as [| x l IH] using rev_ind; intros Hmode.
  { left. split; [done |]. intros e He. by apply elem_of_nil in He. }
  assert (is_mode_entry x = false) as Hx.
  { apply Hmode, elem_of_app. right. by left. }
  rewrite foldl_app. simpl.
  destruct IH as [[Hres Hnone] | (l1 & e & l2 & v & c & -> & He & Hres & Hlt & Hle)].
  { intros e He. apply Hmode, elem_of_app. by left. }
  - rewrite Hres. destruct (matched x) as [[vx cx] |] eqn:Hmx.
    + right. exists l, x, [], vx, cx. split; [done |]. split; [done |]. split.
      { rewrite (step_match _ _ Hmx). by destruct wd0 as [[] |]. }
      split.
      * intros e' v' c' He' Hm'. rewrite (Hnone e' He') in Hm'. discriminate.
      * intros e' v' c' He'. by apply elem_of_nil in He'.
    + left. split; [by apply step_no_match |].
      intros e He. apply elem_of_app in He as [He | He]; [by apply Hnone |].
      apply list_elem_of_singleton in He. by subst.
  - rewrite Hres. right. destruct (matched x) as [[vx cx] |] eqn:Hmx.
    + rewrite (step_match _ _ Hmx).
      case_bool_decide as Hlen.
      * exists (l1 ++ e :: l2), x, [], vx, cx.
        split; [done |]. split; [done |]. split; [done |]. split.
        -- intros e' v' c' He' Hm'.
           apply elem_of_app in He' as [He' | He'].
           ++ specialize (Hlt _ _ _ He' Hm'). lia.
           ++ apply elem_of_cons in He' as [-> | He'].
              ** rewrite He in Hm'. injection Hm' as <- <-. lia.
              ** specialize (Hle _ _ _ He' Hm'). lia.
        -- intros e' v' c' He'. by apply elem_of_nil in He'.
      * exists l1, e, (l2 ++ [x]), v, c.
        split; [by rewrite <- app_assoc |]. split; [done |]. split; [done |].
        split; [done |].
        intros e' v' c' He' Hm'. apply elem_of_app in He' as [He' | He'].
        -- by eapply Hle.
        -- apply list_elem_of_singleton in He'. subst e'.
           rewrite Hmx in Hm'. injection Hm' as <- <-. lia.
    + rewrite step_no_match by done.
      exists l1, e, (l2 ++ [x]), v, c.
      split; [by rewrite <- app_assoc |]. split; [done |]. split; [done |].
      split; [done |].
      intros e' v' c' He' Hm'. apply elem_of_app in He' as [He' | He'].
      -- by eapply Hle.
      -- apply list_elem_of_singleton in He'. subst e'. congruence.
Qed.

(** The scan up to and including a mode entry ends on that entry. *)
Lemma resolve_prefix_not_directory (pre : list WorkingDirectoryEntry) :
  pre = [] ∨ (∃ pre' m, pre = pre' ++ [m] ∧ is_mode_entry m = true) ->
  not_directory (resolve pre).
Proof.
  intros [-> | (pre' & m & -> & Hm)]; [done |].
  unfold resolve_entries. rewrite foldl_app. simpl. by apply step_mode.
Qed.

Lemma resolve_app (pre post : list WorkingDirectoryEntry) :
  resolve (pre ++ post) = foldl step (resolve pre) post.
Proof. unfold resolve_entries. apply foldl_app. Qed.


(** C8 (amended).  Among the configured entries that follow the last
    mode entry, the selected entry is the first one whose match has the
    greatest length: every matching entry before it has a strictly
    shorter match, and a later entry whose match is as long does not
    replace it. *)
Theorem first_match_wins_ties (pre post : list WorkingDirectoryEntry)
    (v : string) (c : bool) :
  (pre = [] ∨ ∃ pre' m, pre = pre' ++ [m] ∧ is_mode_entry m = true) ->
  (∀ e, e ∈ post -> is_mode_entry e = false) ->
  resolve (pre ++ post) = Some (WD_DirectoryItem v c) ->
  ∃ l1 e l2,
    post = l1 ++ e :: l2
    ∧ matched e = Some (v, c)
    ∧ (∀ e' v' c', e' ∈ l1 -> matched e' = Some (v', c') ->
         String.length v' < String.length v)
    ∧ (∀ e' v' c', e' ∈ l2 -> matched e' = Some (v', c') ->
         String.length v' <= String.length v
         ∧ resolve (pre ++ l1 ++ [e] ++ [e']) = Some (WD_DirectoryItem v c)).
Proof.
  intros Hpre Hpost Hres. rewrite resolve_app in Hres.
  pose proof (resolve_prefix_not_directory Hpre) as Hnd.
  destruct (@scan_selects _ post Hnd Hpost)
    as [[Hres' Hnone] | (l1 & e & l2 & v0 & c0 & -> & He & Hres' & Hlt & Hle)].
  - rewrite Hres' in Hres. rewrite Hres in Hnd. done.
  - rewrite Hres' in Hres. injection Hres as <- <-.
    exists l1, e, l2. split; [done |]. split; [done |]. split; [done |].
    intros e' v' c' He' Hm'. split; [by eapply Hle |].
    assert (∀ x, x ∈ l1 ++ [e] -> is_mode_entry x = false) as Hmode1.
    { intros x Hx. apply Hpost. apply elem_of_app in Hx as [Hx | Hx].
      - apply elem_of_app. by left.
      - apply list_elem_of_singleton in Hx. subst x. apply elem_of_app. right. by left. }
    rewrite !app_assoc. rewrite resolve_app. simpl.
    rewrite <- app_assoc. rewrite resolve_app.
    destruct (@scan_selects _ (l1 ++ [e]) Hnd Hmode1)
      as [[_ Hnone] | (k1 & x & k2 & vx & cx & Hsplit & Hx & Hsel & Hltx & Hlex)].
    { rewrite Hnone in He; [discriminate |]. apply elem_of_app. right. by left. }
    rewrite Hsel.
    assert (vx = v0 ∧ cx = c0) as [-> ->].
    { destruct k2 as [| y k2 _] using rev_ind.
      - apply app_inj_tail in Hsplit as [-> ->]. rewrite He in Hx. by injection Hx.
      - rewrite app_comm_cons, app_assoc in Hsplit.
        apply app_inj_tail in Hsplit as [-> ->].
        assert (String.length vx < String.length v0).
        { eapply Hlt; [| done]. apply elem_of_app. right. by left. }
        assert (String.length v0 <= String.length vx).
        { eapply Hlex; [| done]. apply elem_of_app. right. by left. }
        lia. }
    rewrite (step_match _ _ Hm').
    rewrite bool_decide_eq_false_2; [done |].
    specialize (Hle _ _ _ He' Hm'). lia.
Qed.

End WorkingDirectoryFacts.


(** C8, counterexample.  [{directory:"/a",'!cwd':true}] followed by
    [{directory:"/a"}] both match ["/a/"]; the result keeps the ['!cwd']
    of the first entry, not of the last. *)
Lemma last_wins_ties_counterexample :
  ¬ last_wins_ties Posix.resolve Posix.matches.
Proof.
  intros H.
  specialize (H None Examples.javascript_document
                (Examples.dir "/a" (Some true)) (Examples.dir "/a" None)
                "/a/" true "/a/" false).
  vm_compute in H. specialize (H eq_refl eq_refl eq_refl). discriminate.
Qed.


Lemma first_match_wins_ties_witness :
  let first := Examples.dir "/a" (Some true) in
  let second := Examples.dir "/a" None in
  ∃ l1 e l2,
    [first; second] = l1 ++ e :: l2
    ∧ Posix.matches None Examples.javascript_document e = Some ("/a/", true)
    ∧ (∀ e' v' c', e' ∈ l1 ->
         Posix.matches None Examples.javascript_document e' = Some (v', c') ->
         String.length v' < String.length "/a/")
    ∧ (∀ e' v' c', e' ∈ l2 ->
         Posix.matches None Examples.javascript_document e' = Some (v', c') ->
         String.length v' <= String.length "/a/"
         ∧ Posix.resolve None Examples.javascript_document ([] ++ l1 ++ [e] ++ [e'])
           = Some (WD_DirectoryItem "/a/" true)).
Proof.
  intros first second.
  apply (@first_match_wins_ties unit Posix.toOSPath Posix.toPosixPath
           Posix.convert2RegExp Posix.regExp_exec Posix.sep Posix.isAbsolute Posix.join
           Posix.isAbsolute Posix.join None Examples.javascript_document
           [] [first; second] "/a/" true).
  - left. reflexivity.
  - intros e He. apply elem_of_cons in He as [-> | He]; [by vm_compute |].
    apply list_elem_of_singleton in He. subst e. by vm_compute.
  - by vm_compute.
Defined.

(* ===================================================================== *)
(** ** More on [record] *)
(* ===================================================================== *)

Lemma recordAutoFixOnSave_record_other_keys (elem : MigrationElement bool)
    (setting : MigrationElement CodeActionsOnSave) (k : string) :
  k ≠ source_fixAll_patched ->
  value (recordAutoFixOnSave_record elem setting).2 ≫= (.!! k) = value setting ≫= (.!! k).
Proof.
  intros Hk. unfold recordAutoFixOnSave_record.
  case_bool_decide as Hf; [done |].
  destruct (value setting) as [obj |] eqn:Hv; cbn [mbind option_bind].
  - destruct (negb _ && _ && _); cbn [snd value mbind option_bind]; [| done].
    unfold js_assign. destruct (value elem).
    + by rewrite lookup_insert_ne.
    + by rewrite lookup_delete_ne.
  - destruct (negb _ && _ && _); cbn [snd value mbind option_bind].
    + unfold js_assign. destruct (value elem).
      * rewrite lookup_insert_ne by done. by rewrite lookup_empty.
      * rewrite lookup_delete_ne by done. by rewrite lookup_empty.
    + by rewrite lookup_empty.
Qed.

(** X1.  [record] never alters, adds or removes a code action other than
    ['source.fixAll.patched'] in the code-actions-on-save value of a
    tier. *)
Theorem record_keeps_other_code_actions (m : Migration)
    (store : list (MigrationData CodeActionsOnSave)) (t : ConfigurationTarget) (k : string) :
  k ≠ source_fixAll_patched ->
  value (tier t (codeActionOnSave (record m store).1)) ≫= (.!! k)
  = value (tier t (codeActionOnSave m)) ≫= (.!! k).
Proof.
  intros Hk. rewrite record_codeActionOnSave.
  by apply recordAutoFixOnSave_record_other_keys.
Qed.

Lemma record_keeps_other_code_actions_witness :
  let m := Migration_new Examples.uninspectable_language in
  value (global (codeActionOnSave (record m []).1)) ≫= (.!! source_fixAll)
  = Some true.
Proof.
  apply (record_keeps_other_code_actions (Migration_new Examples.uninspectable_language)
           [] Target_Global (k := source_fixAll)).
  by vm_compute.
Defined.

Lemma recordAutoFixOnSave_record_flag (elem : MigrationElement bool)
    (setting : MigrationElement CodeActionsOnSave) :
  let migrate :=
    truthy (value elem) && negb (truthy (genericFixAll (value setting)))
    && bool_decide (linterSpecificFlag (value setting) = None) in
  linterSpecificFlag (value (recordAutoFixOnSave_record elem setting).2)
  = (if migrate then Some true else linterSpecificFlag (value setting))
  ∧ changed (recordAutoFixOnSave_record elem setting).2
    = (changed setting || migrate).
Proof.
  unfold recordAutoFixOnSave_record, linterSpecificFlag, genericFixAll, js_assign.
  destruct setting as [ch [obj |]]; cbn [value changed mbind option_bind].
  - destruct (obj !! source_fixAll_patched) as [[|] |] eqn:Hf;
      destruct (value elem) as [[|] |], (obj !! source_fixAll) as [[|] |] eqn:Hg;
      repeat case_bool_decide; simplify_eq;
      cbn -[source_fixAll source_fixAll_patched];
      rewrite ?Hf, ?orb_true_r, ?orb_false_r; simplify_map_eq; done.
  - destruct (value elem) as [[|] |];
      repeat case_bool_decide; simplify_map_eq;
      cbn -[source_fixAll source_fixAll_patched];
      rewrite ?orb_true_r, ?orb_false_r; simplify_map_eq; done.
Qed.

(** X2.  For every tier, [record] sets ['source.fixAll.patched'] to [true]
    and marks the tier changed exactly when the legacy auto-fix flag of the
    tier is on, the generic ['source.fixAll'] is not on and the
    linter-specific flag is not set; in every other case the flag and the
    [changed] mark of the tier stay as they were. *)
Theorem record_migrates_auto_fix (m : Migration)
    (store : list (MigrationData CodeActionsOnSave)) (t : ConfigurationTarget) :
  let before := tier t (codeActionOnSave m) in
  let after := tier t (codeActionOnSave (record m store).1) in
  let migrate :=
    truthy (value (tier t (autoFixOnSave m)))
    && negb (truthy (genericFixAll (value before)))
    && bool_decide (linterSpecificFlag (value before) = None) in
  linterSpecificFlag (value after)
  = (if migrate then Some true else linterSpecificFlag (value before))
  ∧ changed after = (changed before || migrate).
Proof.
  cbv zeta. rewrite record_codeActionOnSave. apply recordAutoFixOnSave_record_flag.
Qed.

(* ===================================================================== *)
(** ** More on [update] *)
(* ===================================================================== *)

Lemma writes_of_app (tr1 tr2 : list Event) :
  writes_of (tr1 ++ tr2) = writes_of tr1 ++ writes_of tr2.
Proof.
  induction tr1 as [| [w | k] tr1 IH]; simpl; [done | by rewrite IH | done].
Qed.

Lemma writes_of_updates (ws : list Write) : writes_of (map Ev_update ws) = ws.
Proof. induction ws as [| w ws IH]; simpl; [done | by rewrite IH]. Qed.

Lemma family_writes_nil_iff {T : Type} config section (wrap : option T -> SettingValue)
    (d : MigrationData T) :
  family_writes config section wrap d = [] <-> MigrationData_needsUpdate d = false.
Proof.
  split; [| apply family_writes_nil].
  rewrite family_writes_unfold. unfold MigrationData_needsUpdate.
  by destruct (changed (global d)), (changed (workspace d)), (changed (workspaceFolder d)).
Qed.

Lemma language_writes_nil_iff (store : list (MigrationData CodeActionsOnSave))
    (l : list (string * nat)) :
  flat_map (language_writes store) l = [] <-> needsUpdate_languages l store = false.
Proof.
  induction l as [| [lang r] l IH]; simpl; [done |].
  unfold language_writes at 1. simpl.
  destruct (store !! r) as [d |]; simpl; [| done].
  destruct (MigrationData_needsUpdate d) eqn:Hd.
  - split; [| done]. intros H. apply app_eq_nil in H as [H _].
    apply family_writes_nil_iff in H. congruence.
  - rewrite family_writes_nil by done. done.
Qed.

Lemma planned_writes_nil_iff (m : Migration) (store : list (MigrationData CodeActionsOnSave)) :
  planned_writes m store = [] <-> needsUpdate m store = false.
Proof.
  unfold planned_writes, needsUpdate.
  rewrite !app_nil, !family_writes_nil_iff, language_writes_nil_iff.
  destruct (MigrationData_needsUpdate (autoFixOnSave m)),
    (MigrationData_needsUpdate (validate m)),
    (MigrationData_needsUpdate (codeActionOnSave m)),
    (MigrationData_needsUpdate (workingDirectories m)); simpl; intuition congruence.
Qed.

Section MoreUpdateFacts.

Context {World : Type}.
Variable config_update : Write -> World -> option World.

(** What a sequence of awaited writes comes to: all are applied, or the
    run stops at the first rejected one with the earlier ones applied. *)
Lemma run_writes_outcome (ws : list Write) (r : Run World) :
  raised r = false ->
  let res := run_writes config_update ws r in
  (raised res = false
   ∧ apply_writes config_update ws (world r) = Some (world res)
   ∧ trace res = trace r ++ map Ev_update ws)
  ∨ (raised res = true
     ∧ ∃ before wr rest w',
         ws = before ++ wr :: rest
         ∧ apply_writes config_update before (world r) = Some w'
         ∧ config_update wr w' = None
         ∧ world res = w'
         ∧ trace res = trace r ++ map Ev_update (before ++ [wr])).
Proof.
  revert r. induction ws as [| w ws IH]; intros r Hr; cbv zeta.
  { left. simpl. by rewrite app_nil_r. }
  rewrite run_writes_cons.
  destruct (config_update w (world r)) as [world' |] eqn:Hw.
  - assert (world (await_update config_update w r) = world'
            ∧ trace (await_update config_update w r) = trace r ++ [Ev_update w]
            ∧ raised (await_update config_update w r) = false) as (Hw1 & Ht1 & Hr1).
    { unfold await_update. by rewrite Hr, Hw. }
    destruct (IH (await_update config_update w r) Hr1)
      as [(Hok & Happ & Htr) | (Hko & before & wr & rest & w' & -> & Happ & Hrej & Hworld & Htr)];
      rewrite Hw1 in Happ; rewrite Ht1 in Htr.
    + left. split; [done |]. cbn [apply_writes]. rewrite Hw. split; [done |].
      rewrite Htr. cbn [map]. by rewrite <- app_assoc.
    + right. split; [done |].
      exists (w :: before), wr, rest, w'. cbn [apply_writes]. rewrite Hw.
      repeat split; try done. rewrite Htr. cbn [map app]. by rewrite <- app_assoc.
  - assert (await_update config_update w r
            = {| world := world r; trace := trace r ++ [Ev_update w]; raised := true |}) as Hstep.
    { unfold await_update. by rewrite Hr, Hw. }
    right. rewrite run_writes_raised by (by rewrite Hstep). rewrite Hstep. simpl.
    split; [done |]. exists [], w, ws, (world r). by simpl.
Qed.

Lemma update_outcome (m : Migration) (store : list (MigrationData CodeActionsOnSave))
    (w : World) :
  let r := (update config_update m store w).2 in
  (raised r = false
   ∧ writes_of (trace r) = planned_writes m store
   ∧ apply_writes config_update (planned_writes m store) w = Some (world r))
  ∨ (raised r = true
     ∧ ∃ before wr rest w',
         planned_writes m store = before ++ wr :: rest
         ∧ writes_of (trace r) = before ++ [wr]
         ∧ apply_writes config_update before w = Some w'
         ∧ config_update wr w' = None
         ∧ world r = w').
Proof.
  cbv zeta. unfold update.
  destruct (update_finally_spec m (update_try config_update m store
    {| world := w; trace := []; raised := false |})) as (Hworld & Hraised & _ & Htrace).
  rewrite Hworld, Hraised, Htrace, update_try_run.
  assert (∀ tr, writes_of (tr ++ match didChangeConfiguration m with
                                 | Some func => [Ev_didChangeConfiguration func]
                                 | None => []
                                 end) = writes_of tr) as Hfin.
  { intros tr. rewrite writes_of_app. destruct (didChangeConfiguration m); simpl;
      by rewrite app_nil_r. }
  rewrite Hfin.
  destruct (run_writes_outcome (planned_writes m store)
              {| world := w; trace := []; raised := false |} eq_refl)
    as [(Hok & Happ & Htr) | (Hko & before & wr & rest & w' & Hpl & Happ & Hrej & Hw & Htr)].
  - left. rewrite Htr. simpl. by rewrite writes_of_updates.
  - right. split; [done |]. exists before, wr, rest, w'.
    rewrite Htr. simpl. by rewrite writes_of_updates.
Qed.

(** X3.  [update] attempts a write exactly when [needsUpdate] answers
    [true]: on an instance that needs no update it changes no store and
    does not raise. *)
Theorem update_writes_iff_needsUpdate (m : Migration)
    (store : list (MigrationData CodeActionsOnSave)) (w : World) :
  let r := (update config_update m store w).2 in
  (needsUpdate m store = true <-> writes_of (trace r) ≠ [])
  ∧ (needsUpdate m store = false -> world r = w ∧ raised r = false).
Proof.
  cbv zeta.
  destruct (update_outcome m store w)
    as [(Hok & Hwr & Happ) | (Hko & before & wr & rest & w' & Hpl & Hwr & Happ & Hrej & Hw)];
    rewrite Hwr.
  - split.
    + rewrite <- not_false_iff_true, <- planned_writes_nil_iff. done.
    + intros Hn. apply planned_writes_nil_iff in Hn. rewrite Hn in Happ.
      simpl in Happ. by injection Happ as <-.
  - split.
    + split.
      * intros _ H. by apply app_eq_nil in H as [_ H].
      * intros _. apply not_false_iff_true. rewrite <- planned_writes_nil_iff, Hpl.
        intros H. by apply app_eq_nil in H as [_ H].
    + intros Hn. apply planned_writes_nil_iff in Hn. rewrite Hn in Hpl.
      by destruct before.
Qed.

(** X4.  [update] applies the planned writes in their order up to the
    first one that is rejected: when it does not raise, every planned write
    was accepted and the stores are the result of all of them; when it
    raises, the writes before the rejected one stay applied, the rejected
    one is the last write attempted, and the stores are those the rejected
    write met. *)
Theorem update_stops_at_first_rejection (m : Migration)
    (store : list (MigrationData CodeActionsOnSave)) (w : World) :
  let r := (update config_update m store w).2 in
  (raised r = false ->
   writes_of (trace r) = planned_writes m store
   ∧ apply_writes config_update (planned_writes m store) w = Some (world r))
  ∧ (raised r = true ->
     ∃ before wr rest w',
       planned_writes m store = before ++ wr :: rest
       ∧ writes_of (trace r) = before ++ [wr]
       ∧ apply_writes config_update before w = Some w'
       ∧ config_update wr w' = None
       ∧ world r = w').
Proof.
  cbv zeta.
  destruct (update_outcome m store w) as [(Hok & H) | (Hko & H)]; rewrite ?Hok, ?Hko;
    split; try done.
Qed.


End MoreUpdateFacts.

Lemma family_writes_sorted {T : Type} config section (wrap : option T -> SettingValue)
    (d : MigrationData T) :
  StronglySorted write_before (family_writes config section wrap d).
Proof.
  rewrite family_writes_unfold.
  assert (∀ t1 t2, tier_rank t1 < tier_rank t2 ->
            write_before
              {| w_config := config; w_section := section;
                 w_value := wrap (value (tier t1 d)); w_target := t1 |}
              {| w_config := config; w_section := section;
                 w_value := wrap (value (tier t2 d)); w_target := t2 |}) as Hlt.
  { intros t1 t2 H. right. split; [done |]. by right. }
  assert (tier_rank Target_Global < tier_rank Target_Workspace) as L01 by (simpl; lia).
  assert (tier_rank Target_Global < tier_rank Target_WorkspaceFolder) as L02 by (simpl; lia).
  assert (tier_rank Target_Workspace < tier_rank Target_WorkspaceFolder) as L12
    by (simpl; lia).
  pose proof (Hlt _ _ L01) as H01. pose proof (Hlt _ _ L02) as H02.
  pose proof (Hlt _ _ L12) as H12. simpl in H01, H02, H12.
  destruct (changed (global d)), (changed (workspace d)), (changed (workspaceFolder d));
    simpl;
    repeat match goal with
           | |- StronglySorted _ _ => constructor
           | |- Forall _ _ => constructor
           end;
    assumption.
Qed.

Lemma family_writes_elem {T : Type} config section (wrap : option T -> SettingValue)
    (d : MigrationData T) (w : Write) :
  w ∈ family_writes config section wrap d ->
  w_config w = config ∧ w_section w = section
  ∧ changed (tier (w_target w) d) = true
  ∧ w_value w = wrap (value (tier (w_target w) d)).
Proof.
  rewrite family_writes_unfold. rewrite !elem_of_app.
  destruct (changed (global d)) eqn:H0, (changed (workspace d)) eqn:H1,
    (changed (workspaceFolder d)) eqn:H2;
    rewrite ?list_elem_of_singleton, ?elem_of_nil; intuition; by subst.
Qed.

Lemma language_writes_rank (store : list (MigrationData CodeActionsOnSave))
    (l : list (string * nat)) (w : Write) :
  w ∈ flat_map (language_writes store) l -> family_rank w = 4.
Proof.
  intros H. apply list_elem_of_In, in_flat_map in H as ([lang r] & _ & H).
  apply list_elem_of_In in H. unfold language_writes in H. simpl in H.
  destruct (store !! r); [| by apply elem_of_nil in H].
  apply family_writes_elem in H as [Hc _]. unfold family_rank. by rewrite Hc.
Qed.

Lemma language_writes_sorted (store : list (MigrationData CodeActionsOnSave))
    (l : list (string * nat)) :
  StronglySorted write_before (flat_map (language_writes store) l).
Proof.
  assert (∀ ws, (∀ w, w ∈ ws -> family_rank w = 4) -> StronglySorted write_before ws) as H.
  { induction ws as [| w ws IH]; intros Hr; [constructor |].
    constructor.
    - apply IH. intros w' Hw'. apply Hr. by right.
    - apply Forall_forall. intros w' Hw'. right.
      rewrite (Hr w) by (by left). rewrite (Hr w') by (by right). split; [done | by left]. }
  apply H. intros w. apply language_writes_rank.
Qed.

Lemma planned_writes_sorted (m : Migration) (store : list (MigrationData CodeActionsOnSave)) :
  StronglySorted write_before (planned_writes m store).
Proof.
  unfold planned_writes.
  repeat (apply StronglySorted_app_2; [| apply family_writes_sorted |]);
    try apply language_writes_sorted.
  all: intros w1 w2 H1 H2; left;
    apply family_writes_elem in H1 as (Hc1 & Hs1 & _);
    rewrite ?elem_of_app in H2;
    repeat match goal with
           | H : _ ∨ _ |- _ => destruct H as [H | H]
           end;
    first [ apply language_writes_rank in H2; rewrite H2
          | apply family_writes_elem in H2 as (Hc2 & Hs2 & _) ];
    unfold family_rank; rewrite ?Hc1, ?Hs1, ?Hc2, ?Hs2; simpl; lia.
Qed.

(** X6.  The writes [update] attempts come in the fixed order of the
    source: code-actions-on-save, auto-fix-on-save, validate,
    working-directories, then the per-language sections; and within each of
    the first four families global before workspace before workspace
    folder, each tier at most once. *)
Theorem update_writes_in_fixed_order {World : Type}
    (config_update : Write -> World -> option World) (m : Migration)
    (store : list (MigrationData CodeActionsOnSave)) (w : World) :
  StronglySorted write_before (writes_of (trace (update config_update m store w).2)).
Proof.
  pose proof (update_trace config_update m store w) as H. cbv zeta in H.
  destruct H as (attempted & rest & Hpl & Htr & _).
  rewrite Htr, writes_of_app, writes_of_updates.
  assert (writes_of match didChangeConfiguration m with
                    | Some func => [Ev_didChangeConfiguration func]
                    | None => []
                    end = []) as -> by (by destruct (didChangeConfiguration m)).
  rewrite app_nil_r.
  pose proof (planned_writes_sorted m store) as Hs. rewrite Hpl in Hs.
  by apply StronglySorted_app_1_l in Hs.
Qed.

(* ===================================================================== *)
(** ** The validate step of [record] on inspectable languages *)
(* ===================================================================== *)

Lemma map_get_snoc (key k : string) (r : nat) (l : list (string * nat)) :
  map_get key (l ++ [(k, r)]) =
  match map_get key l with
  | Some x => Some x
  | None => if bool_decide (k = key) then Some r else None
  end.
Proof.
  induction l as [| [k' r'] l IH]; simpl; [done |].
  by destruct (bool_decide (k' = key)).
Qed.

Lemma demote_language_idempotent (e : MigrationElement CodeActionsOnSave) :
  demote_language (demote_language e) = demote_language e.
Proof.
  unfold demote_language at 2 3.
  destruct (value e) as [obj |]; case_bool_decide as H; simpl;
    unfold demote_language; simpl; simplify_map_eq; try done;
    try (by rewrite bool_decide_eq_true_2).
Qed.

Lemma demote_language_other_keys (e : MigrationElement CodeActionsOnSave) (k : string) :
  k ≠ source_fixAll_patched ->
  value (demote_language e) ≫= (.!! k) = value e ≫= (.!! k).
Proof.
  intros Hk. unfold demote_language.
  destruct (value e) as [obj |]; case_bool_decide; simpl; simplify_map_eq; done.
Qed.

Lemma validate_inv_ext wc (P Q : string -> ConfigurationTarget -> bool) st :
  (∀ lang t, P lang t = Q lang t) -> validate_inv wc P st -> validate_inv wc Q st.
Proof.
  intros Heq (H1 & H2 & H3). split; [| split; [| done]].
  - intros lang. rewrite H1. by setoid_rewrite Heq.
  - intros lang r Hr. destruct (H2 lang r Hr) as (v & d & Hv & Hd & Ht).
    exists v, d. split; [done |]. split; [done |]. intros t. by rewrite <- Heq.
Qed.

Lemma validate_inv_step wc (P : string -> ConfigurationTarget -> bool) st
    (lang0 : string) (t0 : ConfigurationTarget) :
  validate_inv wc P st ->
  is_Some (wc ("[" +:+ lang0 +:+ "]")) ->
  validate_inv wc
    (fun lang t => P lang t || (bool_decide (lang = lang0) && bool_decide (t = t0)))
    (recordValidate_item wc t0 true
       (VObject {| language := Some lang0; autoFix := Some false |}) st).
Proof.
  destruct st as [lss store]. intros (H1 & H2 & H3) [v Hv]. simpl in H1, H2, H3.
  unfold recordValidate_item. simpl. unfold getCodeActionsOnSave.
  destruct (map_get lang0 lss) as [r |] eqn:Hget.
  - (* the data is in the map *)
    destruct (H2 lang0 r Hget) as (v' & d & Hv' & Hd & Ht).
    unfold store_modify. rewrite Hd. simpl.
    split; [| split; [| done]]; simpl.
    + intros lang. rewrite H1. split.
      * intros [t Hp]. exists t. by rewrite Hp.
      * intros [t Hp]. apply orb_true_iff in Hp as [Hp | Hp]; [by exists t |].
        apply andb_true_iff in Hp as [Hl _]. apply bool_decide_eq_true in Hl. subst lang.
        apply H1. by rewrite Hget.
    + intros lang r' Hr'. destruct (decide (lang = lang0)) as [-> | Hne].
      * rewrite Hget in Hr'. injection Hr' as <-.
        exists v', (set_tier t0 (demote_language (tier t0 d)) d).
        split; [done |]. split.
        { apply list_lookup_insert_eq. by eapply lookup_lt_Some. }
        intros t. rewrite tier_set_tier. rewrite bool_decide_eq_true_2 by done. simpl.
        destruct (decide (t0 = t)) as [<- | Hnt].
        -- rewrite bool_decide_eq_true_2 by done. rewrite orb_true_r.
           rewrite Ht. destruct (P lang0 t0); [apply demote_language_idempotent | done].
        -- rewrite bool_decide_eq_false_2 by done. rewrite orb_false_r. apply Ht.
      * destruct (H2 lang r' Hr') as (v2 & d2 & Hv2 & Hd2 & Ht2).
        exists v2, d2. split; [done |]. split.
        { rewrite list_lookup_insert_ne; [done |].
          intros <-. apply Hne. by eapply H3. }
        intros t. rewrite bool_decide_eq_false_2 by done. simpl.
        rewrite orb_false_r. apply Ht2.
  - (* the data is created and entered in the map *)
    rewrite Hv. simpl.
    assert (∀ t, P lang0 t = false) as Hfresh.
    { intros t. destruct (P lang0 t) eqn:Hp; [| done].
      assert (is_Some (map_get lang0 lss)) as [x Hx] by (apply H1; by exists t).
      congruence. }
    assert (∀ lang r', map_get lang lss = Some r' -> r' < length store) as Hlt.
    { intros lang r' Hr'. destruct (H2 lang r' Hr') as (? & ? & _ & Hd & _).
      by eapply lookup_lt_Some. }
    unfold store_modify.
    rewrite lookup_app_r by done. rewrite Nat.sub_diag. simpl.
    fold (inspected_language v).
    split; [| split]; simpl.
    + intros lang. rewrite map_get_snoc. destruct (map_get lang lss) as [x |] eqn:Hx.
      * split; [| by eexists]. intros _.
        assert (is_Some (map_get lang lss)) as Hs by (by rewrite Hx).
        apply H1 in Hs as [t Hp]. exists t. by rewrite Hp.
      * case_bool_decide as Hl.
        -- subst lang. split; [| by eexists]. intros _. exists t0.
           rewrite !bool_decide_eq_true_2 by done. by rewrite orb_true_r.
        -- split; [by intros [? ?] |]. intros [t Hp].
           apply orb_true_iff in Hp as [Hp | Hp].
           ++ assert (is_Some (map_get lang lss)) as [y Hy] by (apply H1; by exists t).
              congruence.
           ++ apply andb_true_iff in Hp as [Hp _]. apply bool_decide_eq_true in Hp.
              congruence.
    + intros lang r'. rewrite map_get_snoc.
      destruct (map_get lang lss) as [x |] eqn:Hx.
      * intros [= <-]. destruct (H2 lang x Hx) as (v2 & d2 & Hv2 & Hd2 & Ht2).
        assert (lang ≠ lang0) as Hne by congruence.
        exists v2, d2. split; [done |]. split.
        { rewrite list_lookup_insert_ne by (apply Hlt in Hx; lia).
          by apply lookup_app_l_Some. }
        intros t. rewrite bool_decide_eq_false_2 by done. simpl.
        rewrite orb_false_r. apply Ht2.
      * case_bool_decide as Hl; [| discriminate]. intros [= <-]. subst lang.
        exists v, (set_tier t0 (demote_language (tier t0 (inspected_language v)))
                     (inspected_language v)).
        split; [done |]. split.
        { apply list_lookup_insert_eq. rewrite length_app. simpl. lia. }
        intros t. rewrite tier_set_tier, Hfresh. rewrite bool_decide_eq_true_2 by done.
        simpl. destruct (decide (t0 = t)) as [<- | Hnt].
        -- by rewrite bool_decide_eq_true_2.
        -- by rewrite bool_decide_eq_false_2.
    + intros l1 l2 r'. rewrite !map_get_snoc.
      destruct (map_get l1 lss) as [x1 |] eqn:Hx1, (map_get l2 lss) as [x2 |] eqn:Hx2.
      * intros [= <-] [= <-]. by eapply H3.
      * intros [= <-]. case_bool_decide; [| discriminate]. intros [= Hr].
        apply Hlt in Hx1. lia.
      * case_bool_decide; [| discriminate]. intros [= <-] [= Hr].
        apply Hlt in Hx2. lia.
      * repeat case_bool_decide; try discriminate. congruence.
Qed.

Lemma opts_out_spec (lang : string) (item : ValidateEntry) :
  opts_out lang item = true <->
  item = VObject {| language := Some lang; autoFix := Some false |}.
Proof.
  destruct item as [s | [l a]]; simpl; [done |].
  rewrite andb_true_iff, !bool_decide_eq_true. simpl. split; [by intros [-> ->] |].
  by intros [= -> ->].
Qed.

(** One call of the inner [record] of [recordValidate]. *)
Lemma validate_inv_record wc (t0 : ConfigurationTarget) (fixAll : bool)
    (elem : MigrationElement (list ValidateEntry))
    (P : string -> ConfigurationTarget -> bool) st :
  let hit lang :=
    fixAll && match value elem with
              | Some items => existsb (opts_out lang) items
              | None => false
              end in
  validate_inv wc P st ->
  (∀ lang, hit lang = true -> is_Some (wc ("[" +:+ lang +:+ "]"))) ->
  validate_inv wc (fun lang t => P lang t || (hit lang && bool_decide (t = t0)))
    (recordValidate_record wc t0 elem fixAll st).
Proof.
  cbv zeta. unfold recordValidate_record.
  destruct (value elem) as [items |].
  2: { intros Hinv _. eapply validate_inv_ext; [| exact Hinv].
       intros lang t. by rewrite andb_false_r, orb_false_r. }
  revert P st. induction items as [| item items IH]; intros P st Hinv Hinsp.
  { simpl. eapply validate_inv_ext; [| exact Hinv].
    intros lang t. simpl. by rewrite andb_false_r, orb_false_r. }
  simpl.
  assert ((fixAll = true
           ∧ ∃ lang, item = VObject {| language := Some lang; autoFix := Some false |})
          ∨ ¬ (fixAll = true
               ∧ ∃ lang, item = VObject {| language := Some lang; autoFix := Some false |}))
    as [[-> [lang0 ->]] | Hno].
  { destruct fixAll; [| right; by intros [? _]].
    destruct item as [s | [[l |] [[|] |]]];
      try (right; intros [_ [? ?]]; discriminate).
    left. split; [done |]. by exists l. }
  - eapply validate_inv_ext; [| apply IH; [apply (@validate_inv_step wc P st lang0 t0 Hinv) |]].
    + intros lang t. simpl.
      destruct (P lang t), (bool_decide_reflect (lang = lang0)) as [-> | Hne],
        (bool_decide (t = t0)), (existsb (opts_out lang0) items) eqn:He;
        simpl; rewrite ?He, ?bool_decide_eq_true_2 by done; simpl; try done.
      all: try (rewrite (bool_decide_eq_false_2 (Some lang0 = Some lang)) by congruence; simpl).
      all: by destruct (existsb (opts_out lang) items).
    + apply Hinsp. simpl. by rewrite !bool_decide_eq_true_2.
    + intros lang Hhit. apply Hinsp. simpl in *. destruct (existsb (opts_out lang) items);
        [by rewrite orb_true_r | discriminate].
  - rewrite recordValidate_item_skip by done.
    eapply validate_inv_ext; [| apply IH; [exact Hinv |]].
    + intros lang t. simpl.
      assert (fixAll && opts_out lang item = false) as Hf.
      { destruct fixAll; [| done]. simpl. destruct (opts_out lang item) eqn:Ho; [| done].
        exfalso. apply Hno. split; [done |]. exists lang. by apply opts_out_spec. }
      destruct fixAll; [| done]. simpl in *. by rewrite Hf.
    + intros lang Hhit. apply Hinsp. simpl.
      destruct fixAll; [| done]. simpl in *. by rewrite Hhit, orb_true_r.
Qed.

(** The structure of the per-language data after [record] on a new
    [Migration] all of whose demoted languages have an inspected
    section. *)
Lemma record_validate_inv (c : Configuration)
    (store0 : list (MigrationData CodeActionsOnSave)) :
  let m := Migration_new c in
  let fixAll := (recordAutoFixOnSave m).1 in
  (∀ lang t, demotes m fixAll lang t = true ->
     is_Some (workspace_inspect c ("[" +:+ lang +:+ "]"))) ->
  validate_inv (workspace_inspect c) (demotes m fixAll)
    (languageSpecificSettings (record m store0).1, (record m store0).2).
Proof.
  cbv zeta. intros Hinsp. rewrite record_unfold.
  set (m := Migration_new c) in *.
  set (fixAll := (recordAutoFixOnSave m).1) in *.
  assert (validate (recordAutoFixOnSave m).2 = validate m) as Hval
    by (by rewrite recordAutoFixOnSave_snd).
  assert (workspaceConfig (recordAutoFixOnSave m).2 = workspace_inspect c) as Hwc
    by (by rewrite recordAutoFixOnSave_snd).
  assert (languageSpecificSettings (recordAutoFixOnSave m).2 = []) as Hlss
    by (by rewrite recordAutoFixOnSave_snd).
  unfold recordValidate. cbn [fst snd languageSpecificSettings set_languageSpecificSettings].
  rewrite Hval, Hwc, Hlss.
  assert (validate_inv (workspace_inspect c) (fun _ _ => false) ([], store0)) as H0.
  { split; [| split]; simpl; [| done | done].
    intros lang. split; [by intros [? ?] | by intros [? ?]]. }
  assert (∀ t lang,
            cascade fixAll t
            && match value (tier t (validate m)) with
               | Some items => existsb (opts_out lang) items
               | None => false
               end = true ->
            is_Some (workspace_inspect c ("[" +:+ lang +:+ "]"))) as Hi.
  { intros t lang Hhit. by apply (Hinsp lang t). }
  pose proof (validate_inv_record Target_Global (cascade fixAll Target_Global)
                (global (validate m)) H0 (Hi Target_Global)) as H1. cbv zeta in H1.
  pose proof (validate_inv_record Target_Workspace (cascade fixAll Target_Workspace)
                (workspace (validate m)) H1 (Hi Target_Workspace)) as H2. cbv zeta in H2.
  pose proof (validate_inv_record Target_WorkspaceFolder (cascade fixAll Target_WorkspaceFolder)
                (workspaceFolder (validate m)) H2 (Hi Target_WorkspaceFolder)) as H3.
  cbv zeta in H3.
  match goal with
  | |- validate_inv _ _ (?a.1, ?b.2) => replace (a.1, b.2) with a by (by destruct a)
  end.
  eapply validate_inv_ext; [| apply H3].
  intros lang t. unfold demotes. destruct t; simpl;
    rewrite ?andb_false_r, ?andb_true_r, ?orb_false_r; done.
Qed.

Lemma inspected_language_unchanged (v : InspectData LanguageSettings) t :
  changed (tier t (inspected_language v)) = false.
Proof. by destruct t. Qed.

(** X7.  On a new [Migration] whose demoted languages all have an
    inspected ['[languageId]'] section: for every tier and every language
    that an entry of the tier's validate list opts out of auto-fix while
    fix-all is on for the tier, [record] has the language's data in
    [languageSpecificSettings], with ['source.fixAll.patched'] [false] at
    that tier, and the tier is marked changed unless the inspected flag was
    already [false]. *)
Theorem record_demotes_opted_out_language (c : Configuration)
    (store0 : list (MigrationData CodeActionsOnSave)) (lang : string)
    (t : ConfigurationTarget) :
  let m := Migration_new c in
  let fixAll := (recordAutoFixOnSave m).1 in
  (∀ lang t, demotes m fixAll lang t = true ->
     is_Some (workspace_inspect c ("[" +:+ lang +:+ "]"))) ->
  demotes m fixAll lang t = true ->
  ∃ r d v,
    map_get lang (languageSpecificSettings (record m store0).1) = Some r
    ∧ (record m store0).2 !! r = Some d
    ∧ workspace_inspect c ("[" +:+ lang +:+ "]") = Some v
    ∧ linterSpecificFlag (value (tier t d)) = Some false
    ∧ changed (tier t d)
      = negb (bool_decide
                (linterSpecificFlag (value (tier t (inspected_language v))) = Some false)).
Proof.
  cbv zeta. intros Hinsp Hdem.
  destruct (record_validate_inv c store0 Hinsp) as (H1 & H2 & _). simpl in H1, H2.
  assert (is_Some (map_get lang (languageSpecificSettings (record (Migration_new c) store0).1)))
    as [r Hr] by (apply H1; by exists t).
  destruct (H2 lang r Hr) as (v & d & Hv & Hd & Ht).
  exists r, d, v. repeat split; try done.
  - rewrite Ht, Hdem. apply demote_language_flag.
  - rewrite Ht, Hdem, demote_language_changed, inspected_language_unchanged.
    by case_bool_decide.
Qed.

Lemma record_demotes_opted_out_language_witness :
  let m := Migration_new Examples.inspectable_language in
  ∃ r d v,
    map_get "html" (languageSpecificSettings (record m []).1) = Some r
    ∧ (record m []).2 !! r = Some d
    ∧ workspace_inspect Examples.inspectable_language "[html]" = Some v
    ∧ linterSpecificFlag (value (global d)) = Some false
    ∧ changed (global d)
      = negb (bool_decide
                (linterSpecificFlag (value (global (inspected_language v))) = Some false)).
Proof.
  apply (@record_demotes_opted_out_language Examples.inspectable_language [] "html"
           Target_Global).
  - intros lang t _. simpl. by eexists.
  - by vm_compute.
Defined.

(** X8.  Under the same condition, [languageSpecificSettings] holds
    exactly the demoted languages, and [record] changes nothing else in
    their data: every other code action of every tier is as inspected, a
    tier that no entry demotes is exactly as inspected, and only a demoted
    tier is marked changed. *)
Theorem record_touches_only_demoted_tiers (c : Configuration)
    (store0 : list (MigrationData CodeActionsOnSave)) (lang : string) (r : nat) :
  let m := Migration_new c in
  let fixAll := (recordAutoFixOnSave m).1 in
  (∀ lang t, demotes m fixAll lang t = true ->
     is_Some (workspace_inspect c ("[" +:+ lang +:+ "]"))) ->
  map_get lang (languageSpecificSettings (record m store0).1) = Some r ->
  (∃ t, demotes m fixAll lang t = true)
  ∧ ∃ v d,
      workspace_inspect c ("[" +:+ lang +:+ "]") = Some v
      ∧ (record m store0).2 !! r = Some d
      ∧ ∀ t,
          (∀ k, k ≠ source_fixAll_patched ->
             value (tier t d) ≫= (.!! k) = value (tier t (inspected_language v)) ≫= (.!! k))
          ∧ (demotes m fixAll lang t = false -> tier t d = tier t (inspected_language v))
          ∧ (changed (tier t d) = true -> demotes m fixAll lang t = true).
Proof.
  cbv zeta. intros Hinsp Hr.
  destruct (record_validate_inv c store0 Hinsp) as (H1 & H2 & _). simpl in H1, H2.
  split; [apply H1; by rewrite Hr |].
  destruct (H2 lang r Hr) as (v & d & Hv & Hd & Ht).
  exists v, d. split; [done |]. split; [done |]. intros t. rewrite Ht.
  destruct (demotes (Migration_new c) (recordAutoFixOnSave (Migration_new c)).1 lang t).
  - split; [intros k Hk; by apply demote_language_other_keys |]. split; done.
  - split; [done |]. split; [done |]. by rewrite inspected_language_unchanged.
Qed.

Lemma record_touches_only_demoted_tiers_witness :
  let m := Migration_new Examples.inspectable_language in
  let fixAll := (recordAutoFixOnSave m).1 in
  (∃ t, demotes m fixAll "html" t = true)
  ∧ ∃ v d,
      workspace_inspect Examples.inspectable_language "[html]" = Some v
      ∧ (record m []).2 !! 0 = Some d
      ∧ ∀ t,
          (∀ k, k ≠ source_fixAll_patched ->
             value (tier t d) ≫= (.!! k) = value (tier t (inspected_language v)) ≫= (.!! k))
          ∧ (demotes m fixAll "html" t = false -> tier t d = tier t (inspected_language v))
          ∧ (changed (tier t d) = true -> demotes m fixAll "html" t = true).
Proof.
  apply (@record_touches_only_demoted_tiers Examples.inspectable_language [] "html" 0).
  - intros lang t _. simpl. by eexists.
  - by vm_compute.
Defined.

(** Every entry of the map is the first one for its language. *)
Lemma getCodeActionsOnSave_keys wc (lang : string) (lss : list (string * nat))
    (store : list (MigrationData CodeActionsOnSave)) :
  (∀ l r, (l, r) ∈ lss -> map_get l lss = Some r) ->
  ∀ l r, (l, r) ∈ (getCodeActionsOnSave wc lang lss store).1.2 ->
         map_get l (getCodeActionsOnSave wc lang lss store).1.2 = Some r.
Proof.
  intros Hq l r. unfold getCodeActionsOnSave.
  destruct (map_get lang lss) as [x |] eqn:Hget; simpl; [apply Hq |].
  destruct (wc _); simpl; [| apply Hq].
  rewrite map_get_snoc. intros Hin. apply elem_of_app in Hin as [Hin | Hin].
  - by rewrite (Hq l r Hin).
  - apply list_elem_of_singleton in Hin. injection Hin as -> ->.
    rewrite Hget. by rewrite bool_decide_eq_true_2.
Qed.

Lemma recordValidate_record_keys wc t (elem : MigrationElement (list ValidateEntry))
    (fixAll : bool) (st : list (string * nat) * list (MigrationData CodeActionsOnSave)) :
  (∀ l r, (l, r) ∈ st.1 -> map_get l st.1 = Some r) ->
  ∀ l r, (l, r) ∈ (recordValidate_record wc t elem fixAll st).1 ->
         map_get l (recordValidate_record wc t elem fixAll st).1 = Some r.
Proof.
  unfold recordValidate_record. destruct (value elem) as [items |]; [| done].
  revert st. induction items as [| item items IH]; intros st Hq; [done |].
  simpl. apply IH.
  unfold recordValidate_item. destruct item as [s | [[lang |] af]]; simpl; try done.
  destruct (fixAll && bool_decide (af = Some false)); [| done].
  pose proof (@getCodeActionsOnSave_keys wc lang st.1 st.2 Hq) as Hk.
  destruct (getCodeActionsOnSave wc lang st.1 st.2) as [[r lss'] store']. by simpl in *.
Qed.

Lemma record_keys (m : Migration) (store : list (MigrationData CodeActionsOnSave)) :
  (∀ l r, (l, r) ∈ languageSpecificSettings m -> map_get l (languageSpecificSettings m) = Some r) ->
  ∀ l r, (l, r) ∈ languageSpecificSettings (record m store).1 ->
         map_get l (languageSpecificSettings (record m store).1) = Some r.
Proof.
  intros Hq. rewrite record_unfold. unfold recordValidate.
  cbn [fst snd languageSpecificSettings set_languageSpecificSettings].
  repeat apply recordValidate_record_keys. simpl.
  by rewrite recordAutoFixOnSave_snd.
Qed.

(** X9.  Under the same condition, [needsUpdate] after [record] answers
    [true] exactly when [record] migrated the auto-fix flag of some tier or
    demoted, at some tier, a language whose inspected linter-specific flag
    was not already [false]. *)
Theorem needsUpdate_after_record (c : Configuration)
    (store0 : list (MigrationData CodeActionsOnSave)) :
  let m := Migration_new c in
  let fixAll := (recordAutoFixOnSave m).1 in
  (∀ lang t, demotes m fixAll lang t = true ->
     is_Some (workspace_inspect c ("[" +:+ lang +:+ "]"))) ->
  needsUpdate (record m store0).1 (record m store0).2 = true
  <-> (∃ t, changed (tier t (codeActionOnSave (record m store0).1)) = true)
      ∨ (∃ lang t v,
           demotes m fixAll lang t = true
           ∧ workspace_inspect c ("[" +:+ lang +:+ "]") = Some v
           ∧ linterSpecificFlag (value (tier t (inspected_language v))) ≠ Some false).
Proof.
  cbv zeta. intros Hinsp.
  pose proof (record_validate_inv c store0 Hinsp) as (H1 & H2 & _). simpl in H1, H2.
  rewrite needsUpdate_tracked.
  rewrite record_autoFixOnSave, record_validate, record_workingDirectories.
  unfold some_tier_changed at 1 2 4. simpl.
  setoid_rewrite MigrationData_create_unchanged.
  split.
  - intros [[t Ht] | [[t Ht] | [Hc | [[t Ht] | (d & (lang & r & Hin & Hd) & [t Ht])]]]];
      try discriminate; [by left |].
    right. apply record_keys in Hin; [| by intros ? ? Hn; apply elem_of_nil in Hn].
    destruct (H2 lang r Hin) as (v & d' & Hv & Hd' & Htier).
    rewrite Hd in Hd'. injection Hd' as <-.
    rewrite Htier in Ht.
    destruct (demotes (Migration_new c) (recordAutoFixOnSave (Migration_new c)).1 lang t) eqn:Hdem.
    + exists lang, t, v. split; [done |]. split; [done |].
      rewrite demote_language_changed, inspected_language_unchanged in Ht.
      by case_bool_decide.
    + by rewrite inspected_language_unchanged in Ht.
  - intros [Hc | (lang & t & v & Hdem & Hv & Hflag)]; [by do 2 right; left |].
    do 4 right.
    assert (is_Some (map_get lang (languageSpecificSettings (record (Migration_new c) store0).1)))
      as [r Hr] by (apply H1; by exists t).
    destruct (H2 lang r Hr) as (v' & d & Hv' & Hd & Htier).
    rewrite Hv in Hv'. injection Hv' as <-.
    exists d. split.
    + exists lang, r. split; [| done].
      clear -Hr. induction (languageSpecificSettings _) as [| [k x] l IH]; [done |].
      simpl in Hr. case_bool_decide; [injection Hr as ->; subst; by left |].
      right. by apply IH.
    + exists t. rewrite Htier, Hdem, demote_language_changed, inspected_language_unchanged.
      by rewrite bool_decide_eq_false_2.
Qed.

Lemma needsUpdate_after_record_witness :
  let m := Migration_new Examples.inspectable_language in
  needsUpdate (record m []).1 (record m []).2 = true.
Proof.
  apply (@needsUpdate_after_record Examples.inspectable_language []).
  - intros lang t _. simpl. by eexists.
  - right. exists "html", Target_Global. eexists. split; [by vm_compute |].
    split; [reflexivity |]. by vm_compute.
Defined.

(* ===================================================================== *)
(** ** Activation *)
(* ===================================================================== *)

Lemma configurationChanged_loop_spec (w : Workspace) (pf : gset string)
    (docs : list TextDocument) (a : Activation) :
  configurationChanged_loop w pf docs a =
  if existsb
       (fun textDocument =>
          negb (bool_decide (computeValidate (ws_getConfiguration w) pf textDocument = Validate_off)))
       docs
  then do_activate a else a.
Proof.
  induction docs as [| d docs IH]; simpl; [done |].
  destruct (negb (bool_decide _)); simpl; [done | apply IH].
Qed.

Lemma activation_step_spec (pf : gset string) (a : Activation) (ev : ActivationEvent) :
  activation_step pf a ev =
  if activated a then a else if lets_through pf ev then do_activate a else a.
Proof.
  destruct ev as [w d | w]; simpl.
  - done.
  - unfold configurationChanged. by rewrite configurationChanged_loop_spec.
Qed.

Lemma activation_run_spec (pf : gset string) (events : list ActivationEvent) (a : Activation) :
  let a' := foldl (activation_step pf) a events in
  activated a' = activated a || existsb (lets_through pf) events
  ∧ realActivate_calls a' =
    if activated a then realActivate_calls a
    else if existsb (lets_through pf) events then S (realActivate_calls a)
    else realActivate_calls a.
Proof.
  revert a. induction events as [| ev events IH]; intros a; cbv zeta.
  { simpl. rewrite orb_false_r. by destruct (activated a). }
  simpl. destruct (IH (activation_step pf a ev)) as [H1 H2].
  rewrite H1, H2, activation_step_spec.
  destruct (activated a) eqn:Ha; simpl; [by rewrite Ha |].
  destruct (lets_through pf ev); simpl; [done |]. by rewrite Ha.
Qed.

(** X10.  Whatever documents are opened and however the configuration
    changes after [activate], [realActivate] is called at most once; it has
    been called exactly when the extension is activated, and that is exactly
    when [activate] itself or one of the events presented a document for
    which the gate does not answer off. *)
Theorem activates_once (w0 : Workspace) (pf : gset string) (events : list ActivationEvent) :
  let a := foldl (activation_step pf) (activate w0 pf) events in
  realActivate_calls a <= 1
  ∧ (activated a = true <-> realActivate_calls a = 1)
  ∧ activated a = existsb (lets_through pf) (AE_configurationChanged w0 :: events).
Proof.
  cbv zeta.
  change (activate w0 pf) with
    (activation_step pf {| activated := false; realActivate_calls := 0 |}
       (AE_configurationChanged w0)).
  change (foldl (activation_step pf)
            (activation_step pf {| activated := false; realActivate_calls := 0 |}
               (AE_configurationChanged w0)) events)
    with (foldl (activation_step pf) {| activated := false; realActivate_calls := 0 |}
            (AE_configurationChanged w0 :: events)).
  destruct (activation_run_spec pf (AE_configurationChanged w0 :: events)
              {| activated := false; realActivate_calls := 0 |}) as [H1 H2].
  rewrite H1, H2. cbn [activated realActivate_calls orb].
  destruct (existsb (lets_through pf) (AE_configurationChanged w0 :: events));
    repeat split; auto with lia; discriminate.
Qed.

(* ===================================================================== *)
(** ** Document synchronisation *)
(* ===================================================================== *)

Lemma add_enabled_lookup (w : Workspace) (pf : gset string) (docs : list TextDocument)
    (synced : gmap string TextDocument) (k : string) (d : TextDocument) :
  add_enabled w pf docs synced !! k = Some d ->
  synced !! k = Some d
  ∨ (d ∈ docs ∧ k = uri_toString (uri d)
     ∧ computeValidate (ws_getConfiguration w) pf d ≠ Validate_off).
Proof.
  revert synced. induction docs as [| x docs IH]; intros synced; simpl; [by left |].
  destruct (negb (bool_decide (is_Some _)) && negb (bool_decide _)) eqn:Hc.
  - intros H. apply IH in H as [H | (Hin & Hk & Hg)].
    + destruct (decide (uri_toString (uri x) = k)) as [<- | Hne].
      * rewrite lookup_insert_eq in H. injection H as <-. right.
        split; [by left |]. split; [done |].
        apply andb_true_iff in Hc as [_ Hc]. apply negb_true_iff in Hc.
        by apply bool_decide_eq_false in Hc.
      * rewrite lookup_insert_ne in H by done. by left.
    + right. split; [by right | done].
  - intros H. apply IH in H as [H | (Hin & Hk & Hg)]; [by left |].
    right. split; [by right | done].
Qed.

Lemma add_enabled_keeps (w : Workspace) (pf : gset string) (docs : list TextDocument)
    (synced : gmap string TextDocument) (k : string) :
  is_Some (synced !! k) -> is_Some (add_enabled w pf docs synced !! k).
Proof.
  revert synced. induction docs as [| x docs IH]; intros synced Hs; simpl; [done |].
  destruct (negb (bool_decide (is_Some _)) && negb (bool_decide _)); apply IH; [| done].
  destruct (decide (uri_toString (uri x) = k)) as [<- | Hne].
  - rewrite lookup_insert_eq. by eexists.
  - by rewrite lookup_insert_ne.
Qed.

Lemma add_enabled_complete (w : Workspace) (pf : gset string) (docs : list TextDocument)
    (synced : gmap string TextDocument) (d : TextDocument) :
  d ∈ docs ->
  computeValidate (ws_getConfiguration w) pf d ≠ Validate_off ->
  is_Some (add_enabled w pf docs synced !! uri_toString (uri d)).
Proof.
  revert synced. induction docs as [| x docs IH]; intros synced Hin Hg.
  { by apply elem_of_nil in Hin. }
  simpl. apply elem_of_cons in Hin as [-> | Hin].
  - destruct (bool_decide_reflect (is_Some (synced !! uri_toString (uri x)))) as [Hs | Hs]; simpl.
    + by apply add_enabled_keeps.
    + rewrite bool_decide_eq_false_2 by done. simpl.
      apply add_enabled_keeps. rewrite lookup_insert_eq. by eexists.
  - destruct (negb (bool_decide (is_Some _)) && negb (bool_decide _)); by apply IH.
Qed.

Section MiddlewareFacts.

Variable matches_packageJson : TextDocument -> bool.
Variable matches_configFile : TextDocument -> bool.

Abbreviation step := (client_step matches_packageJson matches_configFile).

Lemma client_step_keys (st : ClientState) (ev : ClientEvent) :
  keys_consistent st -> keys_consistent (step st ev).
Proof.
  intros Hk. destruct ev as [w d | d | u | w |]; simpl.
  - unfold mw_didOpen. destruct (_ || _ || _); simpl; [| done].
    intros k x. simpl. destruct (decide (uri_toString (uri d) = k)) as [<- | Hne].
    + rewrite lookup_insert_eq. by intros [= <-].
    + rewrite lookup_insert_ne by done. apply Hk.
  - unfold mw_didClose. case_bool_decide as Hsome; simpl; [| done].
    intros k x. simpl. intros Hl. apply lookup_delete_Some in Hl as [_ Hl]. by apply Hk.
  - done.
  - intros k x. simpl. intros H. apply add_enabled_lookup in H as [H | (_ & H & _)]; [| done].
    unfold drop_disabled in H. apply map_lookup_filter_Some in H as [H _]. by apply Hk.
  - done.
Qed.

(** X11.  In every state the client reaches from its initial state, each
    synced document is stored under its own uri. *)
Theorem synced_documents_keyed_by_uri (events : list ClientEvent) :
  keys_consistent (foldl step initial_client_state events).
Proof.
  assert (∀ st, keys_consistent st -> keys_consistent (foldl step st events)) as H.
  { induction events as [| ev events IH]; intros st Hst; [done |].
    simpl. apply IH. by apply client_step_keys. }
  apply H. intros k d. simpl. by rewrite lookup_empty.
Qed.

(** X12.  After a configuration change, every synced document is one the
    gate lets through under the new configuration and the emptied
    probe-failed set (so a [package.json] or configuration file that was
    synced only for its file name is dropped), and every open document the
    gate lets through is synced. *)
Theorem configuration_change_resyncs (w : Workspace) (st : ClientState) :
  let st' := onDidChangeConfiguration w st in
  (∀ k d, syncedDocuments st' !! k = Some d ->
     computeValidate (ws_getConfiguration w) ∅ d ≠ Validate_off)
  ∧ (∀ d, d ∈ ws_textDocuments w ->
       computeValidate (ws_getConfiguration w) ∅ d ≠ Validate_off ->
       is_Some (syncedDocuments st' !! uri_toString (uri d)))
  ∧ (∀ k d, syncedDocuments st' !! k = Some d ->
       syncedDocuments st !! k = Some d ∨ d ∈ ws_textDocuments w).
Proof.
  cbv zeta. unfold onDidChangeConfiguration. simpl. repeat split.
  - intros k d H. apply add_enabled_lookup in H as [H | (_ & _ & H)]; [| done].
    unfold drop_disabled in H. by apply map_lookup_filter_Some in H as [_ H].
  - intros d Hin Hg. by apply add_enabled_complete.
  - intros k d H. apply add_enabled_lookup in H as [H | (H & _)]; [| by right].
    left. unfold drop_disabled in H. by apply map_lookup_filter_Some in H as [H _].
Qed.

(** X13.  Opening and then closing a document that was not synced leaves
    the client state as it was, and the close is forwarded to the server
    exactly when the open was. *)
Theorem open_close_round_trip (w : Workspace) (document : TextDocument) (st : ClientState) :
  syncedDocuments st !! uri_toString (uri document) = None ->
  let opened := mw_didOpen matches_packageJson matches_configFile w document st in
  let closed := mw_didClose document opened.1 in
  closed.1 = st ∧ closed.2 = opened.2.
Proof.
  intros Hnone. cbv zeta. unfold mw_didOpen.
  destruct (_ || _ || _); unfold mw_didClose; simpl.
  - rewrite lookup_insert_eq. rewrite bool_decide_eq_true_2 by (by eexists). simpl.
    split; [| done]. rewrite delete_insert_eq, delete_id by done. by destruct st.
  - rewrite Hnone. rewrite bool_decide_eq_false_2 by (by intros [? ?]). done.
Qed.

End MiddlewareFacts.

Lemma open_close_round_trip_witness :
  let opened :=
    mw_didOpen (fun _ => false) (fun _ => false) Examples.probing_workspace
      Examples.javascript_document Examples.no_state in
  let closed := mw_didClose Examples.javascript_document opened.1 in
  closed.1 = Examples.no_state ∧ closed.2 = opened.2.
Proof.
  apply (open_close_round_trip (fun _ => false) (fun _ => false)
           Examples.probing_workspace Examples.javascript_document Examples.no_state).
  reflexivity.
Defined.

(** X14.  A probe-failed request for a uri turns the gate's answer for
    the documents with that uri from probe to off and changes no other
    answer: on stays on, off stays off, and documents with another uri are
    answered as before. *)
Theorem probe_failure_only_stops_probing (getConfiguration : Uri -> PatchedConfig)
    (u : string) (st : ClientState) (document : TextDocument) :
  computeValidate getConfiguration (probeFailed (onProbeFailed u st)) document =
  if bool_decide (uri_toString (uri document) = u)
     && bool_decide (computeValidate getConfiguration (probeFailed st) document = Validate_probe)
  then Validate_off
  else computeValidate getConfiguration (probeFailed st) document.
Proof.
  unfold computeValidate, onProbeFailed. simpl.
  destruct (negb (config_get (cfg_enable (getConfiguration (uri document))) true));
    [by rewrite andb_false_r |].
  destruct (match cfg_validate (getConfiguration (uri document)) with
            | Some v => validate_loop (languageId document) v
            | None => false end); [by rewrite andb_false_r |].
  destruct (bool_decide_reflect (uri_toString (uri document) = u)) as [Hu | Hu]; simpl.
  - rewrite (bool_decide_eq_true_2 (uri_toString (uri document) ∈ {[u]} ∪ probeFailed st))
      by (apply elem_of_union; left; by apply elem_of_singleton).
    destruct (bool_decide (uri_toString (uri document) ∈ probeFailed st)); [done |].
    by destruct (match cfg_probe (getConfiguration (uri document)) with
                 | Some p => probe_loop (languageId document) p
                 | None => false end).
  - destruct (bool_decide_reflect (uri_toString (uri document) ∈ probeFailed st)) as [Hp | Hp].
    + rewrite bool_decide_eq_true_2 by (apply elem_of_union; by right). done.
    + rewrite bool_decide_eq_false_2; [done |].
      intros [Hin%elem_of_singleton | Hin]%elem_of_union; done.
Qed.

(* ===================================================================== *)
(** ** Code actions *)
(* ===================================================================== *)

Lemma eslintDiagnostics_filter (ds : list Diagnostic) :
  eslintDiagnostics ds = List.filter (fun d => bool_decide (source d = Some "patched")) ds.
Proof. induction ds as [| d ds IH]; simpl; [done |]. by rewrite IH. Qed.

Lemma eslintDiagnostics_nil (ds : list Diagnostic) :
  eslintDiagnostics ds = [] <-> ∀ d, d ∈ ds -> source d ≠ Some "patched".
Proof.
  induction ds as [| d ds IH]; simpl.
  - split; [| done]. intros _ d Hd. by apply elem_of_nil in Hd.
  - case_bool_decide as Hs.
    + split; [discriminate |]. intros H. exfalso. apply (H d); [by left | done].
    + rewrite IH. split.
      * intros H x Hx. apply elem_of_cons in Hx as [-> | Hx]; [done | by apply H].
      * intros H x Hx. apply H. by right.
Qed.

(** X15.  [provideCodeActions] asks the server exactly when the document
    is synced and either a supported kind is requested or, with no kind
    requested, some diagnostic comes from the linter; the context it
    forwards keeps the requested kind and carries the linter's diagnostics
    only, in their order. *)
Theorem provideCodeActions_forwards_linter_diagnostics (document : TextDocument)
    (context : CodeActionContext) (st : ClientState) :
  let asked :=
    is_Some (syncedDocuments st !! uri_toString (uri document))
    ∧ match only context with
      | Some kind => kind ∈ supportedQuickFixKinds
      | None => ∃ d, d ∈ diagnostics context ∧ source d = Some "patched"
      end in
  (asked ->
   provideCodeActions document context st =
   Some {| only := only context;
           diagnostics :=
             List.filter (fun d => bool_decide (source d = Some "patched"))
               (diagnostics context) |})
  ∧ (¬ asked -> provideCodeActions document context st = None).
Proof.
  cbv zeta.
  replace (List.filter (fun d => bool_decide (source d = Some "patched")) (diagnostics context))
    with (eslintDiagnostics (diagnostics context)) by apply eslintDiagnostics_filter.
  unfold provideCodeActions.
  destruct (bool_decide_reflect (is_Some (syncedDocuments st !! uri_toString (uri document))))
    as [Hs | Hs]; simpl; [| split; [by intros [? _] | done]].
  destruct (only context) as [kind |].
  - destruct (bool_decide_reflect (kind ∈ supportedQuickFixKinds)) as [Hk | Hk]; simpl.
    + split; [done |]. intros H. exfalso. by apply H.
    + split; [by intros [_ ?] | done].
  - destruct (bool_decide_reflect (length (diagnostics context) = 0)) as [H0 | H0].
    + split; [| done]. intros [_ (d & Hd & _)].
      apply nil_length_inv in H0. rewrite H0 in Hd. by apply elem_of_nil in Hd.
    + destruct (bool_decide_reflect (length (eslintDiagnostics (diagnostics context)) = 0))
        as [H1 | H1].
      * split; [| done]. intros [_ (d & Hd & Hsrc)].
        apply nil_length_inv in H1.
        pose proof (proj1 (eslintDiagnostics_nil _) H1 d Hd) as Hn. done.
      * split; [done |]. intros H. exfalso. apply H. split; [done |].
        destruct (eslintDiagnostics (diagnostics context)) as [| d ds] eqn:He; [done |].
        exists d. rewrite eslintDiagnostics_filter in He.
        assert (d ∈ List.filter (fun d => bool_decide (source d = Some "patched"))
                      (diagnostics context)) as Hin by (rewrite He; by left).
        apply list_elem_of_In, filter_In in Hin as [Hin Hsrc].
        split; [by apply list_elem_of_In |]. by apply bool_decide_eq_true in Hsrc.
Qed.

(* ===================================================================== *)
(** ** The missing-library message *)
(* ===================================================================== *)


(* ===================================================================== *)
(** ** The missing-library message *)
(* ===================================================================== *)

Lemma recorded_dec (scope : option string) (state : NoESLintState) :
  recorded scope state ∨ ¬ recorded scope state.
Proof.
  unfold recorded. destruct scope as [folder |].
  - destruct (decide (nes_workspaces state ≫= (.!! folder) = Some true)); [by left | by right].
  - destruct (decide (nes_global state = Some true)); [by left | by right].
Qed.

Lemma onNoESLintLibrary_spec (scope : option string) (state : NoESLintState) :
  let res := onNoESLintLibrary scope state in
  (res.2 = true <-> ¬ recorded scope state)
  ∧ recorded scope res.1
  ∧ (∀ s, recorded s res.1 <-> recorded s state ∨ s = scope).
Proof.
  cbv zeta. unfold onNoESLintLibrary, recorded. destruct state as [g ws].
  destruct scope as [folder |]; simpl.
  - assert (∀ (m : gmap string bool) (b : option bool),
              (∀ s : option string,
                 match s with
                 | Some f => Some (<[folder:=true]> m) ≫= (.!! f) = Some true
                 | None => b = Some true
                 end
                 <-> match s with
                     | Some f => m !! f = Some true
                     | None => b = Some true
                     end ∨ s = Some folder)) as Hins.
    { intros m b [f |]; simpl; [| intuition congruence].
      destruct (decide (folder = f)) as [-> | Hne]; simplify_map_eq; intuition congruence. }
    destruct ws as [ws |]; simpl.
    + destruct (ws !! folder) as [[|] |] eqn:Hf; simpl.
      * split; [split; [discriminate | by intros H] |]. split; [done |].
        intros [f |]; simpl; [| intuition congruence].
        split; [by left |]. intros [H | [= ->]]; done.
      * split; [split; [by intros _ | congruence] |].
        split; [by rewrite lookup_insert_eq |]. apply Hins.
      * split; [split; [by intros _ | congruence] |].
        split; [by rewrite lookup_insert_eq |]. apply Hins.
    + rewrite lookup_empty. simpl.
      split; [split; [by intros _ | done] |].
      split; [by rewrite lookup_insert_eq |].
      intros [f |]; simpl; [| intuition congruence].
      destruct (decide (folder = f)) as [-> | Hne]; simplify_map_eq; intuition congruence.
  - destruct g as [[|] |]; simpl.
    + split; [split; [discriminate | by intros H] |]. split; [done |].
      intros [f |]; simpl; intuition congruence.
    + split; [split; [by intros _ | congruence] |]. split; [done |].
      intros [f |]; simpl; intuition congruence.
    + split; [split; [by intros _ | congruence] |]. split; [done |].
      intros [f |]; simpl; intuition congruence.
Qed.

Lemma shown_scopes_elem (requests : list (option string)) (state : NoESLintState)
    (scope : option string) :
  scope ∈ shown_scopes requests state <-> scope ∈ requests ∧ ¬ recorded scope state.
Proof.
  revert state. induction requests as [| x requests IH]; intros state; simpl.
  { split; [intros H; by apply elem_of_nil in H | intros [H _]; by apply elem_of_nil in H]. }
  pose proof (onNoESLintLibrary_spec x state) as (Hshown & Hrec & Hmono). cbv zeta in *.
  destruct (onNoESLintLibrary x state) as [state' shown]. simpl in *.
  destruct shown.
  - assert (¬ recorded x state) as Hx by (by apply Hshown).
    rewrite !elem_of_cons, IH, Hmono. split.
    + intros [-> | [Hin Hn]]; [by split; [left |] |]. split; [by right | tauto].
    + intros [[-> | Hin] Hn]; [by left |].
      destruct (decide (scope = x)) as [-> | Hne]; [by left |]. right. split; [done |].
      intros [H | H]; done.
  - assert (recorded x state) as Hx.
    { destruct (recorded_dec x state) as [H | H]; [done |]. apply Hshown in H. discriminate. }
    rewrite elem_of_cons, IH, Hmono. split.
    + intros [Hin Hn]. split; [by right | tauto].
    + intros [[-> | Hin] Hn]; [done |]. split; [done |]. intros [H | ->]; done.
Qed.

(** X16.  Over any run of missing-library requests, the information
    message is shown at most once for each workspace folder and at most
    once for documents outside every folder: it is shown for a scope exactly
    when a request names the scope and the stored state did not record it
    before the run. *)
Theorem missing_library_message_shown_once (requests : list (option string))
    (state : NoESLintState) :
  NoDup (shown_scopes requests state)
  ∧ ∀ scope, scope ∈ shown_scopes requests state
             <-> scope ∈ requests ∧ ¬ recorded scope state.
Proof.
  split; [| intros scope; apply shown_scopes_elem].
  revert state. induction requests as [| x requests IH]; intros state; simpl.
  { constructor. }
  pose proof (onNoESLintLibrary_spec x state) as (Hshown & Hrec & Hmono). cbv zeta in *.
  destruct (onNoESLintLibrary x state) as [state' shown]. simpl in *.
  destruct shown; [| apply IH].
  constructor; [| apply IH].
  rewrite shown_scopes_elem. intros [_ Hn]. done.
Qed.

(* ===================================================================== *)
(** ** Settings projection *)
(* ===================================================================== *)

(** X17.  [readCodeActionsOnSaveSetting] answers with the first value
    that is set among the language's ['source.fixAll.patched'], the
    language's ['source.fixAll'], the editor's ['source.fixAll.patched'] and
    the editor's ['source.fixAll'], and with [false] when none is set. *)
Theorem readCodeActionsOnSaveSetting_precedence (ec : EditorConfig) (document : TextDocument) :
  let language :=
    get_language_section ec (uri document) ("[" +:+ languageId document +:+ "]")
    ≫= editor_codeActionsOnSave in
  let editor := get_editor_codeActionsOnSave ec (uri document) in
  readCodeActionsOnSaveSetting ec document =
  default false
    (first_defined [ language ≫= (.!! source_fixAll_patched);
                     language ≫= (.!! source_fixAll);
                     editor ≫= (.!! source_fixAll_patched);
                     editor ≫= (.!! source_fixAll) ]).
Proof.
  cbv zeta. unfold readCodeActionsOnSaveSetting, fixAll_of.
  destruct (get_language_section ec (uri document) _) as [[[l |]] |]; simpl;
    destruct (get_editor_codeActionsOnSave ec (uri document)) as [e |]; simpl;
    repeat match goal with
           | |- context [?m !! ?k] =>
               lazymatch goal with
               | |- context [match m !! k with _ => _ end] => destruct (m !! k) eqn:?
               end
           end; simpl; try done;
    repeat match goal with H : ?x = _ |- context [?x] => rewrite H end; done.
Qed.

Section SettingsFacts.

Context {Options : Type}.
Variable empty_options : Options.
Variable toLowerCase : string -> string.
Context {RegExp : Type}.
Variables (toOSPath toPosixPath : string -> string).
Variable convert2RegExp : string -> option RegExp.
Variable regExp_exec : RegExp -> string -> option string.
Variable path_sep : string.
Variables (path_isAbsolute : string -> bool) (path_join : string -> string -> string).
Variables (path_posix_isAbsolute : string -> bool)
          (path_posix_join : string -> string -> string).
Variable asUri : Uri -> string.

Abbreviation build :=
  (build_settings empty_options toLowerCase toOSPath toPosixPath convert2RegExp regExp_exec
     path_sep path_isAbsolute path_join path_posix_isAbsolute path_posix_join asUri).

(** X18.  In the settings record of an item, validation is reported on
    exactly when the item's document is synced, the ['enabled'] key is not
    false and the gate lets the document through; format and
    code-action-on-save are never switched on for a document whose
    validation is off; and an item whose document is not synced gets
    neither a workspace folder nor a working directory. *)
Theorem settings_only_for_validated_documents (config : SettingsConfig Options)
    (gc : Uri -> PatchedConfig) (ec : EditorConfig) (st : ClientState)
    (workspaceFolder : option VWorkspaceFolder) (scopeUri : string) :
  let s := build config gc ec st workspaceFolder scopeUri in
  (s_validate s ≠ Validate_off <->
   ∃ document, syncedDocuments st !! scopeUri = Some document
     ∧ sc_enabled config ≠ Some false
     ∧ computeValidate gc (probeFailed st) document ≠ Validate_off
     ∧ s_validate s = computeValidate gc (probeFailed st) document)
  ∧ (s_validate s = Validate_off ->
     s_format s = false
     ∧ s_codeActionOnSave s = {| caos_enable := false; caos_mode := Mode_all |})
  ∧ (syncedDocuments st !! scopeUri = None ->
     s_validate s = Validate_off ∧ s_workspaceFolder s = None ∧ s_workingDirectory s = None).
Proof.
  cbv zeta. unfold build_settings.
  destruct (syncedDocuments st !! scopeUri) as [document |]; simpl.
  2: { split; [split; [done | by intros (? & ? & _)] | done]. }
  split; [| split; [| done]].
  - destruct (sc_enabled config) as [[|] |]; simpl.
    + split; [intros H; by exists document | by intros (d & [= <-] & _ & H & _)].
    + split; [done | by intros (d & _ & H & _)].
    + split; [intros H; by exists document | by intros (d & [= <-] & _ & H & _)].
  - intros ->. by rewrite bool_decide_eq_true_2.
Qed.

End SettingsFacts.

(* ===================================================================== *)
(** ** The migration prompt *)
(* ===================================================================== *)

Lemma last_captured_cons (a : option (list string) * nat)
    (arrivals : list (option (list string) * nat)) :
  last_captured (a :: arrivals) =
  if sectionless a
  then match last_captured arrivals with Some func => Some func | None => Some a.2 end
  else last_captured arrivals.
Proof.
  unfold last_captured. cbn [List.filter]. destruct (sectionless a); [| done].
  cbn [map]. destruct (map snd (List.filter sectionless arrivals)) as [| x l] eqn:Hm; [done |].
  rewrite last_cons. by destruct (last (x :: l)).
Qed.

Lemma filter_prompt_forwarded (events : list FlowEvent) (func : nat) :
  List.filter is_prompt (events ++ [FE_forwarded func]) = List.filter is_prompt events
  ∧ List.filter is_update (events ++ [FE_forwarded func]) = List.filter is_update events
  ∧ continuations_called (events ++ [FE_forwarded func]) = continuations_called events.
Proof.
  rewrite !List.filter_app. simpl. rewrite !app_nil_r. split; [done |]. split; [done |].
  induction events as [| [] events IH]; simpl; rewrite ?IH; done.
Qed.

Lemma arrivals_fold (arrivals : list (option (list string) * nat)) (m : Migration)
    (events : list FlowEvent) :
  let res := foldl (fun acc a => mw_didChangeConfiguration a.1 a.2 acc) (m, events) arrivals in
  didChangeConfiguration res.1
  = match last_captured arrivals with
    | Some func => Some func
    | None => didChangeConfiguration m
    end
  ∧ List.filter is_prompt res.2 = List.filter is_prompt events
  ∧ List.filter is_update res.2 = List.filter is_update events
  ∧ continuations_called res.2 = continuations_called events.
Proof.
  revert m events. induction arrivals as [| a arrivals IH]; intros m events;
    cbv zeta; [done |].
  cbn [foldl]. rewrite last_captured_cons.
  assert (mw_didChangeConfiguration a.1 a.2 (m, events) =
          if sectionless a then (captureDidChangeSetting a.2 m, events)
          else (m, events ++ [FE_forwarded a.2])) as ->.
  { unfold mw_didChangeConfiguration, sectionless. by destruct a as [[l |] func]. }
  destruct (sectionless a).
  - destruct (IH (captureDidChangeSetting a.2 m) events) as (H1 & H2 & H3 & H4).
    rewrite H1, H2, H3, H4. split; [| done]. by destruct (last_captured arrivals).
  - destruct (IH m (events ++ [FE_forwarded a.2])) as (H1 & H2 & H3 & H4).
    destruct (filter_prompt_forwarded events a.2) as (F1 & F2 & F3).
    by rewrite H1, H2, H3, H4, F1, F2, F3.
Qed.


Section FlowFacts.

Context {World : Type}.
Variable config_update : Write -> World -> option World.
Variable disable_migration : World -> option World.
Variable migration_2_x : World -> string.
Variable inspect_configuration : World -> string -> Configuration.

Abbreviation flow :=
  (migration_flow config_update disable_migration migration_2_x inspect_configuration).

Abbreviation prompted := (prompted migration_2_x inspect_configuration).

(** X19.  One run of the prompt flow shows the prompt at most once, and
    exactly when prompts are neither deferred for the session nor switched
    off and the recorded migration needs an update; it runs [update] only
    on the answer yes; it sets the session flag exactly on the answers
    not-now and open-readme and never clears it; it leaves the stores alone
    on every answer but yes and never-migrate; and it raises only when the
    never-migrate write is rejected, a failing [update] being reported and
    caught. *)
Theorem migration_flow_acts_on_choice (resource : string) (selected : option Choice)
    (arrivals : list (option (list string) * nat)) (notNow : bool) (w : World) :
  let f := flow resource selected arrivals notNow w in
  let p := prompted resource notNow w in
  List.filter is_prompt (fr_events f) = (if p then [FE_prompt] else [])
  ∧ length (List.filter is_update (fr_events f))
    = (if p && bool_decide (selected = Some Choice_yes) then 1 else 0)
  ∧ fr_notNow f = notNow || (p && defers selected)
  ∧ (fr_world f = w
     ∨ (p = true ∧ (selected = Some Choice_yes ∨ selected = Some Choice_global)))
  ∧ (fr_raised f = true
     <-> p = true ∧ selected = Some Choice_global ∧ disable_migration w = None).
Proof.
  cbv zeta. unfold migration_flow, prompted.
  destruct (negb notNow && bool_decide (migration_2_x w = "on")) eqn:Hgo; simpl.
  2: { rewrite orb_false_r. repeat split; try done; [by left | by intros (? & _)]. }
  destruct (record (Migration_new (inspect_configuration w resource)) []) as [m store] eqn:Hrec.
  simpl. destruct (needsUpdate m store) eqn:Hneeds; simpl.
  2: { rewrite orb_false_r. repeat split; try done; [by left | by intros (? & _)]. }
  pose proof (arrivals_fold arrivals m [FE_prompt]) as (_ & Hp & Hu & _). cbv zeta in Hp, Hu.
  destruct (foldl _ (m, [FE_prompt]) arrivals) as [m' events]. simpl in Hp, Hu.
  destruct selected as [[] |]; simpl;
    rewrite ?List.filter_app, ?Hp, ?Hu, ?orb_true_r, ?orb_false_r; simpl.
  - repeat split; try done.
    + by destruct (raised _).
    + by destruct (raised _).
    + right. split; [done | by left].
    + by intros (_ & ? & _).
  - destruct (disable_migration w) as [w' |] eqn:Hd; simpl; rewrite ?List.filter_app, ?Hp, ?Hu;
      repeat split; try done; try (right; split; [done | by right]).
    by intros (_ & _ & ?).
  - repeat split; try done; [by left | by intros (_ & ? & _)].
  - repeat split; try done; [by left | by intros (_ & ? & _)].
  - repeat split; try done; [by left | by intros (_ & ? & _)].
Qed.


End FlowFacts.

(* ===================================================================== *)
(** ** The [configuration] middleware *)
(* ===================================================================== *)

Section HandlerFacts.

Context {Options : Type}.
Variable empty_options : Options.
Variable toLowerCase : string -> string.
Context {RegExp : Type}.
Variables (toOSPath toPosixPath : string -> string).
Variable convert2RegExp : string -> option RegExp.
Variable regExp_exec : RegExp -> string -> option string.
Variable path_sep : string.
Variables (path_isAbsolute : string -> bool) (path_join : string -> string -> string).
Variables (path_posix_isAbsolute : string -> bool)
          (path_posix_join : string -> string -> string).
Variable asUri : Uri -> string.
Context {World : Type}.
Variable config_update : Write -> World -> option World.
Variable disable_migration : World -> option World.
Variable migration_2_x : World -> string.
Variable inspect_configuration : World -> string -> Configuration.
Variable patched_settings : World -> string -> SettingsConfig Options.
Variable patched_gate : World -> Uri -> PatchedConfig.
Variable editor_settings : World -> EditorConfig.
Variable getWorkspaceFolder : string -> option VWorkspaceFolder.

Abbreviation handle :=
  (handle_item empty_options toLowerCase toOSPath toPosixPath convert2RegExp regExp_exec
     path_sep path_isAbsolute path_join path_posix_isAbsolute path_posix_join asUri
     config_update disable_migration migration_2_x inspect_configuration
     patched_settings patched_gate editor_settings getWorkspaceFolder).
Abbreviation middleware :=
  (configuration_middleware empty_options toLowerCase toOSPath toPosixPath convert2RegExp
     regExp_exec path_sep path_isAbsolute path_join path_posix_isAbsolute path_posix_join
     asUri config_update disable_migration migration_2_x inspect_configuration
     patched_settings patched_gate editor_settings getWorkspaceFolder).

Lemma handle_item_raised (h : HandlerState Options World) (run : ItemRun) :
  hs_raised h = true -> handle h run = h.
Proof. intros H. unfold handle_item. by rewrite H. Qed.

Lemma handle_items_raised (h : HandlerState Options World) (items : list ItemRun) :
  hs_raised h = true -> foldl handle h items = h.
Proof.
  intros H. induction items as [| run items IH]; [done |].
  simpl. by rewrite handle_item_raised.
Qed.

Lemma handle_item_answer (h : HandlerState Options World) (run : ItemRun) :
  hs_raised h = false ->
  (hs_raised (handle h run) = true ∧ hs_result (handle h run) = hs_result h)
  ∨ (hs_raised (handle h run) = false
     ∧ ∃ r, hs_result (handle h run) = hs_result h ++ [r]
            ∧ (r = None <-> unsupported (item run) = true)).
Proof.
  intros H. unfold handle_item, unsupported. rewrite H.
  destruct (scopeUri (item run)) as [resource |] eqn:Hs.
  - destruct (truthy_string (section (item run)) || negb (truthy_string (Some resource)))
      eqn:Hu; simpl.
    + right. split; [done |]. by exists None.
    + destruct (fr_raised _) eqn:Hr; simpl; [by left |].
      right. split; [done |]. eexists. split; [done |]. split; discriminate.
  - simpl. right. split; [done |]. exists None. split; [done |]. by rewrite orb_true_r.
Qed.

Lemma handle_items_answers (items : list ItemRun) (h0 : HandlerState Options World) :
  hs_raised h0 = false ->
  ∃ answered pending rs,
    items = answered ++ pending
    ∧ hs_result (foldl handle h0 items) = hs_result h0 ++ rs
    ∧ Forall2 (fun r run => r = None <-> unsupported (item run) = true) rs answered
    ∧ (hs_raised (foldl handle h0 items) = false -> pending = []).
Proof.
  revert h0. induction items as [| run items IH]; intros h0 H0.
  { exists [], [], []. simpl. by rewrite app_nil_r. }
  simpl. destruct (handle_item_answer h0 run H0) as [[Hr Hres] | (Hr & r & Hres & Hnull)].
  - rewrite handle_items_raised by done.
    exists [], (run :: items), []. rewrite Hres, app_nil_r, Hr.
    repeat split; done.
  - destruct (IH (handle h0 run) Hr) as (answered & pending & rs & -> & Hrs & Hall & Hp).
    exists (run :: answered), pending, (r :: rs).
    split; [done |]. split; [by rewrite Hrs, Hres, <- app_assoc |].
    split; [by constructor | done].
Qed.

(** X21.  The [configuration] middleware answers the items in their
    order, one answer for each item it got to, and the answer of an item is
    [null] exactly when the item names a section or no scope uri; unless
    the handler raises, every item is answered. *)
Theorem configuration_answers_in_order (notNow : bool) (w : World) (items : list ItemRun) :
  let h := middleware notNow w (Some items) in
  ∃ answered pending,
    items = answered ++ pending
    ∧ Forall2 (fun r run => r = None <-> unsupported (item run) = true)
        (hs_result h) answered
    ∧ (hs_raised h = false -> pending = []).
Proof.
  cbv zeta. unfold configuration_middleware.
  destruct (handle_items_answers items
              {| hs_notNow := notNow; hs_world := w; hs_events := [];
                 hs_result := []; hs_raised := false |} eq_refl)
    as (answered & pending & rs & Hi & Hres & Hall & Hp).
  exists answered, pending. simpl in Hres. rewrite Hres. done.
Qed.

Lemma handle_item_deferred (h : HandlerState Options World) (run : ItemRun) :
  hs_notNow h = true -> hs_raised h = false ->
  let h' := handle h run in
  hs_notNow h' = true ∧ hs_raised h' = false ∧ hs_world h' = hs_world h
  ∧ hs_events h' = hs_events h ∧ length (hs_result h') = S (length (hs_result h)).
Proof.
  intros Hn Hr. cbv zeta. unfold handle_item, migration_flow. rewrite Hr, Hn. simpl.
  destruct (scopeUri (item run)); simpl;
    [destruct (_ || _); simpl |]; rewrite ?app_nil_r, length_app; simpl;
    repeat split; try done; lia.
Qed.

(** X22.  Once the session flag [notNow] is set, the [configuration]
    middleware shows no prompt, runs no update, changes no store and does
    not raise, whatever the items and the configuration are; it answers
    every item and leaves the flag set. *)
Theorem deferred_migration_stays_silent (w : World) (items : list ItemRun) :
  let h := middleware true w (Some items) in
  hs_events h = [] ∧ hs_world h = w ∧ hs_raised h = false ∧ hs_notNow h = true
  ∧ length (hs_result h) = length items.
Proof.
  cbv zeta. unfold configuration_middleware.
  assert (∀ h0 : HandlerState Options World,
            hs_notNow h0 = true -> hs_raised h0 = false ->
            let h := foldl handle h0 items in
            hs_events h = hs_events h0 ∧ hs_world h = hs_world h0 ∧ hs_raised h = false
            ∧ hs_notNow h = true
            ∧ length (hs_result h) = length (hs_result h0) + length items) as H.
  { induction items as [| run items IH]; intros h0 Hn Hr; cbv zeta.
    { simpl. repeat split; try done; lia. }
    simpl. destruct (handle_item_deferred h0 run Hn Hr) as (Hn' & Hr' & Hw & He & Hl).
    destruct (IH (handle h0 run) Hn' Hr') as (H1 & H2 & H3 & H4 & H5).
    rewrite H1, H2, H5, He, Hw, Hl. repeat split; try done; lia. }
  apply (H {| hs_notNow := true; hs_world := w; hs_events := [];
              hs_result := []; hs_raised := false |}); done.
Qed.

End HandlerFacts.

(* ===================================================================== *)
(** ** More on working-directory resolution *)
(* ===================================================================== *)

Lemma last_charAt_append (d s : string) :
  String.length s = 1 -> last_charAt (d +:+ s) = s.
Proof.
  intros Hs. destruct s as [| c [| c' s]]; try discriminate.
  induction d as [| a d IH]; [done |].
  change (String a d +:+ String c EmptyString)
    with (String a (d +:+ String c EmptyString)).
  destruct d as [| b d]; [done |].
  change (last_charAt (String a (String b d +:+ String c EmptyString)))
    with (last_charAt (String b d +:+ String c EmptyString)).
  exact IH.
Qed.

Section MoreWorkingDirectoryFacts.

Context {RegExp : Type}.
Variables (toOSPath toPosixPath : string -> string).
Variable convert2RegExp : string -> option RegExp.
Variable regExp_exec : RegExp -> string -> option string.
Variable path_sep : string.
Variables (path_isAbsolute : string -> bool) (path_join : string -> string -> string).
Variables (path_posix_isAbsolute : string -> bool)
          (path_posix_join : string -> string -> string).

Abbreviation wd_value :=
  (itemValue toOSPath toPosixPath convert2RegExp regExp_exec path_sep
     path_isAbsolute path_join path_posix_isAbsolute path_posix_join).
Abbreviation wd_step :=
  (resolve_entry toOSPath toPosixPath convert2RegExp regExp_exec path_sep
     path_isAbsolute path_join path_posix_isAbsolute path_posix_join).
Abbreviation wd_resolve :=
  (resolveWorkingDirectory toOSPath toPosixPath convert2RegExp regExp_exec path_sep
     path_isAbsolute path_join path_posix_isAbsolute path_posix_join).

Lemma itemValue_needs_file (folderPath : option string) (document : TextDocument)
    (directory pattern : option string) :
  scheme (uri document) ≠ "file" -> wd_value folderPath document directory pattern = None.
Proof.
  intros H. unfold itemValue. rewrite (bool_decide_eq_false_2 _ H).
  by destruct (Is_string directory || Is_string pattern).
Qed.

(** X23.  A document whose uri is not a [file] uri never gets a directory
    from the [workingDirectories] list: its working directory is undefined
    or a mode entry, whatever directories and patterns are configured. *)
Theorem non_file_document_gets_no_directory (config : PatchedConfig)
    (workspaceFolder : option VWorkspaceFolder) (document : TextDocument) :
  scheme (uri document) ≠ "file" ->
  not_directory (wd_resolve config workspaceFolder document).
Proof.
  intros H. unfold resolveWorkingDirectory.
  destruct (cfg_workingDirectories config) as [entries |]; [| done].
  unfold resolve_entries.
  assert (∀ wd, not_directory wd ->
            not_directory
              (foldl (wd_step (workspaceFolderPath_of workspaceFolder) document) wd entries))
    as Hfold.
  { induction entries as [| e entries IH]; intros wd Hwd; [done |].
    simpl. apply IH. unfold resolve_entry.
    destruct (classify e) as [d p n | o]; [| done].
    by rewrite itemValue_needs_file. }
  by apply Hfold.
Qed.

Lemma itemValue_directory (folderPath : option string) (document : TextDocument)
    (directory : option string) (v : string) :
  String.length path_sep = 1 ->
  wd_value folderPath document directory None = Some v ->
  scheme (uri document) = "file"
  ∧ String.prefix v (fsPath (uri document)) = true
  ∧ last_charAt v = path_sep.
Proof.
  intros Hsep. unfold itemValue.
  destruct (Is_string directory || Is_string None); [| discriminate].
  case_bool_decide as Hfile; [| discriminate].
  destruct directory as [directory |]; [| discriminate].
  set (d := match folderPath with
            | Some workspaceFolderPath =>
                if negb (path_isAbsolute (toOSPath directory))
                then path_join workspaceFolderPath (toOSPath directory)
                else toOSPath directory
            | None => toOSPath directory
            end).
  case_bool_decide as Hlast; simpl.
  - destruct (String.prefix d _) eqn:Hp; [| discriminate].
    intros [= <-]. done.
  - destruct (String.prefix (d +:+ path_sep) _) eqn:Hp; [| discriminate].
    intros [= <-]. split; [done |]. split; [done |]. by apply last_charAt_append.
Qed.

(** X24.  While no entry of the list configures a pattern, a directory the
    resolution returns is a prefix of the document's file path and ends
    with the path separator (one character, as on every platform of
    Node). *)
Theorem directory_is_separator_terminated_prefix (config : PatchedConfig)
    (workspaceFolder : option VWorkspaceFolder) (document : TextDocument)
    (entries : list WorkingDirectoryEntry) (d : string) (c : bool) :
  String.length path_sep = 1 ->
  cfg_workingDirectories config = Some entries ->
  Forall (fun e => is_pattern_entry e = false) entries ->
  wd_resolve config workspaceFolder document = Some (WD_DirectoryItem d c) ->
  scheme (uri document) = "file"
  ∧ String.prefix d (fsPath (uri document)) = true
  ∧ last_charAt d = path_sep.
Proof.
  intros Hsep Hcfg Hall. unfold resolveWorkingDirectory. rewrite Hcfg. clear Hcfg.
  unfold resolve_entries.
  set (good := fun wd : option WorkingDirectory =>
         ∀ d c, wd = Some (WD_DirectoryItem d c) ->
           scheme (uri document) = "file"
           ∧ String.prefix d (fsPath (uri document)) = true
           ∧ last_charAt d = path_sep).
  assert (∀ wd, good wd ->
            good (foldl (wd_step (workspaceFolderPath_of workspaceFolder) document)
                    wd entries)) as Hfold.
  { induction Hall as [| e entries He Hall IH]; intros wd Hwd; [done |].
    simpl. apply IH. unfold good in Hwd |- *. cbv beta in Hwd |- *.
    unfold resolve_entry.
    unfold is_pattern_entry in He.
    destruct (classify e) as [dir [pat |] n | o]; [discriminate | | by intros d0 c0 [=]].
    destruct (wd_value _ document dir None) as [v |] eqn:Hv; [| done].
    pose proof (itemValue_directory _ _ _ Hsep Hv) as Hgood.
    destruct wd as [[o | current nc] |].
    - by intros d0 c0 [= <- <-].
    - case_bool_decide; [by intros d0 c0 [= <- <-] | done].
    - by intros d0 c0 [= <- <-]. }
  intros Hr. assert (good None) as Hnone by (by intros d0 c0 [=]).
  exact (Hfold None Hnone d c Hr).
Qed.

End MoreWorkingDirectoryFacts.

Lemma non_file_document_gets_no_directory_witness :
  not_directory
    (resolveWorkingDirectory Posix.toOSPath Posix.toPosixPath Posix.convert2RegExp
       Posix.regExp_exec Posix.sep Posix.isAbsolute Posix.join Posix.isAbsolute Posix.join
       {| cfg_enable := None; cfg_validate := None; cfg_probe := None;
          cfg_workingDirectories := Some [Examples.dir "Untitled" None] |}
       None MoreExamples.untitled_document).
Proof.
  apply (@non_file_document_gets_no_directory unit). by vm_compute.
Defined.

Lemma directory_is_separator_terminated_prefix_witness :
  Examples.javascript_document.(uri).(scheme) = "file"
  ∧ String.prefix "/a/b/" (fsPath (uri Examples.javascript_document)) = true
  ∧ last_charAt "/a/b/" = Posix.sep.
Proof.
  apply (@directory_is_separator_terminated_prefix unit Posix.toOSPath Posix.toPosixPath
           Posix.convert2RegExp Posix.regExp_exec Posix.sep Posix.isAbsolute Posix.join
           Posix.isAbsolute Posix.join
           {| cfg_enable := None; cfg_validate := None; cfg_probe := None;
              cfg_workingDirectories :=
                Some [Examples.dir "/a" None; Examples.dir "/a/b" (Some true)] |}
           None Examples.javascript_document
           [Examples.dir "/a" None; Examples.dir "/a/b" (Some true)] "/a/b/" true).
  - reflexivity.
  - reflexivity.
  - repeat constructor.
  - by vm_compute.
Defined.

(* ===================================================================== *)
(** ** The [enable] and [disable] commands *)
(* ===================================================================== *)

Lemma pickFolder_elem (folders : list VWorkspaceFolder) (selected : option nat)
    (folder : VWorkspaceFolder) :
  pickFolder folders selected = Some folder -> folder ∈ folders.
Proof.
  unfold pickFolder. intros H.
  assert (match selected with Some i => folders !! i | None => None end = Some folder
          -> folder ∈ folders) as Hsel.
  { destruct selected as [i |]; [| discriminate]. apply list_elem_of_lookup_2. }
  destruct folders as [| f [| f' rest]]; [by apply Hsel | | by apply Hsel].
  injection H as <-. apply list_elem_of_singleton. done.
Qed.

Lemma enable_update (w : Workspace) (workspaceFolders : option (list VWorkspaceFolder))
    (selected : option nat) (folder : VWorkspaceFolder) (key : string) (value : bool) :
  enable w workspaceFolders selected = CO_update folder key value ->
  key = "enable" ∧ value = true
  ∧ (∃ folders, workspaceFolders = Some folders ∧ folder ∈ folders)
  ∧ folder_enabled w folder = false.
Proof.
  unfold enable. destruct workspaceFolders as [folders |]; [| discriminate].
  case_bool_decide; [by case_bool_decide |].
  destruct (pickFolder _ selected) as [f |] eqn:Hp; [| discriminate].
  intros [= <- <- <-].
  apply pickFolder_elem, list_elem_of_filter in Hp as [Hoff Hin].
  split; [done |]. split; [done |]. split; [by exists folders | done].
Qed.

Lemma disable_update (w : Workspace) (workspaceFolders : option (list VWorkspaceFolder))
    (selected : option nat) (folder : VWorkspaceFolder) (key : string) (value : bool) :
  disable w workspaceFolders selected = CO_update folder key value ->
  key = "enable" ∧ value = false
  ∧ (∃ folders, workspaceFolders = Some folders ∧ folder ∈ folders)
  ∧ folder_enabled w folder = true.
Proof.
  unfold disable. destruct workspaceFolders as [folders |]; [| discriminate].
  case_bool_decide; [by case_bool_decide |].
  destruct (pickFolder _ selected) as [f |] eqn:Hp; [| discriminate].
  intros [= <- <- <-].
  apply pickFolder_elem, list_elem_of_filter in Hp as [Hon Hin].
  split; [done |]. split; [done |]. split; [by exists folders | done].
Qed.

(** X25.  The [enable] command writes nothing but [enable = true], and
    only for a workspace folder in which Patched is switched off; the
    [disable] command writes nothing but [enable = false], and only for a
    workspace folder in which Patched is on. *)
Theorem commands_flip_the_picked_folder (w : Workspace)
    (workspaceFolders : option (list VWorkspaceFolder)) (selected : option nat)
    (folder : VWorkspaceFolder) (key : string) (value : bool) :
  enable w workspaceFolders selected = CO_update folder key value
  ∨ disable w workspaceFolders selected = CO_update folder key value ->
  key = "enable"
  ∧ (∃ folders, workspaceFolders = Some folders ∧ folder ∈ folders)
  ∧ folder_enabled w folder = negb value
  ∧ (value = true <-> enable w workspaceFolders selected = CO_update folder key value).
Proof.
  intros [H | H].
  - destruct (enable_update _ _ _ H) as (-> & -> & Hin & Hoff). by repeat split.
  - destruct (disable_update _ _ _ H) as (-> & -> & Hin & Hon).
    repeat split; try done.
    intros He. by destruct (enable_update _ _ _ He) as (_ & ? & _).
Qed.

Lemma commands_flip_the_picked_folder_witness :
  "enable" = "enable"
  ∧ (∃ folders, Some [MoreExamples.folder_a; MoreExamples.folder_b] = Some folders
                ∧ MoreExamples.folder_b ∈ folders)
  ∧ folder_enabled MoreExamples.b_disabled MoreExamples.folder_b = negb true
  ∧ (true = true <->
     enable MoreExamples.b_disabled (Some [MoreExamples.folder_a; MoreExamples.folder_b]) None
     = CO_update MoreExamples.folder_b "enable" true).
Proof.
  apply (commands_flip_the_picked_folder MoreExamples.b_disabled
           (Some [MoreExamples.folder_a; MoreExamples.folder_b]) None).
  left. by vm_compute.
Defined.

(* ===================================================================== *)
(** ** The status bar *)
(* ===================================================================== *)

Lemma status_step_text (sb : StatusBar) (ev : bool * StatusEvent) :
  is_status_notification ev = false -> sb_text (status_step sb ev) = sb_text sb.
Proof. destruct ev as [a [running | state |]]; done. Qed.

Lemma status_step_text_notification (sb sb' : StatusBar) (ev : bool * StatusEvent) :
  is_status_notification ev = true ->
  sb_text (status_step sb ev) = sb_text (status_step sb' ev).
Proof. destruct ev as [a [running | state |]]; done. Qed.

Lemma status_fold_text (events : list (bool * StatusEvent)) (sb sb' : StatusBar) :
  sb_text sb = sb_text sb' ->
  sb_text (foldl status_step sb events)
  = sb_text (foldl status_step sb' (filter (fun ev => is_status_notification ev = true) events)).
Proof.
  revert sb sb'. induction events as [| ev events IH]; intros sb sb' H; [done |].
  simpl. destruct (is_status_notification ev) eqn:Hn.
  - rewrite filter_cons_True by done. simpl. apply IH.
    by apply status_step_text_notification.
  - rewrite filter_cons_False by (by rewrite Hn). apply IH.
    by rewrite status_step_text.
Qed.

(** X26.  The text of the status bar item follows the status
    notifications alone: the server's state changes and its no-config
    requests leave the text alone, although a no-config request sets the
    status to [warn]; and after every event the item is shown exactly
    when the server runs with a status other than [ok] or the
    [alwaysShowStatus] setting read at that event is on. *)
Theorem status_text_follows_notifications (alwaysShowStatus : bool)
    (events : list (bool * StatusEvent)) :
  let sb := foldl status_step (realActivate_status alwaysShowStatus) events in
  sb_text sb
  = sb_text (foldl status_step (realActivate_status alwaysShowStatus)
               (filter (fun ev => is_status_notification ev = true) events))
  ∧ sb_shown sb
    = (serverRunning sb && negb (bool_decide (eslintStatus sb = Status_ok)))
      || default alwaysShowStatus (fst <$> last events).
Proof.
  cbv zeta. split; [by apply status_fold_text |].
  induction events as [| ev events IH] using rev_ind; [done |].
  rewrite foldl_app, last_snoc. simpl.
  destruct ev as [a [running | state |]]; done.
Qed.
